(** * vedo: applications, assembly and package bootstrap

    A shallow embedding of the parts of [vedo/applications.py],
    [vedo/assembly.py] and [vedo/__init__.py] that the specification makes
    statements about, and of the code around them, followed by the theorems
    about them.

    Conventions of the embedding:
    - Python integers are [Z]; Python floats are read as exact rationals [Q]
      (rounding of the floating-point unit is not modelled), and as real
      numbers where the code takes sines and cosines;
    - Python strings are [string]s of 8-bit characters;
    - an object attribute that is mutated becomes a record field and every
      method becomes a function from the state before to the state after;
    - a method that can raise returns an [outcome];
    - calls into the rendering engine are kept as data (lists of the objects
      or requests handed over) or taken as an interface. *)

From Stdlib Require Import ZArith QArith Qround Qabs List String Ascii Bool Lia Lqa.
From Stdlib Require Import Permutation Sorted DecimalString.
From Stdlib Require Reals Lra.
Import ListNotations.
Close Scope Q_scope.

(* ################################################################# *)
(** * Part I: the embedding *)

(* ================================================================= *)
(** ** Python built-ins used by the sources *)

Module Py.

(** The exceptions that the embedded code can raise. *)
Inductive exn : Type :=
| RuntimeError
| UnboundLocalError
| ValueError
| ZeroDivisionError
| TypeError
| IndexError.

(** [x < y] on floats. *)
Definition Qltb (x y : Q) : bool := negb (Qle_bool y x).

(** [min(a, b)]: the first argument unless the second is strictly smaller. *)
Definition min (a b : Q) : Q := if Qltb b a then b else a.

(** [max(a, b)]: the first argument unless the second is strictly larger. *)
Definition max (a b : Q) : Q := if Qltb a b then b else a.

(** [int(x)] on a float: truncation toward zero. *)
Definition int (x : Q) : Z := Z.quot (Qnum x) (Zpos (Qden x)).

End Py.

(* ================================================================= *)
(** ** applications.py: AnimationPlayer *)

Module AnimationPlayer.
Local Open Scope Z_scope.

Inductive symbol : Type := PLAY_SYMBOL | PAUSE_SYMBOL.

(** The attributes of an [AnimationPlayer] that its transport methods read
    or write.  [func_calls] is the list of arguments with which the user's
    [_func] has been called so far, oldest first; [timers] and [next_timer]
    stand for the timers of the render window. *)
Record player : Type := mkPlayer {
  value : Z;
  min_value : Z;
  max_value : Z;
  dt : Q;
  is_playing : bool;
  loop : bool;
  timer_id : option nat;
  button_status : symbol;
  slider_value : Z;
  func_calls : list Z;
  timers : list nat;
  next_timer : nat
}.

(** [__init__(func, irange, dt, loop)]: the frame starts one below the
    range, the button shows its first state and the slider its minimum. *)
Definition init (irange : Z * Z) (dt0 : Q) (loop0 : bool) : player :=
  let '(mn, mx) := irange in
  {| value := mn - 1;
     min_value := mn;
     max_value := mx;
     dt := Py.max dt0 1%Q;
     is_playing := false;
     loop := loop0;
     timer_id := None;
     button_status := PLAY_SYMBOL;
     slider_value := mn;
     func_calls := [];
     timers := [];
     next_timer := O |}.

Definition set_value (v : Z) (s : player) : player :=
  {| value := v; min_value := min_value s; max_value := max_value s;
     dt := dt s; is_playing := is_playing s; loop := loop s;
     timer_id := timer_id s; button_status := button_status s;
     slider_value := slider_value s; func_calls := func_calls s;
     timers := timers s; next_timer := next_timer s |}.

Definition set_slider (v : Z) (s : player) : player :=
  {| value := value s; min_value := min_value s; max_value := max_value s;
     dt := dt s; is_playing := is_playing s; loop := loop s;
     timer_id := timer_id s; button_status := button_status s;
     slider_value := v; func_calls := func_calls s;
     timers := timers s; next_timer := next_timer s |}.

(** [self._func(v)]: the call is recorded. *)
Definition call_func (v : Z) (s : player) : player :=
  {| value := value s; min_value := min_value s; max_value := max_value s;
     dt := dt s; is_playing := is_playing s; loop := loop s;
     timer_id := timer_id s; button_status := button_status s;
     slider_value := slider_value s; func_calls := func_calls s ++ [v];
     timers := timers s; next_timer := next_timer s |}.

(** [timer_callback("destroy", id)]. *)
Definition destroy_timer (id : nat) (s : player) : player :=
  {| value := value s; min_value := min_value s; max_value := max_value s;
     dt := dt s; is_playing := is_playing s; loop := loop s;
     timer_id := timer_id s; button_status := button_status s;
     slider_value := slider_value s; func_calls := func_calls s;
     timers := List.remove Nat.eq_dec id (timers s);
     next_timer := next_timer s |}.

(** [pause()]. *)
Definition pause (s : player) : player :=
  let s1 :=
    match timer_id s with
    | Some id => destroy_timer id s
    | None => s
    end in
  {| value := value s1; min_value := min_value s1; max_value := max_value s1;
     dt := dt s1; is_playing := false; loop := loop s1;
     timer_id := None; button_status := PLAY_SYMBOL;
     slider_value := slider_value s1; func_calls := func_calls s1;
     timers := timers s1; next_timer := next_timer s1 |}.

(** [resume()]. *)
Definition resume (s : player) : player :=
  let s1 :=
    match timer_id s with
    | Some id => destroy_timer id s
    | None => s
    end in
  {| value := value s1; min_value := min_value s1; max_value := max_value s1;
     dt := dt s1; is_playing := true; loop := loop s1;
     timer_id := Some (next_timer s1); button_status := PAUSE_SYMBOL;
     slider_value := slider_value s1; func_calls := func_calls s1;
     timers := next_timer s1 :: timers s1; next_timer := S (next_timer s1) |}.

(** The first half of [set_frame]: the wrap or clamp of the requested
    frame.  Returns the player (paused or not) and the frame it settled on. *)
Definition resolve_frame (v : Z) (s : player) : player * Z :=
  if loop s then
    if v <? min_value s then (s, max_value s - 1)
    else if v >=? max_value s then (s, min_value s)
    else (s, v)
  else
    if v <? min_value s then (pause s, min_value s)
    else if v >=? max_value s - 1 then (pause s, max_value s - 1)
    else (s, v).

(** [set_frame(value)]. *)
Definition set_frame (v : Z) (s : player) : player :=
  let '(s1, v1) := resolve_frame v s in
  if negb (value s1 =? v1)
  then call_func v1 (set_slider v1 (set_value v1 s1))
  else s1.

(** The buttons, the slider and the timer.  [hit] tells whether the event
    carries the actor that the handler is bound to. *)
Definition toggle (hit : bool) (s : player) : player :=
  if hit then (if negb (is_playing s) then resume s else pause s) else s.

Definition oneforward (hit : bool) (s : player) : player :=
  if hit then let s1 := pause s in set_frame (value s1 + 1) s1 else s.

Definition onebackward (hit : bool) (s : player) : player :=
  if hit then let s1 := pause s in set_frame (value s1 - 1) s1 else s.

(** [_slider_callback]: the widget value arrives already rounded. *)
Definition _slider_callback (widget_value : Z) (s : player) : player :=
  set_frame widget_value (pause s).

Definition _handle_timer (s : player) : player :=
  set_frame (value s + 1) s.

(** A player is paused when it does not play, owns no timer and its button
    offers to play. *)
Definition paused (s : player) : Prop :=
  is_playing s = false /\ timer_id s = None /\ button_status s = PLAY_SYMBOL.

(** What the user can do to a player. *)
Inductive event : Type :=
| Toggle (hit : bool)
| OneForward (hit : bool)
| OneBackward (hit : bool)
| Slider (widget_value : Z)
| Timer
| SetFrame (v : Z).

Definition handle (e : event) (s : player) : player :=
  match e with
  | Toggle hit => toggle hit s
  | OneForward hit => oneforward hit s
  | OneBackward hit => onebackward hit s
  | Slider w => _slider_callback w s
  | Timer => _handle_timer s
  | SetFrame v => set_frame v s
  end.

Definition run (es : list event) (s : player) : player :=
  fold_left (fun st e => handle e st) es s.

(** The bookkeeping that [pause], [resume] and [set_frame] keep: the timer
    of the player, if any, is the only one alive; the player plays exactly
    when it owns a timer; the button offers the other state. *)
Definition tidy (s : player) : Prop :=
  timers s = match timer_id s with Some id => [id] | None => [] end /\
  is_playing s = match timer_id s with Some _ => true | None => false end /\
  button_status s = if is_playing s then PAUSE_SYMBOL else PLAY_SYMBOL.

End AnimationPlayer.

(* ================================================================= *)
(** ** applications.py: Slicer3DPlotter, the clamping of the scalar range *)

Module Slicer3DPlotter.
Local Open Scope Q_scope.

(** What [Slicer3DPlotter.__init__] asks of numpy: [np.log] and
    [np.histogram(data, bins)], which returns the counts of the bins and
    the [bins + 1] edges. *)
Record numpy : Type := {
  np_log : Q -> Q;
  np_histogram : list Q -> nat -> list Z * list Q
}.

(** [np.sum]. *)
Definition np_sum (xs : list Q) : Q := fold_left Qplus xs 0.

(** [np.multiply] on two arrays of one length. *)
Definition np_multiply (xs ys : list Q) : list Q :=
  map (fun p => fst p * snd p) (combine xs ys).

(** Lines 107-110: the mean of the log-scale histogram; [edg[:-1]] are the
    left edges of the bins. *)
Definition meanlog (np : numpy) (data : list Q) : Q :=
  let '(hdata, edg) := np_histogram np data 50 in
  let logdata := map (fun h => np_log np (inject_Z h + 1)) hdata in
  np_sum (np_multiply (removelast edg) logdata) / np_sum logdata.

(** Lines 111-112: the two assignments, in the order of the source. *)
Definition clamp_range (rmin rmax mean : Q) : Q * Q :=
  let rmax := Py.min rmax (mean + (mean - rmin) * 0.9) in
  let rmin := Py.max rmin (mean - (rmax - mean) * 0.9) in
  (rmin, rmax).

(** Lines 105-112: the range [(rmin, rmax)] that the slices are coloured
    with, from the scalar range of the volume. *)
Definition display_range (np : numpy) (clamp : bool) (data : list Q)
    (scalar_range : Q * Q) : Q * Q :=
  let '(rmin, rmax) := scalar_range in
  if clamp then clamp_range rmin rmax (meanlog np data) else (rmin, rmax).

(** The display minimum as the specification words it: from the raw
    maximum of the data. *)
Definition spec_display_min (rawmin rawmax mean : Q) : Q :=
  Py.max rawmin (mean - (rawmax - mean) * 0.9).

(** The display maximum as the specification words it. *)
Definition spec_display_max (rawmin rawmax mean : Q) : Q :=
  Py.min rawmax (mean + (mean - rawmin) * 0.9).

End Slicer3DPlotter.

(* ================================================================= *)
(** ** applications.py: Animation, the booking of effects *)

Module Animation.
Local Open Scope Q_scope.

(** A mesh as the lighting and fading effects see it: its identity and the
    values of its [vtkProperty]. *)
Record actor : Type := mkActor {
  uid : nat;
  alpha : Q;
  ambient : Q;
  diffuse : Q;
  specular : Q;
  specular_power : Q
}.

(** Objects are compared by identity. *)
Definition same_actor (a b : actor) : bool := Nat.eqb (uid a) (uid b).

(** The method that an event replays, and the value computed for it at
    booking time. *)
Inductive action : Type := Fade_in | Fade_out | Change_lighting.

Inductive inputvalues : Type :=
| Alpha (x : Q)
| Lighting (vals : list (Q * Q * Q * Q)).

(** An entry of [self.events]: [(tt, action, acts, inputvalues)]. *)
Definition event : Type := (Q * action * list actor * inputvalues)%type.

(** The attributes of an [Animation] that booking reads or writes;
    [errors] are the messages sent to [vedo.logger.error]. *)
Record animation : Type := mkAnimation {
  events : list event;
  time_resolution : Q;
  bookingMode : bool;
  actors : list actor;
  _lastT : option Q;
  _lastDuration : option Q;
  _lastActs : option (list actor);
  _performers : list actor;
  _inputvalues : inputvalues;
  errors : list string
}.

(** [Animation.__init__], with the given [time_resolution]. *)
Definition init (resolution : Q) : animation :=
  {| events := []; time_resolution := resolution; bookingMode := true;
     actors := []; _lastT := None; _lastDuration := None; _lastActs := None;
     _performers := []; _inputvalues := Lighting []; errors := [] |}.

(** A call either returns a value or raises; both leave a state behind. *)
Inductive outcome (A : Type) : Type :=
| Return (a : A) (s : animation)
| Raised (e : Py.exn) (s : animation).
Arguments Return {A} a s.
Arguments Raised {A} e s.

Definition M (A : Type) : Type := animation -> outcome A.

Definition ret {A : Type} (a : A) : M A := fun s => Return a s.

Definition raise {A : Type} (e : Py.exn) : M A := fun s => Raised e s.

Definition bind {A B : Type} (m : M A) (f : A -> M B) : M B :=
  fun s => match m s with
           | Return a s1 => f a s1
           | Raised e s1 => Raised e s1
           end.

Notation "x <- m ;; k" := (bind m (fun x => k))
  (at level 61, m at next level, right associativity).
Notation "' pat <- m ;; k" :=
  (bind m (fun x => match x with pat => k end))
  (at level 61, pat pattern, m at next level, right associativity).
Notation "m ;;; k" := (bind m (fun _ => k))
  (at level 61, right associativity).

Definition get : M animation := fun s => Return s s.

Definition final_state {A : Type} (o : outcome A) : animation :=
  match o with Return _ s => s | Raised _ s => s end.

(** [vedo.logger.error(msg)]. *)
Definition logger_error (msg : string) : M unit := fun s =>
  Return tt
    {| events := events s; time_resolution := time_resolution s;
       bookingMode := bookingMode s; actors := actors s;
       _lastT := _lastT s; _lastDuration := _lastDuration s;
       _lastActs := _lastActs s; _performers := _performers s;
       _inputvalues := _inputvalues s; errors := errors s ++ [msg] |}.

(** [self.events.append(e)]. *)
Definition events_append (e : event) : M unit := fun s =>
  Return tt
    {| events := events s ++ [e]; time_resolution := time_resolution s;
       bookingMode := bookingMode s; actors := actors s;
       _lastT := _lastT s; _lastDuration := _lastDuration s;
       _lastActs := _lastActs s; _performers := _performers s;
       _inputvalues := _inputvalues s; errors := errors s |}.

(** The three assignments [_lastT], [_lastDuration], [_lastActs] of
    [_parse], followed by its loop that appends the actors not yet known to
    [self.actors]. *)
Definition remember (t duration : Q) (objs2 : list actor) : M unit := fun s =>
  Return tt
    {| events := events s; time_resolution := time_resolution s;
       bookingMode := bookingMode s;
       actors :=
         fold_left
           (fun known a =>
              if existsb (same_actor a) known then known else known ++ [a])
           objs2 (actors s);
       _lastT := Some t; _lastDuration := Some duration;
       _lastActs := Some objs2; _performers := _performers s;
       _inputvalues := _inputvalues s; errors := errors s |}.

(** [self._performers = ps], as the playback branches leave it. *)
Definition set_performers (ps : list actor) : M unit := fun s =>
  Return tt
    {| events := events s; time_resolution := time_resolution s;
       bookingMode := bookingMode s; actors := actors s;
       _lastT := _lastT s; _lastDuration := _lastDuration s;
       _lastActs := _lastActs s; _performers := ps;
       _inputvalues := _inputvalues s; errors := errors s |}.

(** The [objs] argument of an effect: [None], one object, or a sequence
    (what [is_sequence] accepts). *)
Inductive objs_arg : Type :=
| NoObjs
| OneObj (a : actor)
| ObjSeq (l : list actor).

(** Truth value of an optional float: [None] and [0.0] are false. *)
Definition truthy_float (x : option Q) : option Q :=
  match x with
  | Some v => if Qeq_bool v 0 then None else Some v
  | None => None
  end.

(** [np.linspace(start, stop, num)] in exact arithmetic: [num] evenly
    spaced samples, the last one [stop]; a negative [num] is refused. *)
Definition linspace (start stop : Q) (num : Z) : M (list Q) :=
  if (num <? 0)%Z then raise Py.ValueError
  else if (num =? 1)%Z then ret [start]
  else
    ret (map (fun i => start + inject_Z (Z.of_nat i)
                               * ((stop - start) / inject_Z (num - 1)))
             (seq 0 (Z.to_nat num))).

(** [_parse(objs, t, duration)]. *)
Definition _parse (objs : objs_arg) (t duration : option Q)
  : M (list actor * Q * Q * list Q) :=
  s <- get ;;
  let t := match t with
           | Some t => t
           | None => match truthy_float (_lastT s) with
                     | Some l => l
                     | None => 0
                     end
           end in
  let duration := match duration with
                  | Some d => d
                  | None => match truthy_float (_lastDuration s) with
                            | Some l => l
                            | None => 0
                            end
                  end in
  objs2 <- match objs with
           | NoObjs =>
               match _lastActs s with
               | Some (a :: l) => ret (a :: l)
               | _ => logger_error "Need to specify actors!" ;;;
                      raise Py.RuntimeError
               end
           | OneObj a => ret [a]
           | ObjSeq l => ret l
           end ;;
  (* quantize time steps and duration *)
  let res := time_resolution s in
  if Qeq_bool res 0 then raise Py.ZeroDivisionError else
  let t := inject_Z (Py.int (t / res + 0.5)) * res in
  let nsteps := Py.int (duration / res + 0.5) in
  let duration := inject_Z nsteps * res in
  rng <- linspace t (t + duration) (nsteps + 1) ;;
  remember t duration objs2 ;;;
  ret (objs2, t, duration, rng).

(** Modelled from the spec: [vedo.utils.lin_interpolate], which is not among
    the sources; the specification gives
    [lin_interpolate(t, [t0,t1], [v0,v1]) = v0 + (t-t0)/(t1-t0)*(v1-v0)]. *)
Definition lin_interpolate (x : Q) (rangeX rangeY : Q * Q) : Q :=
  let '(x0, x1) := rangeX in
  let '(y0, y1) := rangeY in
  y0 + (x - x0) / (x1 - x0) * (y1 - y0).

(** A [for] loop whose body may raise. *)
Fixpoint for_each {A : Type} (xs : list A) (body : A -> M unit) : M unit :=
  match xs with
  | [] => ret tt
  | x :: rest => body x ;;; for_each rest body
  end.

(** A loop that builds a list with [append], whose body may raise. *)
Fixpoint collect {A B : Type} (xs : list A) (body : A -> M B) : M (list B) :=
  match xs with
  | [] => ret []
  | x :: rest => v <- body x ;; vs <- collect rest body ;; ret (v :: vs)
  end.

Definition set_alpha (x : Q) (a : actor) : actor :=
  {| uid := uid a; alpha := x; ambient := ambient a; diffuse := diffuse a;
     specular := specular a; specular_power := specular_power a |}.

(** [fade_in(acts, t, duration)]. *)
Definition fade_in (acts : objs_arg) (t duration : option Q) : M unit :=
  s <- get ;;
  if bookingMode s then
    '(acts, t, duration, rng) <- _parse acts t duration ;;
    for_each rng (fun tt =>
      let alpha := lin_interpolate tt (t, t + duration) (0, 1) in
      events_append (tt, Fade_in, acts, Alpha alpha))
  else
    match _inputvalues s with
    | Alpha x =>
        set_performers
          (map (fun a => if Qle_bool x (alpha a) then a else set_alpha x a)
               (_performers s))
    | Lighting _ =>
        match _performers s with
        | [] => ret tt
        | _ :: _ => raise Py.TypeError
        end
    end.

(** The parameters of a lighting style: ambient, diffuse, specular,
    specular power and the colour of the highlight.  [None] is the state of
    the local variable [pars] after the [else] branch, which binds nothing. *)
Definition lighting_pars (style : string)
  : option (Q * Q * Q * Q * (Q * Q * Q)) :=
  let c := (1, 1, 0.99) in
  if (style =? "metallic")%string then Some (0.1, 0.3, 1.0, 10, c)
  else if (style =? "plastic")%string then Some (0.3, 0.4, 0.3, 5, c)
  else if (style =? "shiny")%string then Some (0.2, 0.6, 0.8, 50, c)
  else if (style =? "glossy")%string then Some (0.1, 0.7, 0.9, 90, c)
  else if (style =? "default")%string then Some (0.1, 1.0, 0.05, 5, c)
  else None.

(** Reading the local variable [pars]. *)
Definition read_pars (pars : option (Q * Q * Q * Q * (Q * Q * Q)))
  : M (Q * Q * Q * Q * (Q * Q * Q)) :=
  match pars with
  | Some p => ret p
  | None => raise Py.UnboundLocalError
  end.

Definition set_lighting (vals : Q * Q * Q * Q) (a : actor) : actor :=
  let '(v0, v1, v2, v3) := vals in
  {| uid := uid a; alpha := alpha a; ambient := v0; diffuse := v1;
     specular := v2; specular_power := v3 |}.

(** The playback loop of [change_lighting]: [vals = self._inputvalues[i]]
    for the [i]-th performer. *)
Fixpoint replay_lighting (ps : list actor) (vals : list (Q * Q * Q * Q))
  : M (list actor) :=
  match ps, vals with
  | [], _ => ret []
  | a :: ps', v :: vals' =>
      rest <- replay_lighting ps' vals' ;; ret (set_lighting v a :: rest)
  | _ :: _, [] => raise Py.IndexError
  end.

(** [change_lighting(style, acts, t, duration)]. *)
Definition change_lighting (style : string) (acts : objs_arg)
    (t duration : option Q) : M unit :=
  s <- get ;;
  if bookingMode s then
    '(acts, t, duration, rng) <- _parse acts t duration ;;
    let pars := lighting_pars style in
    match pars with
    | Some _ => ret tt
    | None => logger_error ("Unknown lighting style " ++ style)
    end ;;;
    for_each rng (fun tt =>
      inputvalues <-
        collect acts (fun a =>
          let aa := ambient a in
          let ad := diffuse a in
          let asp := specular a in
          let aspp := specular_power a in
          '(p0, _, _, _, _) <- read_pars pars ;;
          let naa := lin_interpolate tt (t, t + duration) (aa, p0) in
          '(_, p1, _, _, _) <- read_pars pars ;;
          let nad := lin_interpolate tt (t, t + duration) (ad, p1) in
          '(_, _, p2, _, _) <- read_pars pars ;;
          let nasp := lin_interpolate tt (t, t + duration) (asp, p2) in
          '(_, _, _, p3, _) <- read_pars pars ;;
          let naspp := lin_interpolate tt (t, t + duration) (aspp, p3) in
          ret (naa, nad, nasp, naspp)) ;;
      events_append (tt, Change_lighting, acts, Lighting inputvalues))
  else
    match _inputvalues s with
    | Lighting vals =>
        ps <- replay_lighting (_performers s) vals ;; set_performers ps
    | Alpha _ =>
        match _performers s with
        | [] => ret tt
        | _ :: _ => raise Py.TypeError
        end
    end.

(** A mesh with the lighting of a fresh [vtkProperty], fully opaque. *)
Definition fresh_mesh (id : nat) : actor :=
  {| uid := id; alpha := 1; ambient := 0; diffuse := 1; specular := 0;
     specular_power := 1 |}.

(** The start time and the duration that a call to [_parse] returned. *)
Definition parsed_times (o : outcome (list actor * Q * Q * list Q))
  : option (Q * Q) :=
  match o with
  | Return (_, t, d, _) _ => Some (t, d)
  | Raised _ _ => None
  end.

(** Rounding half-up to an integer, as the specification words the
    quantization. *)
Definition round_half_up (x : Q) : Z := Qfloor (x + (1 # 2)).

(** The actors that [_parse] settles on: those given, or else the ones
    remembered from the last call, if any. *)
Definition chosen_actors (objs : objs_arg) (s : animation)
  : option (list actor) :=
  match objs with
  | NoObjs =>
      match _lastActs s with
      | Some (a :: l) => Some (a :: l)
      | _ => None
      end
  | OneObj a => Some [a]
  | ObjSeq l => Some l
  end.

(** [fade_out(acts, t, duration)]. *)
Definition fade_out (acts : objs_arg) (t duration : option Q) : M unit :=
  s <- get ;;
  if bookingMode s then
    '(acts, t, duration, rng) <- _parse acts t duration ;;
    for_each rng (fun tt =>
      let alpha := lin_interpolate tt (t, t + duration) (1, 0) in
      events_append (tt, Fade_out, acts, Alpha alpha))
  else
    match _inputvalues s with
    | Alpha x =>
        set_performers
          (map (fun a => if Qle_bool (alpha a) x then a else set_alpha x a)
               (_performers s))
    | Lighting _ =>
        match _performers s with
        | [] => ret tt
        | _ :: _ => raise Py.TypeError
        end
    end.

(** [change_alpha_between(alpha1, alpha2, acts, t, duration)]: the events
    it books name [self.fade_out] as the method to replay. *)
Definition change_alpha_between (alpha1 alpha2 : Q) (acts : objs_arg)
    (t duration : option Q) : M unit :=
  s <- get ;;
  if bookingMode s then
    '(acts, t, duration, rng) <- _parse acts t duration ;;
    for_each rng (fun tt =>
      let alpha := lin_interpolate tt (t, t + duration) (alpha1, alpha2) in
      events_append (tt, Fade_out, acts, Alpha alpha))
  else
    match _inputvalues s with
    | Alpha x => set_performers (map (set_alpha x) (_performers s))
    | Lighting _ =>
        match _performers s with
        | [] => ret tt
        | _ :: _ => raise Py.TypeError
        end
    end.

(** [self.bookingMode = b]. *)
Definition set_bookingMode (b : bool) : M unit := fun s =>
  Return tt
    {| events := events s; time_resolution := time_resolution s;
       bookingMode := b; actors := actors s;
       _lastT := _lastT s; _lastDuration := _lastDuration s;
       _lastActs := _lastActs s; _performers := _performers s;
       _inputvalues := _inputvalues s; errors := errors s |}.

(** The objects live on while the events are played, and an event holds
    references to its performers: what an action reads of a performer at
    playback is the state the object has then, not the one it had when the
    event was booked.  [live] lists the objects as they are now;
    [current live a] is the object that the reference [a] stands for.  An
    object that [live] does not list is taken as it was booked. *)
Definition current (live : list actor) (a : actor) : actor :=
  match find (same_actor a) live with
  | Some b => b
  | None => a
  end.

(** The objects once an action has left the performers as [changed]. *)
Definition store (changed live : list actor) : list actor :=
  fold_left (fun l a => map (fun b => if same_actor a b then a else b) l)
            changed live.

(** The first two statements of the body of the loop of [play]:
    [tt, action, self._performers, self._inputvalues = e] and
    [action(0, 0)], on the objects as they are in [live]; the result is
    the objects as the action leaves them.  The arguments [0, 0] are not
    looked at outside the booking mode. *)
Definition replay (e : event) (live : list actor) : M (list actor) :=
  let '(_, action, performers, values) := e in
  (fun s =>
     Return tt
       {| events := events s; time_resolution := time_resolution s;
          bookingMode := bookingMode s; actors := actors s;
          _lastT := _lastT s; _lastDuration := _lastDuration s;
          _lastActs := _lastActs s;
          _performers := map (current live) performers;
          _inputvalues := values; errors := errors s |}) ;;;
  match action with
  | Fade_in => fade_in NoObjs None None
  | Fade_out => fade_out NoObjs None None
  | Change_lighting => change_lighting "" NoObjs None None
  end ;;;
  s <- get ;;
  ret (store (_performers s) live).

End Animation.

(* ================================================================= *)
(** ** Python strings and [os.path] (POSIX flavour) *)

Module PyStr.
Local Open Scope string_scope.

(** [s[:n]] and [s[n:]] for an index [n] that is not negative. *)
Fixpoint take (n : nat) (s : string) : string :=
  match n, s with
  | S k, String c rest => String c (take k rest)
  | _, _ => ""
  end.

Fixpoint drop (n : nat) (s : string) : string :=
  match n, s with
  | S k, String _ rest => drop k rest
  | _, _ => s
  end.

(** [s.rfind(c)] for a single character: the index of its last occurrence,
    [None] where Python answers [-1]. *)
Fixpoint rfind (c : ascii) (s : string) : option nat :=
  match s with
  | "" => None
  | String a rest =>
      match rfind c rest with
      | Some i => Some (S i)
      | None => if Ascii.eqb a c then Some O else None
      end
  end.

(** [sub in s]. *)
Fixpoint contains (sub s : string) : bool :=
  String.prefix sub s ||
  match s with
  | "" => false
  | String _ rest => contains sub rest
  end.

(** [s.replace(old, new)] for a non-empty [old]: the occurrences of [old]
    are found from left to right, without overlap.  [skip] counts the
    characters of the occurrence just matched that are still to be passed. *)
Fixpoint replace_from (old new s : string) (skip : nat) : string :=
  match s with
  | "" => ""
  | String c rest =>
      match skip with
      | S k => replace_from old new rest k
      | O =>
          if String.prefix old s
          then new ++ replace_from old new rest (String.length old - 1)
          else String c (replace_from old new rest O)
      end
  end.

Definition replace (old new s : string) : string := replace_from old new s O.

(** [s.split(sep)[0]] for a single character [sep]: the text before the
    first [sep], the whole of [s] when there is none. *)
Fixpoint before_first (sep : ascii) (s : string) : string :=
  match s with
  | "" => ""
  | String c rest => if Ascii.eqb c sep then "" else String c (before_first sep rest)
  end.

End PyStr.

Module PosixPath.
Local Open Scope string_scope.

Definition sep : ascii := "/".
Definition extsep : ascii := ".".

(** [os.path.basename(p)]: [p[p.rfind('/') + 1:]]. *)
Definition basename (p : string) : string :=
  let i := match PyStr.rfind sep p with Some k => S k | None => O end in
  PyStr.drop i p.

(** The loop of [os.path.splitext] that passes the leading dots of the file
    name: [true] when a character other than a dot stands at one of the [n]
    indices from [filenameIndex] on. *)
Fixpoint name_starts_before (p : string) (filenameIndex n : nat) : bool :=
  match n with
  | O => false
  | S k =>
      match String.get filenameIndex p with
      | Some c =>
          if Ascii.eqb c extsep
          then name_starts_before p (S filenameIndex) k
          else true
      | None => true
      end
  end.

(** [os.path.splitext(p)]: the extension starts at the last dot, provided
    that dot comes after the last slash and after a character of the file
    name that is not a dot. *)
Definition splitext (p : string) : string * string :=
  match PyStr.rfind extsep p with
  | Some dotIndex =>
      let filenameIndex :=
        match PyStr.rfind sep p with Some k => S k | None => O end in
      if (filenameIndex <=? dotIndex)%nat
         && name_starts_before p filenameIndex (dotIndex - filenameIndex)
      then (PyStr.take dotIndex p, PyStr.drop dotIndex p)
      else (p, "")
  | None => (p, "")
  end.

End PosixPath.

(* ================================================================= *)
(** ** applications.py: FreeHandCutPlotter, the [s] key *)

Module FreeHandCutPlotter.
Local Open Scope string_scope.

(** What the [s] key touches: the file name of the mesh (empty when the
    mesh was not read from a file), the files written and the messages sent
    to [vedo.logger.info]. *)
Record plotter : Type := mkPlotter {
  mesh_filename : string;
  written : list string;
  infos : list string
}.

(** Lines 1056-1062: the name of the file to write. *)
Definition save_target (filename : string) : string :=
  if negb (String.eqb filename "") then
    let fname := PosixPath.basename filename in
    let '(fname, extension) := PosixPath.splitext fname in
    let fname := PyStr.replace "_edited" "" fname in
    fname ++ "_edited" ++ extension
  else "mesh_edited.vtk".

(** [write(filename)]. *)
Definition write (filename : string) (p : plotter) : plotter :=
  {| mesh_filename := mesh_filename p;
     written := (written p ++ [filename])%list;
     infos := (infos p ++ [("mesh saved to file " ++ filename)%string])%list |}.

(** [_on_keypress] for the key [s]. *)
Definition _on_keypress_s (p : plotter) : plotter :=
  write (save_target (mesh_filename p)) p.

(** The target as the specification words it for a name [stem ++ ext]:
    the tag goes before the extension, after a tag that ends the stem has
    been dropped. *)
Definition strip_suffix (suffix s : string) : string :=
  let n := String.length s - String.length suffix in
  if (String.length suffix <=? String.length s)%nat
     && String.eqb (PyStr.drop n s) suffix
  then PyStr.take n s else s.

Definition spec_save_target (stem ext : string) : string :=
  strip_suffix "_edited" stem ++ "_edited" ++ ext.

End FreeHandCutPlotter.

(* ================================================================= *)
(** ** __init__.py: the font registry *)

Module Fonts.
Local Open Scope string_scope.

(** [sorted(xs)] on strings, as a stable insertion sort: an element is
    placed in front of the first element that is strictly greater. *)
Fixpoint insert (x : string) (l : list string) : list string :=
  match l with
  | [] => [x]
  | y :: rest => if String.ltb x y then x :: l else y :: insert x rest
  end.

Definition sorted (l : list string) : list string :=
  fold_left (fun acc x => insert x acc) l [].

(** The order that [sorted] puts strings in. *)
Definition le (a b : string) : Prop := String.leb a b = true.

(** Lines 91-92, for the listing [os.listdir(fonts_path)]. *)
Definition fonts (listing : list string) : list string :=
  sorted (map (PyStr.before_first ".")
              (filter (fun _f => negb (PyStr.contains ".npz" _f)) listing)).

End Fonts.

(* ================================================================= *)
(** ** assembly.py: Assembly *)

Module Assembly.
Local Open Scope Q_scope.
Set Warnings "-register-all".

Definition vec : Type := (Q * Q * Q)%type.

(** A scalar bar: a bar of its own, or the [Group] of bars that an
    Assembly builds.  Bars are drawables: none is falsy, none is a list. *)
Inductive bar : Type :=
| ScalarBar (uid : nat)
| BarGroup (parts : list bar).

(** The attributes that [Assembly] reads on its constituents; [anchors] is
    the pair [(base, top)] of an object that has one. *)
Record attrs : Type := mkAttrs {
  uid : nat;
  name : string;
  pos : vec;
  anchors : option (vec * vec);
  scalarbar : option bar
}.

(** What can be handed to an Assembly: [None], a [vtkProp3D] that is not an
    Assembly, a drawable that is not a [vtkProp3D], or an Assembly with its
    [actors] and the parts added to the [vtkAssembly]. *)
Inductive obj : Type :=
| PyNone
| Actor3D (a : attrs)
| Actor2D (a : attrs)
| Asm (a : attrs) (actors parts : list obj).

(** [isinstance(a, vtk.vtkProp3D)]. *)
Definition is_prop3d (o : obj) : bool :=
  match o with
  | Actor3D _ | Asm _ _ _ => true
  | PyNone | Actor2D _ => false
  end.

(** [isinstance(a, Assembly)]. *)
Definition is_assembly (o : obj) : bool :=
  match o with
  | Asm _ _ _ => true
  | _ => false
  end.

Definition attrs_of (o : obj) : option attrs :=
  match o with
  | PyNone => None
  | Actor3D a | Actor2D a | Asm a _ _ => Some a
  end.

(** [a.scalarbar] when [hasattr(a, "scalarbar") and a.scalarbar is not
    None]. *)
Definition bar_of (o : obj) : option bar :=
  match attrs_of o with
  | Some a => scalarbar a
  | None => None
  end.

(** What [unpack_group] of [__add__] returns: the bar, or the list of the
    parts of a group. *)
Inductive unpacked : Type :=
| One (b : bar)
| Many (l : list bar).

Definition unpack_group (b : bar) : unpacked :=
  match b with
  | BarGroup parts => Many parts
  | ScalarBar _ => One b
  end.

(** [Group(objects)] on scalar bars and lists of scalar bars: [flatten]
    splices the lists, and every bar passes the truth test. *)
Definition Group (objects : list unpacked) : bar :=
  BarGroup
    (flat_map (fun x => match x with One b => [b] | Many l => l end) objects).

(** [group += obj] on scalar bars: a list is added item by item, a single
    object as it is. *)
Definition Group_iadd (group_parts : list bar) (obj : unpacked) : bar :=
  match obj with
  | One b => BarGroup (group_parts ++ [b])
  | Many l => BarGroup (group_parts ++ l)
  end.

(** Lines 228-247 of [__init__], on the list [meshs] of constituents. *)
Definition __init__ (self : attrs) (meshs : list obj) : obj :=
  let anchors' :=
    match meshs with
    | first :: _ =>
        match attrs_of first with
        | Some a => anchors a
        | None => None
        end
    | [] => None
    end in
  let parts := filter is_prop3d meshs in
  let scalarbars :=
    flat_map (fun a => match bar_of a with Some b => [b] | None => [] end)
             meshs in
  let scalarbar' :=
    match scalarbars with
    | _ :: _ :: _ => Some (Group (map One scalarbars))
    | [b] => Some b
    | [] => scalarbar self
    end in
  Asm {| uid := uid self; name := name self; pos := pos self;
         anchors := anchors'; scalarbar := scalarbar' |}
      meshs parts.

(** [__add__(obj)]. *)
Definition __add__ (self : obj) (o : obj) : obj :=
  match self with
  | Asm a actors parts =>
      let parts' := if is_prop3d o then parts ++ [o] else parts in
      let actors' := actors ++ [o] in
      let scalarbar' :=
        match bar_of o with
        | Some b =>
            match scalarbar a with
            | None => Some b
            | Some (BarGroup group_parts) =>
                Some (Group_iadd group_parts (unpack_group b))
            | Some (ScalarBar u) =>
                Some (Group [unpack_group (ScalarBar u); unpack_group b])
            end
        | None => scalarbar a
        end in
      Asm {| uid := uid a; name := name a; pos := pos a;
             anchors := anchors a; scalarbar := scalarbar' |}
          actors' parts'
  | _ => self
  end.

(** [obj in assembly]: objects are compared by identity. *)
Definition same (x y : obj) : bool :=
  match attrs_of x, attrs_of y with
  | Some a, Some b => Nat.eqb (uid a) (uid b)
  | None, None => true
  | _, _ => false
  end.

Definition __contains__ (self : obj) (o : obj) : bool :=
  match self with
  | Asm _ actors _ => existsb (same o) actors
  | _ => false
  end.

(** The exceptions that unpacking can raise, and the result of a call. *)
Inductive error : Type := AttributeError | IndexError.

Inductive result (A : Type) : Type :=
| Ok (a : A)
| Raise (e : error).
Arguments Ok {A} a.
Arguments Raise {A} e.

Definition bind {A B : Type} (r : result A) (f : A -> result B) : result B :=
  match r with
  | Ok a => f a
  | Raise e => Raise e
  end.

(** What [recursive_unpack] asks of the parts it moves: [clone()] and
    [shift(delta)]. *)
Record base3d : Type := {
  clone : obj -> obj;
  shift : vec -> obj -> obj
}.

(** [unpack()] without arguments. *)
Definition unpack (self : obj) : list obj :=
  match self with
  | Asm _ actors _ => actors
  | _ => []
  end.

(** [actors[i]] with the indices of Python: [-1] is the last element. *)
Definition getitem (actors : list obj) (i : Z) : result obj :=
  let n := Z.of_nat (List.length actors) in
  let j := if (i <? 0)%Z then (n + i)%Z else i in
  if ((0 <=? j) && (j <? n))%Z
  then match nth_error actors (Z.to_nat j) with
       | Some o => Ok o
       | None => Raise IndexError
       end
  else Raise IndexError.

(** [unpack(i)] for an integer [i]. *)
Definition unpack_index (self : obj) (i : Z) : result obj :=
  getitem (unpack self) i.

(** [unpack(i)] for a string [i]: the first object whose name contains
    [i]; [PyNone] when the loop ends without one.  [None] among the actors
    has no name. *)
Fixpoint first_named (i : string) (actors : list obj) : result obj :=
  match actors with
  | [] => Ok PyNone
  | m :: rest =>
      match attrs_of m with
      | Some a => if PyStr.contains i (name a) then Ok m
                  else first_named i rest
      | None => Raise AttributeError
      end
  end.

Definition unpack_name (self : obj) (i : string) : result obj :=
  first_named i (unpack self).

Definition position (o : obj) : vec :=
  match attrs_of o with
  | Some a => pos a
  | None => (0, 0, 0)
  end.

(** [np.sum(apos)]. *)
Definition np_sum (v : vec) : Q := let '(x, y, z) := v in x + y + z.

(** The inner loop of [recursive_unpack] over the parts of a nested
    Assembly: each part is passed on as it is, or as a shifted clone when
    the coordinates of the Assembly do not sum to zero.  [None] has no
    [clone]. *)
Fixpoint moved_parts (B : base3d) (apos : vec) (xs : list obj)
  : result (list obj) :=
  match xs with
  | [] => Ok []
  | x :: rest =>
      bind (if negb (Qeq_bool (np_sum apos) 0)
            then match x with
                 | PyNone => Raise AttributeError
                 | _ => Ok (shift B apos (clone B x))
                 end
            else Ok x)
           (fun y => bind (moved_parts B apos rest)
                          (fun ys => Ok (y :: ys)))
  end.

(** The outer loop of [recursive_unpack]. *)
Fixpoint _genflatten (B : base3d) (lst : list obj) : result (list obj) :=
  match lst with
  | [] => Ok []
  | elem :: rest =>
      bind (if is_assembly elem
            then moved_parts B (position elem) (unpack elem)
            else Ok [elem])
           (fun ys => bind (_genflatten B rest)
                           (fun zs => Ok (ys ++ zs)))
  end.

(** [recursive_unpack()]: the generator is run over [[self]], whose first
    element, an Assembly, is replaced by its actors. *)
Definition recursive_unpack (B : base3d) (self : obj) : result (list obj) :=
  _genflatten B (unpack self).

(** A constituent whose scalar bar, if it has one, is not a group. *)
Definition plain_bar (o : obj) : Prop :=
  match bar_of o with
  | Some (BarGroup _) => False
  | _ => True
  end.

(** What one element of the outer loop of [recursive_unpack] yields when
    nothing goes wrong. *)
Definition yield_count (elem : obj) : nat :=
  if is_assembly elem then List.length (unpack elem) else 1%nat.

End Assembly.

(* ================================================================= *)
(** ** assembly.py: procrustes_alignment *)

Module Procrustes.

Definition point : Type := (Q * Q * Q)%type.

(** A source: a point set with its name, if it has one, and the handle of
    its [vtkProperty]. *)
Record source : Type := mkSource {
  name : option string;
  points : list point;
  property : nat
}.

(** [source.npoints]. *)
Definition npoints (s : source) : nat := List.length (points s).

(** The requests sent to the filters of the rendering engine. *)
Inductive call : Type :=
| AddInputData (polydata : list point)
| Update (rigid : bool).

(** What [vtkProcrustesAlignmentFilter] answers after [Update()], for the
    blocks it was given: the aligned blocks, the landmark transform and the
    mean points. *)
Record filter : Type := {
  GetBlock : bool -> list (list point) -> nat -> list point;
  GetLandmarkTransform : bool -> list (list point) -> nat;
  GetMeanPoints : bool -> list (list point) -> list point
}.

(** A mesh of the result: [Mesh(poly)] with the property and the name of
    its source. *)
Record mesh : Type := mkMesh {
  mesh_points : list point;
  mesh_property : nat;
  mesh_name : option string
}.

(** The Assembly returned: its actors (all of them meshes, hence all of
    them parts), [transform] and [info["mean"]]. *)
Record assembly : Type := mkAssembly {
  actors : list mesh;
  transform : nat;
  info_mean : list point
}.

(** The outcome of a call: the requests sent, the errors logged and the
    value returned or the exception raised. *)
Record outcome : Type := mkOutcome {
  calls : list call;
  errors : list string;
  result : Py.exn + assembly
}.

(** The first loop: every source is compared with [sources[0]] and then
    handed to the group filter.  Returns the requests sent and whether the
    loop came to its end. *)
Fixpoint add_inputs (first : source) (rest : list source)
  : list call * bool :=
  match rest with
  | [] => ([], true)
  | s :: rest' =>
      if negb (Nat.eqb (npoints first) (npoints s))
      then ([], false)
      else let '(cs, ok) := add_inputs first rest' in
           (AddInputData (points s) :: cs, ok)
  end.

(** [procrustes_alignment(sources, rigid)]. *)
Definition procrustes_alignment (F : filter) (sources : list source)
    (rigid : bool) : outcome :=
  let '(cs, ok) :=
    match sources with
    | [] => ([], true)
    | first :: _ => add_inputs first sources
    end in
  if ok then
    let blocks := map points sources in
    let acts :=
      map (fun '(i, s) =>
             {| mesh_points := GetBlock F rigid blocks i;
                mesh_property := property s;
                mesh_name := name s |})
          (combine (seq 0 (List.length sources)) sources) in
    {| calls := cs ++ [Update rigid];
       errors := [];
       result := inr {| actors := acts;
                        transform := GetLandmarkTransform F rigid blocks;
                        info_mean := GetMeanPoints F rigid blocks |} |}
  else
    {| calls := cs;
       errors := ["sources have different nr of points"%string];
       result := inl Py.RuntimeError |}.

End Procrustes.

(* ================================================================= *)
(** ** applications.py: Browser, the slider *)

Module Browser.

(** An object of a series: its identity and the attributes that the slider
    reads of it.  Whether an object is switched on is kept with the
    browser, by identity: an object listed twice is one object. *)
Record item : Type := mkItem {
  id : nat;
  filename : string;
  name : string
}.

(** An entry of a series: an object with [on()] and [off()], or [None]. *)
Definition entry : Type := option item.

Record browser : Type := mkBrowser {
  objects : list (list entry);
  visible : nat -> bool;
  _oldk : option Z;
  slider_title : string;
  resetcam : bool;
  title : string;
  camera_resets : nat;
  renders : nat
}.

(** [str(k)]. *)
Definition str (k : Z) : string := NilZero.string_of_int (Z.to_int k).

(** [s.split(c)[-1]]: the text after the last [c]. *)
Definition after_last (c : ascii) (s : string) : string :=
  match PyStr.rfind c s with
  | Some i => PyStr.drop (S i) s
  | None => s
  end.

Definition nonempty (s : string) : bool := negb (String.eqb s EmptyString).

(** [a.on()] and [a.off()]: the object [a] is switched, the others are
    left as they are. *)
Definition switch (on : bool) (a : item) (vis : nat -> bool) : nat -> bool :=
  fun u => if Nat.eqb u (id a) then on else vis u.

(** The local variables of [slider_function] that outlive the loops: the
    object last turned on and the object last looked at, when bound. *)
Record locals : Type := mkLocals {
  akon : option item;
  ak : option entry
}.

(** The loop over [j] for one series, from index [j] for [count] rounds.
    Returns the objects' states, the locals and whether the loop came to
    its end: [objects[i][j]] raises [IndexError] past the end of a short
    series.  On [None] both [on()] and [off()] raise [AttributeError],
    which the loop passes over, before [akon] is bound. *)
Fixpoint toggle_series (k : Z) (series : list entry) (j count : nat)
    (vis : nat -> bool) (loc : locals) : (nat -> bool) * locals * bool :=
  match count with
  | O => (vis, loc, true)
  | S count' =>
      match nth_error series j with
      | None => (vis, loc, false)
      | Some e =>
          match e with
          | Some a =>
              toggle_series k series (S j) count'
                (switch (Z.of_nat j =? k)%Z a vis)
                {| akon := if (Z.of_nat j =? k)%Z then Some a else akon loc;
                   ak := Some (Some a) |}
          | None =>
              toggle_series k series (S j) count' vis
                {| akon := akon loc; ak := Some None |}
          end
      end
  end.

(** The loop over the series. *)
Fixpoint toggle_all (k : Z) (m : nat) (rows : list (list entry))
    (vis : nat -> bool) (loc : locals) : (nat -> bool) * locals * bool :=
  match rows with
  | [] => (vis, loc, true)
  | series :: rest =>
      let '(vis', loc', ok) := toggle_series k series O m vis loc in
      if ok then toggle_all k m rest vis' loc' else (vis', loc', false)
  end.

(** The text of the slider, lines 795-805.  An unbound [akon] and a
    missing attribute raise inside the [try]; the text is then the index
    alone. *)
Definition title_text (given : string) (n : nat) (k : Z) (loc : locals)
  : string :=
  let tx := str k in
  if nonempty given then (given ++ " " ++ tx)%string
  else
    match akon loc with
    | None => tx
    | Some shown =>
        if Nat.eqb n 1 && nonempty (filename shown)
        then after_last "\" (after_last "/" (filename shown))
        else if nonempty (name shown)
        then match ak loc with
             | Some (Some last) => (name last ++ " " ++ tx)%string
             | _ => tx
             end
        else tx
    end.

(** [slider_function()], for the value [self.slider.value] of the slider.
    The result is [inl IndexError] with the state left behind when a
    series is shorter than the first. *)
Definition slider_function (value : Q) (b : browser)
  : Py.exn * browser + browser :=
  let k := Py.int value in
  if match _oldk b with Some old => (k =? old)%Z | None => false end
  then inr b
  else
    let n := List.length (objects b) in
    match objects b with
    | [] =>
        inl (Py.IndexError,
             {| objects := objects b; visible := visible b; _oldk := Some k;
                slider_title := slider_title b; resetcam := resetcam b;
                title := title b; camera_resets := camera_resets b;
                renders := renders b |})
    | first :: _ =>
        let m := List.length first in
        let '(vis, loc, ok) :=
          toggle_all k m (objects b) (visible b)
                     {| akon := None; ak := None |} in
        if ok then
          inr {| objects := objects b; visible := vis; _oldk := Some k;
                 slider_title := slider_title b; resetcam := resetcam b;
                 title := title_text (slider_title b) n k loc;
                 camera_resets := if resetcam b then S (camera_resets b)
                                  else camera_resets b;
                 renders := S (renders b) |}
        else
          inl (Py.IndexError,
               {| objects := objects b; visible := vis; _oldk := Some k;
                  slider_title := slider_title b; resetcam := resetcam b;
                  title := title b; camera_resets := camera_resets b;
                  renders := renders b |})
    end.

(** The place [(i', j')] comes after the place [(i, j)] on the way of the
    two loops: series by series, and from left to right in a series. *)
Definition later (i j i' j' : nat) : Prop :=
  (i < i')%nat \/ (i = i' /\ (j < j')%nat).

End Browser.

(* ================================================================= *)
(** ** applications.py: SplinePlotter, the clicked points *)

Module SplinePlotter.

Definition point : Type := (Q * Q * Q)%type.

(** What the plotter puts on the scene: the picked points ([Points],
    named "points") and the curve through them ([Spline] or [Line]).
    Objects are told apart by identity. *)
Inductive kind : Type := PointsObj | SplineObj | LineObj.

Record shape : Type := mkShape {
  id : nat;
  what : kind;
  pts : list point;
  is_closed : bool
}.

(** The library calls whose result the source only passes on:
    whether [Spline(points, closed)] raises [ValueError], and the index
    that [closest_point(p, return_point_id=True)] gives. *)
Record engine : Type := mkEngine {
  spline_raises : list point -> bool -> bool;
  closest_point : list point -> point -> nat
}.

Inductive message : Type := Added (p : point) | Deleted | Cleared.

Record plotter : Type := mkPlotter {
  splined : bool;
  closed : bool;
  lwidth : Z;
  verbose : bool;
  cpoints : list point;
  vpoints : option shape;
  line : option shape;
  scene : list shape;
  next_id : nat;
  renders : nat;
  printed : list message
}.

(** [SplinePlotter.__init__]: nothing of its own on the scene yet. *)
Definition init (init_points : list point) (closed0 splined0 : bool)
  : plotter :=
  {| splined := splined0; closed := closed0; lwidth := 3; verbose := true;
     cpoints := init_points; vpoints := None; line := None; scene := [];
     next_id := O; renders := O; printed := [] |}.

Inductive exn : Type := IndexError | AttributeError.

(** [self.remove(a, b)]: the given objects leave the scene; [None] is
    passed over. *)
Definition leaves (gone : list (option shape)) (x : shape) : bool :=
  existsb (fun g => match g with
                    | Some y => Nat.eqb (id x) (id y)
                    | None => false
                    end) gone.

Definition remove (gone : list (option shape)) (sc : list shape)
  : list shape :=
  filter (fun x => negb (leaves gone x)) sc.

(** [_update()]. *)
Definition _update (E : engine) (s : plotter) : plotter :=
  let scene1 := remove [line s; vpoints s] (scene s) in
  let vp := mkShape (next_id s) PointsObj (cpoints s) false in
  let minnr := if splined s then 2%nat else 1%nat in
  if negb (lwidth s =? 0)%Z && (minnr <? List.length (cpoints s))%nat then
    if splined s then
      if spline_raises E (cpoints s) (closed s) then
        {| splined := splined s; closed := closed s; lwidth := lwidth s;
           verbose := verbose s; cpoints := removelast (cpoints s);
           vpoints := Some vp; line := line s; scene := scene1;
           next_id := S (next_id s); renders := renders s;
           printed := printed s |}
      else
        let ln := mkShape (S (next_id s)) SplineObj (cpoints s) (closed s) in
        {| splined := splined s; closed := closed s; lwidth := lwidth s;
           verbose := verbose s; cpoints := cpoints s;
           vpoints := Some vp; line := Some ln;
           scene := scene1 ++ [vp; ln];
           next_id := S (S (next_id s)); renders := renders s;
           printed := printed s |}
    else
      let ln := mkShape (S (next_id s)) LineObj (cpoints s) (closed s) in
      {| splined := splined s; closed := closed s; lwidth := lwidth s;
         verbose := verbose s; cpoints := cpoints s;
         vpoints := Some vp; line := Some ln;
         scene := scene1 ++ [vp; ln];
         next_id := S (S (next_id s)); renders := renders s;
         printed := printed s |}
  else
    {| splined := splined s; closed := closed s; lwidth := lwidth s;
       verbose := verbose s; cpoints := cpoints s;
       vpoints := Some vp; line := line s; scene := scene1 ++ [vp];
       next_id := S (next_id s); renders := renders s;
       printed := printed s |}.

Definition with_cpoints (l : list point) (s : plotter) : plotter :=
  {| splined := splined s; closed := closed s; lwidth := lwidth s;
     verbose := verbose s; cpoints := l; vpoints := vpoints s;
     line := line s; scene := scene s; next_id := next_id s;
     renders := renders s; printed := printed s |}.

Definition printc (m : message) (s : plotter) : plotter :=
  if verbose s then
    {| splined := splined s; closed := closed s; lwidth := lwidth s;
       verbose := verbose s; cpoints := cpoints s; vpoints := vpoints s;
       line := line s; scene := scene s; next_id := next_id s;
       renders := renders s; printed := printed s ++ [m] |}
  else s.

(** [l.pop(i)] for an index that is not negative. *)
Definition pop_at (i : nat) (l : list point) : option (list point) :=
  if (i <? List.length l)%nat then Some (firstn i l ++ skipn (S i) l)
  else None.

(** The event handed to the callbacks: the name of the actor under the
    mouse, if there is one, the picked point and the key. *)
Record event : Type := mkEvent {
  actor : option string;
  picked3d : point;
  keypress : string
}.

(** [_on_left_click(evt)]. *)
Definition _on_left_click (E : engine) (evt : event) (s : plotter)
  : exn * plotter + plotter :=
  match actor evt with
  | None => inr s
  | Some nm =>
      if String.eqb nm "points" then
        match vpoints s with
        | None => inl (AttributeError, s)
        | Some vp =>
            let pid := closest_point E (pts vp) (picked3d evt) in
            match pop_at pid (cpoints s) with
            | None => inl (IndexError, s)
            | Some l => inr (_update E (with_cpoints l s))
            end
        end
      else
        let p := picked3d evt in
        inr (printc (Added p)
               (_update E (with_cpoints (cpoints s ++ [p]) s)))
  end.

(** [_on_right_click(evt)]. *)
Definition _on_right_click (E : engine) (evt : event) (s : plotter)
  : plotter :=
  match actor evt with
  | Some _ =>
      if (0 <? List.length (cpoints s))%nat then
        printc Deleted (_update E (with_cpoints (removelast (cpoints s)) s))
      else s
  | None => s
  end.

(** [_key_press(evt)]. *)
Definition _key_press (evt : event) (s : plotter) : plotter :=
  if String.eqb (keypress evt) "c" then
    printc Cleared
      {| splined := splined s; closed := closed s; lwidth := lwidth s;
         verbose := verbose s; cpoints := [];
         vpoints := vpoints s; line := line s;
         scene := remove [line s; vpoints s] (scene s);
         next_id := next_id s; renders := S (renders s);
         printed := printed s |}
  else s.

(** [points(newpts)], the setter. *)
Definition points (E : engine) (newpts : list point) (s : plotter)
  : plotter :=
  _update E (with_cpoints newpts s).

(** What can happen to a plotter once it is built. *)
Inductive input : Type :=
| LeftClick (evt : event)
| RightClick (evt : event)
| KeyPress (evt : event)
| SetPoints (newpts : list point).

(** An exception raised inside a callback ends the callback; the plotter
    lives on in the state reached. *)
Definition handle (E : engine) (i : input) (s : plotter) : plotter :=
  match i with
  | LeftClick evt =>
      match _on_left_click E evt s with
      | inl (_, s') => s'
      | inr s' => s'
      end
  | RightClick evt => _on_right_click E evt s
  | KeyPress evt => _key_press evt s
  | SetPoints l => points E l s
  end.

Definition run (E : engine) (l : list input) (s : plotter) : plotter :=
  fold_left (fun st i => handle E i st) l s.

(** [plt.lwidth = w], as a user sets the public attribute before the
    interaction starts. *)
Definition set_lwidth (w : Z) (s : plotter) : plotter :=
  {| splined := splined s; closed := closed s; lwidth := w;
     verbose := verbose s; cpoints := cpoints s; vpoints := vpoints s;
     line := line s; scene := scene s; next_id := next_id s;
     renders := renders s; printed := printed s |}.

(** The least number of points for which a curve is drawn. *)
Definition curve_from (s : plotter) : nat := if splined s then 3%nat else 2%nat.

(** Everything of the plotter's own on the scene is its current points
    object or its current curve. *)
Definition owned (s : plotter) : Prop :=
  forall x, In x (scene s) -> vpoints s = Some x \/ line s = Some x.

(** The scene is empty, or it shows the clicked points as they are now,
    alone or with the curve through all of them. *)
Definition shows_clicked (s : plotter) : Prop :=
  scene s = [] \/
  exists vp,
    vpoints s = Some vp /\ what vp = PointsObj /\ pts vp = cpoints s /\
    ((scene s = [vp] /\
      (lwidth s = 0%Z \/ (List.length (cpoints s) < curve_from s)%nat)) \/
     exists ln,
       line s = Some ln /\ pts ln = cpoints s /\ is_closed ln = closed s /\
       what ln = (if splined s then SplineObj else LineObj) /\
       scene s = [vp; ln] /\ lwidth s <> 0%Z /\
       (curve_from s <= List.length (cpoints s))%nat).

End SplinePlotter.

(* ================================================================= *)
(** ** applications.py: IsosurfaceBrowser, the CPU branch *)

Module IsosurfaceBrowser.
Local Open Scope Q_scope.

(** A surface as the browser makes it: [volume.isosurface(value)], or
    [volume.legosurface(vmin=value)], colour-mapped when it has cells. *)
Inductive mesh : Type :=
| Isosurface (value : Q)
| Legosurface (vmin : Q) (mapped : bool).

(** Library calls whose result the source only passes on:
    [precision(value, 2)], the name under which a surface is cached, and
    the number of cells of a lego surface. *)
Record engine : Type := mkEngine {
  precision : Q -> string;
  lego_ncells : Q -> nat
}.

Inductive call : Type :=
| RemoveActor (a : option mesh)
| AddActor (m : mesh)
| AddScalarbar (m : mesh)
| AddSlider (xmin xmax value : Q) (title : string) (delayed : bool).

(** The attribute [_prev_value], the first entry of [self.actors] and the
    variables of [__init__] that the slider callback closes over;
    [computed] lists the values for which a surface has been computed,
    [renderer] the calls made to the renderer and the plotter. *)
Record browser : Type := mkBrowser {
  _prev_value : Q;
  scrange : Q * Q;
  delta : Q;
  lego : bool;
  allowed_vals : list Q;
  bacts : list (string * mesh);
  actors0 : option mesh;
  computed : list Q;
  renderer : list call
}.

Inductive exn : Type := ValueError | AttributeError.

(** [np.linspace(start, stop, num=num)] in exact arithmetic. *)
Definition linspace (start stop : Q) (num : Z) : option (list Q) :=
  if (num <? 0)%Z then None
  else if (num =? 1)%Z then Some [start]
  else
    Some (map (fun i => start + inject_Z (Z.of_nat i)
                                * ((stop - start) / inject_Z (num - 1)))
              (seq 0 (Z.to_nat num))).

(** The surface for [value]. *)
Definition make_mesh (E : engine) (lego0 : bool) (value : Q) : mesh :=
  if lego0 then Legosurface value (0 <? lego_ncells E value)%nat
  else Isosurface value.

(** [name in bacts] and [bacts[name]]. *)
Fixpoint lookup (name : string) (d : list (string * mesh)) : option mesh :=
  match d with
  | [] => None
  | (k, m) :: rest => if String.eqb k name then Some m else lookup name rest
  end.

(** [bacts.update({name: m})]. *)
Fixpoint update (name : string) (m : mesh) (d : list (string * mesh))
  : list (string * mesh) :=
  match d with
  | [] => [(name, m)]
  | (k, m0) :: rest =>
      if String.eqb k name then (k, m) :: rest
      else (k, m0) :: update name m rest
  end.

(** [a.argmin()]: the index of the first least entry. *)
Fixpoint argmin_from (best : Q) (besti i : nat) (l : list Q) : nat :=
  match l with
  | [] => besti
  | x :: rest =>
      if Py.Qltb x best then argmin_from x i (S i) rest
      else argmin_from best besti (S i) rest
  end.

Definition argmin (l : list Q) : option nat :=
  match l with
  | [] => None
  | x :: rest => Some (argmin_from x 0 1 rest)
  end.

(** The allowed value closest to [value]:
    [allowed_vals[(np.abs(allowed_vals - value)).argmin()]]. *)
Definition snap (allowed : list Q) (value : Q) : option Q :=
  match argmin (map (fun a => Qabs (a - value)) allowed) with
  | Some idx => nth_error allowed idx
  | None => None
  end.

(** The first argument of the callback: a Python float or integer (the
    call from [__init__]), or the slider with its value. *)
Inductive widget : Type :=
| PyFloat (v : Q)
| PyInt (v : Z)
| Slider (v : Q).

(** [slider_isovalue(widget, event)]. *)
Definition slider_isovalue (E : engine) (w : widget) (s : browser)
  : exn * browser + browser :=
  let prevact := actors0 s in
  match match w with
        | PyFloat v => Some v
        | Slider v => Some v
        | PyInt _ => None
        end with
  | None => inl (AttributeError, s)
  | Some value =>
      match snap (allowed_vals s) value with
      | None => inl (ValueError, s)
      | Some value =>
          if Py.Qltb (Qabs (value - _prev_value s) / delta s) (1 # 1000)
          then inr s
          else
            let value_name := precision E value in
            let '(m, cache, done) :=
              match lookup value_name (bacts s) with
              | Some m => (m, bacts s, computed s)
              | None =>
                  let m := make_mesh E (lego s) value in
                  (m, update value_name m (bacts s), computed s ++ [value])
              end in
            inr {| _prev_value := value; scrange := scrange s;
                   delta := delta s; lego := lego s;
                   allowed_vals := allowed_vals s; bacts := cache;
                   actors0 := Some m; computed := done;
                   renderer := renderer s ++ [RemoveActor prevact;
                                              AddActor m] |}
      end
  end.

(** The loop of [__init__] that fills the cache when [precompute] is
    set. *)
Definition precomputed (E : engine) (lego0 : bool) (allowed : list Q)
  : list (string * mesh) :=
  fold_left (fun d value => update (precision E value)
                                   (make_mesh E lego0 value) d)
            allowed [].

(** [IsosurfaceBrowser.__init__] when the GPU branch is not taken, from
    [self._prev_value = 1e30] on.  [None] is the plotter left without
    slider by the early [return]. *)
Definition __init__ (E : engine) (range : Q * Q) (isovalue : option widget)
    (lego0 : bool) (res : Z) (precompute delayed : bool)
  : exn + option browser :=
  let d := snd range - fst range in
  if Qeq_bool d 0 then inr None
  else
    let res := if lego0 then Py.int (inject_Z res / 2) else res in
    let slidertitle := if lego0 then EmptyString else "scalar value"%string in
    match linspace (fst range) (snd range) res with
    | None => inl ValueError
    | Some allowed =>
        let cache := if precompute then precomputed E lego0 allowed else [] in
        let delayed := if precompute then false else delayed in
        let isovalue := match isovalue with
                        | Some w => w
                        | None => PyFloat (d / 3 + fst range)
                        end in
        let s := {| _prev_value := inject_Z (10 ^ 30); scrange := range;
                    delta := d; lego := lego0; allowed_vals := allowed;
                    bacts := cache; actors0 := None;
                    computed := if precompute then allowed else [];
                    renderer := [] |} in
        match slider_isovalue E isovalue s with
        | inl (e, _) => inl e
        | inr s1 =>
            let slider :=
              AddSlider (fst range + (2 # 100) * d) (snd range - (2 # 100) * d)
                        (match isovalue with
                         | PyFloat v => v
                         | Slider v => v
                         | PyInt v => inject_Z v
                         end) slidertitle delayed in
            if lego0 then
              match actors0 s1 with
              | None => inl AttributeError
              | Some m =>
                  inr (Some
                    {| _prev_value := _prev_value s1; scrange := scrange s1;
                       delta := delta s1; lego := lego s1;
                       allowed_vals := allowed_vals s1; bacts := bacts s1;
                       actors0 := actors0 s1; computed := computed s1;
                       renderer := renderer s1 ++ [AddScalarbar m; slider] |})
              end
            else
              inr (Some
                {| _prev_value := _prev_value s1; scrange := scrange s1;
                   delta := delta s1; lego := lego s1;
                   allowed_vals := allowed_vals s1; bacts := bacts s1;
                   actors0 := actors0 s1; computed := computed s1;
                   renderer := renderer s1 ++ [slider] |})
        end
    end.

(** The callback as the slider calls it; an exception ends the callback
    and leaves the browser as it is. *)
Definition moved (E : engine) (v : Q) (s : browser) : browser :=
  match slider_isovalue E (Slider v) s with
  | inl (_, s') => s'
  | inr s' => s'
  end.

Definition run (E : engine) (vs : list Q) (s : browser) : browser :=
  fold_left (fun st v => moved E v st) vs s.

(** What a precomputed browser keeps true. *)
Definition all_cached (E : engine) (s : browser) : Prop :=
  (forall a, In a (allowed_vals s) ->
     exists m, lookup (precision E a) (bacts s) = Some m) /\
  (forall m, In (AddActor m) (renderer s) -> In m (map snd (bacts s))).

End IsosurfaceBrowser.

(* ================================================================= *)
(** ** applications.py: Clock *)

Module Clock.
Import Reals.
Local Open Scope R_scope.

(** The hands are placed with [np.cos] and [np.sin]: coordinates and
    angles are real numbers here, and the float literals [0.5], [0.75],
    [0.95], [0.001], ... are read as the fractions they denote. *)
Definition point : Type := (R * R * R)%type.

(** [time.localtime()]. *)
Record tm : Type := mkTm {
  tm_hour : Z;
  tm_min : Z;
  tm_sec : Z;
  tm_wday : Z;
  tm_mday : Z;
  tm_mon : Z;
  tm_year : Z
}.

(** How a part of the clock is made:
    [Line([0, 0], [x, y]).scale(k).mirror()], moved to height [z] when
    [.z(z)] is called on it; the face; the labels; the text. *)
Inductive build : Type :=
| Hand (x y k : R) (z : option R)
| Face
| Labels (font c : string)
| Text (txt c : string).

(** A part with its points, as [points()] reads and sets them. *)
Record part : Type := mkPart {
  built : build;
  pts : list point
}.

(** The points that the shapes library gives to a new part. *)
Record engine : Type := mkEngine {
  points_of : build -> list point
}.

Record clock : Type := mkClock {
  _start : R;
  elapsed : R;
  actors : list (option part);
  name : string
}.

Inductive exn : Type := TypeError | AttributeError | IndexError.

Definition str (k : Z) : string := NilZero.string_of_int (Z.to_int k).

(** [l[i]] on a Python list. *)
Definition getitem {A : Type} (l : list A) (i : Z) : option A :=
  let n := Z.of_nat (List.length l) in
  if ((0 <=? i) && (i <? n))%Z then nth_error l (Z.to_nat i)
  else if ((- n <=? i) && (i <? 0))%Z then nth_error l (Z.to_nat (n + i))
  else None.

Definition days : list string :=
  ["Mon"; "Tue"; "Wed"; "Thu"; "Fri"; "Sat"; "Sun"]%string.

(** The angles [alpha] and [beta] of the hour and the minute hand. *)
Definition alpha (h m : Z) : R :=
  2 * PI * (IZR (h * 60 + m) / 12 / 60) + PI / 2.

Definition beta (h m : Z) : R :=
  12 * 2 * PI * (IZR (h * 60 + m) / 12 / 60) + PI / 2.

(** The angle [gamma] of the second hand. *)
Definition gamma (s : Z) : R := IZR s * 2 * PI / 60 + PI / 2.

Definition new_part (E : engine) (b : build) : part :=
  mkPart b (points_of E b).

(** [Clock.__init__(h, m, s, font, title, c)] at the time [now], with
    [lt] what [time.localtime()] gives. *)
Definition __init__ (E : engine) (now : R) (lt : tm) (h m s : option Q)
    (font title c : string) : exn + clock :=
  let current := match h, m with None, None => true | _, _ => false end in
  match (if current && String.eqb title ""
         then match getitem days (tm_wday lt) with
              | Some d =>
                  Some (d ++ " " ++ str (tm_mday lt) ++ "/" ++ str (tm_mon lt)
                          ++ "/" ++ str (tm_year lt) ++ " ")%string
              | None => None
              end
         else Some EmptyString) with
  | None => inl IndexError
  | Some wd =>
      let h := if current then Some (inject_Z (tm_hour lt)) else h in
      let m := if current then Some (inject_Z (tm_min lt)) else m in
      let s := if current then Some (inject_Z (tm_sec lt)) else s in
      match h with
      | None => inl TypeError
      | Some h =>
          match m with
          | None => inl TypeError
          | Some m =>
              let h := (Py.int h mod 24)%Z in
              let m := (Py.int m mod 60)%Z in
              let ore :=
                new_part E (Hand (cos (alpha h m)) (sin (alpha h m)) (1 / 2)
                                 None) in
              let minu :=
                new_part E (Hand (cos (beta h m)) (sin (beta h m)) (3 / 4)
                                 (Some (2 / 1000))) in
              let secs :=
                match s with
                | None => None
                | Some s =>
                    let s := (Py.int s mod 60)%Z in
                    Some (new_part E (Hand (cos (gamma s)) (sin (gamma s))
                                           (95 / 100) (Some (3 / 1000))))
                end in
              let back1 := new_part E Face in
              let labels := new_part E (Labels font c) in
              let txt := new_part E (Text (wd ++ title) c) in
              inr {| _start := now; elapsed := 0;
                     actors := [Some back1; Some labels; Some ore; Some minu;
                                secs; Some txt];
                     name := "Clock" |}
          end
      end
  end.

(** [pts = parts[i].points(); pts[1] = p; parts[i].points(pts)]. *)
Definition set_tip (i : nat) (p : point) (parts : list (option part))
  : exn + list (option part) :=
  match nth_error parts i with
  | None => inl IndexError
  | Some None => inl AttributeError
  | Some (Some a) =>
      match pts a with
      | p0 :: _ :: rest =>
          inr (firstn i parts
               ++ Some (mkPart (built a) (p0 :: p :: rest))
               :: skipn (S i) parts)
      | _ => inl IndexError
      end
  end.

Definition with_parts (now : R) (parts : list (option part)) (c : clock)
  : clock :=
  {| _start := _start c; elapsed := now - _start c; actors := parts;
     name := name c |}.

(** [update(h, m, s)] at the time [now].  The result is [inl] with the
    exception and the clock as it is left when the call raises. *)
Definition update (now : R) (lt : tm) (h m s : option Q) (c : clock)
  : exn * clock + clock :=
  let parts := actors c in
  let current := match h, m with None, None => true | _, _ => false end in
  let h := if current then Some (inject_Z (tm_hour lt)) else h in
  let m := if current then Some (inject_Z (tm_min lt)) else m in
  let s := if current then Some (inject_Z (tm_sec lt)) else s in
  match h with
  | None => inl (TypeError, with_parts now parts c)
  | Some h =>
      match m with
      | None => inl (TypeError, with_parts now parts c)
      | Some m =>
          let h := (Py.int h mod 24)%Z in
          let m := (Py.int m mod 60)%Z in
          match set_tip 2 (- cos (alpha h m) * (1 / 2),
                           sin (alpha h m) * (1 / 2), 1 / 1000) parts with
          | inl e => inl (e, with_parts now parts c)
          | inr parts2 =>
              match set_tip 3 (- cos (beta h m) * (3 / 4),
                               sin (beta h m) * (3 / 4), 2 / 1000) parts2 with
              | inl e => inl (e, with_parts now parts2 c)
              | inr parts3 =>
                  match s with
                  | None => inr (with_parts now parts3 c)
                  | Some s =>
                      let s := (Py.int s mod 60)%Z in
                      match set_tip 4 (- cos (gamma s) * (95 / 100),
                                       sin (gamma s) * (95 / 100), 3 / 1000)
                                    parts3 with
                      | inl e => inl (e, with_parts now parts3 c)
                      | inr parts4 => inr (with_parts now parts4 c)
                      end
                  end
              end
          end
      end
  end.

(** The end of the hand at index [i] of the parts. *)
Definition tip (c : clock) (i : nat) : option point :=
  match nth_error (actors c) i with
  | Some (Some a) => nth_error (pts a) 1
  | _ => None
  end.

(** Where the hand of a clock face points after the fraction [turn] of a
    full turn, clockwise from twelve, for a hand of length [len] at
    height [z]. *)
Definition on_face (len turn z : R) : point :=
  (len * sin (2 * PI * turn), len * cos (2 * PI * turn), z).

End Clock.

(* ################################################################# *)
(** * Part II: the theorems *)

(* ================================================================= *)
(** ** Python built-ins *)

Module PyFacts.
Local Open Scope Q_scope.

Lemma Qltb_spec (x y : Q) : reflect (x < y) (Py.Qltb x y).
Proof.
  unfold Py.Qltb. destruct (Qle_bool y x) eqn:E; simpl; constructor.
  - apply Qle_bool_iff in E. apply Qle_not_lt; auto.
  - apply Qnot_le_lt. intros H. apply Qle_bool_iff in H. congruence.
Qed.

Lemma min_le_l (a b : Q) : Py.min a b <= a.
Proof. unfold Py.min. destruct (Qltb_spec b a); lra. Qed.

Lemma min_le_r (a b : Q) : Py.min a b <= b.
Proof. unfold Py.min. destruct (Qltb_spec b a); lra. Qed.

Lemma max_ge_l (a b : Q) : a <= Py.max a b.
Proof. unfold Py.max. destruct (Qltb_spec a b); lra. Qed.

Lemma max_ge_r (a b : Q) : b <= Py.max a b.
Proof. unfold Py.max. destruct (Qltb_spec a b); lra. Qed.

Lemma max_mono_r (a b c : Q) : b <= c -> Py.max a b <= Py.max a c.
Proof.
  intros H. unfold Py.max.
  destruct (Qltb_spec a b), (Qltb_spec a c); lra.
Qed.

Lemma min_idle (a b : Q) : a <= b -> Py.min a b = a.
Proof. intros H. unfold Py.min. destruct (Qltb_spec b a); [lra | reflexivity]. Qed.

End PyFacts.

(* ================================================================= *)
(** ** Slicer3DPlotter *)

Module Slicer3DPlotterFacts.
Import Slicer3DPlotter.
Local Open Scope Q_scope.

(** With clamping on, the range shown is [clamp_range] at the log-weighted
    mean of the histogram; with clamping off it is the scalar range. *)
Lemma display_range_clamp (np : numpy) (data : list Q) (rmin rmax : Q) :
  display_range np true data (rmin, rmax) =
    clamp_range rmin rmax (meanlog np data) /\
  display_range np false data (rmin, rmax) = (rmin, rmax).
Proof. split; reflexivity. Qed.

(** C1, as the code has it.  The display maximum is
    [min(rawmax, meanlog + (meanlog - rawmin) * 0.9)]; the display minimum
    is [max(rawmin, meanlog - (dmax - meanlog) * 0.9)] where [dmax] is that
    display maximum, already clamped.  It is never below the value that the
    raw maximum would give, and equals it whenever the maximum was not
    lowered. *)
Theorem clamp_range_uses_clamped_max (rawmin rawmax mean : Q) :
  let dmin := fst (clamp_range rawmin rawmax mean) in
  let dmax := snd (clamp_range rawmin rawmax mean) in
  dmax = Py.min rawmax (mean + (mean - rawmin) * 0.9) /\
  dmin = Py.max rawmin (mean - (dmax - mean) * 0.9) /\
  spec_display_min rawmin rawmax mean <= dmin /\
  (rawmax <= mean + (mean - rawmin) * 0.9 ->
     dmin = spec_display_min rawmin rawmax mean).
Proof.
  cbv zeta. unfold clamp_range, spec_display_min; simpl.
  split; [reflexivity|]. split; [reflexivity|]. split.
  - apply PyFacts.max_mono_r.
    pose proof (PyFacts.min_le_l rawmax (mean + (mean - rawmin) * 0.9)).
    lra.
  - intros H. rewrite (PyFacts.min_idle _ _ H). reflexivity.
Qed.

(** C1, as stated, fails: for a field with raw range [0, 100] and
    log-weighted mean [10] the display maximum is [19] and the code sets the
    display minimum to [1.9], where the formula over the raw maximum gives
    [0]. *)
Lemma clamp_range_not_from_raw_max :
  snd (clamp_range 0 100 10) == 19 /\
  fst (clamp_range 0 100 10) == 19 # 10 /\
  spec_display_min 0 100 10 == 0 /\
  ~ fst (clamp_range 0 100 10) == spec_display_min 0 100 10.
Proof.
  repeat split; try reflexivity.
  vm_compute. discriminate.
Qed.

End Slicer3DPlotterFacts.

(* ================================================================= *)
(** ** AnimationPlayer *)

Module AnimationPlayerFacts.
Import AnimationPlayer.
Local Open Scope Z_scope.

Lemma pause_paused (s : player) : paused (pause s).
Proof. unfold paused, pause; destruct (timer_id s); simpl; auto. Qed.

Lemma pause_frame (s : player) :
  value (pause s) = value s /\ min_value (pause s) = min_value s /\
  max_value (pause s) = max_value s /\ loop (pause s) = loop s /\
  func_calls (pause s) = func_calls s.
Proof. unfold pause; destruct (timer_id s); simpl; auto. Qed.

Lemma resume_frame (s : player) :
  value (resume s) = value s /\ min_value (resume s) = min_value s /\
  max_value (resume s) = max_value s /\ loop (resume s) = loop s /\
  func_calls (resume s) = func_calls s.
Proof. unfold resume; destruct (timer_id s); simpl; auto. Qed.

(** The frame that [set_frame] settles on is the frame it stores. *)
Lemma set_frame_stores (v : Z) (s : player) :
  value (set_frame v s) = snd (resolve_frame v s).
Proof.
  unfold set_frame.
  destruct (resolve_frame v s) as [s1 v1]; simpl.
  destruct (value s1 =? v1) eqn:E; simpl; [apply Z.eqb_eq in E|]; auto.
Qed.

Lemma resolve_frame_keeps (v : Z) (s : player) :
  let s1 := fst (resolve_frame v s) in
  value s1 = value s /\ min_value s1 = min_value s /\
  max_value s1 = max_value s /\ loop s1 = loop s /\
  func_calls s1 = func_calls s.
Proof.
  pose proof (pause_frame s) as P.
  unfold resolve_frame.
  destruct (loop s) eqn:L, (v <? min_value s); simpl;
    try destruct (v >=? max_value s); try destruct (v >=? max_value s - 1);
    simpl; intuition congruence.
Qed.

Lemma set_frame_keeps (v : Z) (s : player) :
  min_value (set_frame v s) = min_value s /\
  max_value (set_frame v s) = max_value s /\
  loop (set_frame v s) = loop s.
Proof.
  pose proof (resolve_frame_keeps v s) as K.
  unfold set_frame.
  destruct (resolve_frame v s) as [s1 v1]; simpl in *.
  destruct (negb (value s1 =? v1)); simpl; tauto.
Qed.

(** The update function is called with the stored frame exactly when that
    frame is new. *)
Lemma set_frame_calls (v : Z) (s : player) :
  func_calls (set_frame v s) =
  if value (set_frame v s) =? value s
  then func_calls s
  else func_calls s ++ [value (set_frame v s)].
Proof.
  pose proof (resolve_frame_keeps v s) as K.
  unfold set_frame.
  destruct (resolve_frame v s) as [s1 v1]; simpl in *.
  destruct K as (Kv & _ & _ & _ & Kc).
  destruct (value s1 =? v1) eqn:E; simpl.
  - rewrite Kv, Z.eqb_refl; auto.
  - rewrite <- Kv, Z.eqb_sym, E, Kc; auto.
Qed.

Lemma set_frame_pauses (v : Z) (s : player) :
  loop s = false -> (v < min_value s \/ max_value s - 1 <= v) ->
  paused (set_frame v s).
Proof.
  intros L H.
  assert (P : paused (fst (resolve_frame v s))).
  { unfold resolve_frame; rewrite L.
    destruct (Z.ltb_spec v (min_value s)); simpl; [apply pause_paused|].
    destruct (Z.geb_spec v (max_value s - 1)); simpl; [apply pause_paused|].
    lia. }
  unfold set_frame.
  destruct (resolve_frame v s) as [s1 v1]; simpl in *.
  destruct (negb (value s1 =? v1)); auto.
Qed.

(** C4.  For a player whose range is not empty, [set_frame(v)] in looping
    mode wraps a frame below [min_value] to [max_value - 1] and a frame at or
    above [max_value] to [min_value], takes any other frame as it is and
    leaves the timer and the button alone; in non-looping mode it pauses
    (the timer of the player is destroyed, the button offers to play) and
    clamps a frame below [min_value] to [min_value] and a frame at or above
    [max_value - 1] to [max_value - 1], and takes any other frame as it is
    without pausing.  The frame settled on is stored, and the user's update
    function is called with it, and the slider moved to it, if and only if
    it differs from the frame stored before the call. *)
Theorem set_frame_wrap_clamp_update (s : player) (v : Z) :
  min_value s < max_value s ->
  let s' := set_frame v s in
  let stopped :=
    match timer_id s with
    | Some id => List.remove Nat.eq_dec id (timers s)
    | None => timers s
    end in
  let untouched :=
    is_playing s' = is_playing s /\ timer_id s' = timer_id s /\
    timers s' = timers s /\ button_status s' = button_status s in
  (loop s = true -> v < min_value s -> value s' = max_value s - 1) /\
  (loop s = true -> max_value s <= v -> value s' = min_value s) /\
  (loop s = true -> min_value s <= v < max_value s -> value s' = v) /\
  (loop s = true -> untouched) /\
  (loop s = false -> v < min_value s ->
     value s' = min_value s /\ paused s' /\ timers s' = stopped) /\
  (loop s = false -> max_value s - 1 <= v ->
     value s' = max_value s - 1 /\ paused s' /\ timers s' = stopped) /\
  (loop s = false -> min_value s <= v < max_value s - 1 ->
     value s' = v /\ untouched) /\
  (value s' <> value s ->
     func_calls s' = func_calls s ++ [value s'] /\
     slider_value s' = value s') /\
  (value s' = value s ->
     func_calls s' = func_calls s /\ slider_value s' = slider_value s) /\
  min_value s' = min_value s /\ max_value s' = max_value s /\
  loop s' = loop s.
Proof.
  intros R; cbv zeta.
  assert (P : paused (pause s) /\
              timers (pause s)
              = match timer_id s with
                | Some id => List.remove Nat.eq_dec id (timers s)
                | None => timers s
                end /\
              value (pause s) = value s /\
              slider_value (pause s) = slider_value s /\
              func_calls (pause s) = func_calls s /\
              min_value (pause s) = min_value s /\
              max_value (pause s) = max_value s /\ loop (pause s) = loop s).
  { unfold paused, pause. destruct (timer_id s); simpl; repeat split. }
  destruct P as ((P1 & P2 & P3) & Pt & Pv & Ps & Pc & Pn & Px & Pl).
  unfold set_frame, resolve_frame.
  destruct (loop s) eqn:L.
  - destruct (Z.ltb_spec v (min_value s)) as [A|A];
      [|destruct (Z.geb_spec v (max_value s)) as [B|B]];
      cbv beta iota;
      match goal with |- context [negb (value s =? ?r)] =>
        destruct (Z.eqb_spec (value s) r) as [E|E] end;
      cbn [negb];
      cbn [value min_value max_value loop is_playing timer_id button_status
           slider_value func_calls timers call_func set_slider set_value];
      rewrite ?L;
      repeat split; intros; try lia; try discriminate; try reflexivity;
      try congruence.
  - destruct (Z.ltb_spec v (min_value s)) as [A|A];
      [|destruct (Z.geb_spec v (max_value s - 1)) as [B|B]];
      cbv beta iota;
      match goal with |- context [negb (value ?s1 =? ?r)] =>
        destruct (Z.eqb_spec (value s1) r) as [E|E] end;
      cbn [negb];
      cbn [value min_value max_value loop is_playing timer_id button_status
           slider_value func_calls timers call_func set_slider set_value];
      rewrite ?L, ?Pv in *; rewrite ?Ps, ?Pc, ?Pn, ?Px, ?Pl;
      repeat split; intros; try lia; try discriminate; try reflexivity;
      try congruence; try assumption;
      try (unfold paused;
           cbn [value min_value max_value loop is_playing timer_id
                button_status slider_value func_calls timers call_func
                set_slider set_value];
           repeat split; assumption).
Qed.

Lemma set_frame_wrap_clamp_update_witness :
  let s := init (0, 5) 1%Q true in
  min_value s < max_value s /\
  value (set_frame (-1) s) = 4 /\ value (set_frame 5 s) = 0 /\
  value (set_frame 3 s) = 3.
Proof.
  cbv zeta.
  split; [reflexivity|].
  pose proof (@set_frame_wrap_clamp_update (init (0, 5) 1%Q true) (-1)
                ltac:(reflexivity)) as L.
  pose proof (@set_frame_wrap_clamp_update (init (0, 5) 1%Q true) 5
                ltac:(reflexivity)) as U.
  pose proof (@set_frame_wrap_clamp_update (init (0, 5) 1%Q true) 3
                ltac:(reflexivity)) as M.
  cbv zeta in L, U, M.
  destruct L as (L & _), U as (_ & U & _), M as (_ & _ & M & _).
  split; [apply L | split; [apply U | apply M]]; simpl;
    first [reflexivity | lia].
Defined.

(** [set_frame] leaves the stored frame inside the range. *)
Lemma set_frame_in_range (v : Z) (s : player) :
  min_value s < max_value s ->
  min_value s <= value (set_frame v s) <= max_value s - 1.
Proof.
  intros R. rewrite set_frame_stores. unfold resolve_frame.
  destruct (loop s).
  - destruct (Z.ltb_spec v (min_value s)); simpl; [lia|].
    destruct (Z.geb_spec v (max_value s)); simpl; lia.
  - destruct (Z.ltb_spec v (min_value s)); simpl; [lia|].
    destruct (Z.geb_spec v (max_value s - 1)); simpl; lia.
Qed.

Lemma handle_keeps (e : event) (s : player) :
  min_value (handle e s) = min_value s /\ max_value (handle e s) = max_value s.
Proof.
  pose proof (pause_frame s) as (_ & P1 & P2 & _).
  pose proof (resume_frame s) as (_ & Q1 & Q2 & _).
  destruct e as [[]|[]|[]| w | | v];
    unfold handle, toggle, oneforward, onebackward, _slider_callback,
           _handle_timer; cbv zeta; auto.
  - destruct (negb (is_playing s)); auto.
  - destruct (set_frame_keeps (value (pause s) + 1) (pause s)) as (A & B & _).
    rewrite A, B; auto.
  - destruct (set_frame_keeps (value (pause s) - 1) (pause s)) as (A & B & _).
    rewrite A, B; auto.
  - destruct (set_frame_keeps w (pause s)) as (A & B & _).
    rewrite A, B; auto.
  - destruct (set_frame_keeps (value s + 1) s) as (A & B & _); auto.
  - destruct (set_frame_keeps v s) as (A & B & _); auto.
Qed.

Lemma run_keeps (es : list event) (s : player) :
  min_value (run es s) = min_value s /\ max_value (run es s) = max_value s.
Proof.
  revert s; induction es as [|e es IH]; intros s; simpl; auto.
  destruct (IH (handle e s)) as [A B], (handle_keeps e s) as [C D].
  unfold run in *. split; congruence.
Qed.

(** C10.  A player built over a non-empty range starts with its frame at
    [min_value - 1], so that the first timer tick and [set_frame(min_value)]
    both call the update function (with [min_value]); and whatever the user
    did to the player before, the frame stored after any call to [set_frame]
    lies in the closed range from [min_value] to [max_value - 1]. *)
Theorem frame_starts_below_and_stays_in_range
    (mn mx : Z) (dt0 : Q) (lp : bool) :
  mn < mx ->
  let s0 := init (mn, mx) dt0 lp in
  value s0 = mn - 1 /\
  func_calls (_handle_timer s0) = [mn] /\
  func_calls (set_frame mn s0) = [mn] /\
  (forall (es : list event) (v : Z),
     mn <= value (set_frame v (run es s0)) <= mx - 1) /\
  (forall (s : player) (v : Z),
     min_value s < max_value s ->
     min_value s <= value (set_frame v s) <= max_value s - 1).
Proof.
  intros R; cbv zeta.
  assert (F : forall s, value s = mn - 1 -> min_value s = mn ->
                max_value s = mx -> func_calls s = [] ->
                func_calls (set_frame mn s) = [mn]).
  { intros s V Mn Mx C.
    pose proof (set_frame_in_range mn s ltac:(lia)) as I.
    rewrite set_frame_calls.
    destruct (Z.eqb_spec (value (set_frame mn s)) (value s)) as [E|E]; [lia|].
    rewrite C; simpl. f_equal.
    rewrite set_frame_stores in *. unfold resolve_frame in *.
    destruct (loop s).
    - destruct (Z.ltb_spec mn (min_value s)); simpl in *; [lia|].
      destruct (Z.geb_spec mn (max_value s)); simpl in *; lia.
    - destruct (Z.ltb_spec mn (min_value s)); simpl in *; [lia|].
      destruct (Z.geb_spec mn (max_value s - 1)); simpl in *; lia. }
  split; [reflexivity|].
  split. { unfold _handle_timer; simpl.
           replace (mn - 1 + 1) with mn by lia. apply F; reflexivity. }
  split. { apply F; reflexivity. }
  split.
  - intros es v.
    set (s0 := init (mn, mx) dt0 lp).
    destruct (run_keeps es s0) as [A B].
    pose proof (set_frame_in_range v (run es s0)) as I.
    rewrite A, B in I. apply I; subst s0; simpl; lia.
  - intros s v; apply set_frame_in_range.
Qed.

Lemma frame_starts_below_and_stays_in_range_witness :
  0 < 5 /\
  value (init (0, 5) 1%Q false) = -1 /\
  func_calls (_handle_timer (init (0, 5) 1%Q false)) = [0].
Proof.
  split; [reflexivity|].
  pose proof (@frame_starts_below_and_stays_in_range 0 5 1%Q false
                ltac:(reflexivity)) as H.
  cbv zeta in H. destruct H as (A & B & _).
  split; [exact A | exact B].
Defined.

End AnimationPlayerFacts.

(* ================================================================= *)
(** ** Animation *)

Module AnimationFacts.
Import Animation.
Local Open Scope Q_scope.

(** On a float that is not negative, [int] is the floor. *)
Lemma int_floor (x : Q) : 0 <= x -> Py.int x = Qfloor x.
Proof.
  destruct x as [n d]; unfold Qle, Py.int, Qfloor; simpl; intros H.
  apply Z.quot_div_nonneg; lia.
Qed.

Lemma int_half_up (x : Q) : 0 <= x -> Py.int (x + 0.5) = round_half_up x.
Proof.
  intros H. rewrite int_floor by lra.
  unfold round_half_up. apply Qfloor_comp. lra.
Qed.

Lemma round_half_up_nonneg (x : Q) : 0 <= x -> (0 <= round_half_up x)%Z.
Proof.
  intros H. unfold round_half_up.
  change 0%Z with (Qfloor 0). apply Qfloor_resp_le. lra.
Qed.

Lemma quotient_nonneg (t res : Q) : 0 < res -> 0 <= t -> 0 <= t / res.
Proof.
  intros R T. apply Qle_shift_div_l; auto. lra.
Qed.

(** A float that lies between an integer and its successor is cut to
    that integer. *)
Lemma floor_between (y : Q) (k : Z) :
  inject_Z k <= y -> y < inject_Z k + 1 -> Qfloor y = k.
Proof.
  intros L U.
  pose proof (Qfloor_le y) as F. pose proof (Qlt_floor y) as G.
  rewrite inject_Z_plus in G. change (inject_Z 1) with 1 in G.
  assert (A : (k < Qfloor y + 1)%Z).
  { rewrite Zlt_Qlt, inject_Z_plus. change (inject_Z 1) with 1. lra. }
  assert (B : (Qfloor y < k + 1)%Z).
  { rewrite Zlt_Qlt, inject_Z_plus. change (inject_Z 1) with 1. lra. }
  lia.
Qed.

(** [int(x + 0.5)] is the integer [k >= 0] that [x] lies next to.  The
    margin of [0.499] keeps [x + 0.5] away from the integers on both
    sides, where the rounding of the floating-point quotient would
    decide. *)
Lemma int_near (x : Q) (k : Z) :
  (0 <= k)%Z -> inject_Z k - 0.499 <= x <= inject_Z k + 0.499 ->
  Py.int (x + 0.5) = k.
Proof.
  intros K [L U].
  assert (N : 0 <= inject_Z k).
  { change 0 with (inject_Z 0). rewrite <- Zle_Qle. exact K. }
  rewrite int_floor by lra. apply floor_between; lra.
Qed.

(** Appending to the log or to the events does not touch the rest. *)
Lemma parse_events (objs : objs_arg) (t d : option Q) (s : animation) :
  events (final_state (_parse objs t d s)) = events s.
Proof.
  unfold _parse, bind, get, linspace, remember, logger_error, raise, ret.
  destruct objs as [|a|l]; simpl.
  - destruct (_lastActs s) as [[|a l]|]; simpl; auto.
    destruct (Qeq_bool (time_resolution s) 0); simpl; auto.
    repeat match goal with
           | |- context [if ?b then _ else _] => destruct b; simpl; auto
           end.
  - destruct (Qeq_bool (time_resolution s) 0); simpl; auto.
    repeat match goal with
           | |- context [if ?b then _ else _] => destruct b; simpl; auto
           end.
  - destruct (Qeq_bool (time_resolution s) 0); simpl; auto.
    repeat match goal with
           | |- context [if ?b then _ else _] => destruct b; simpl; auto
           end.
Qed.

(** C5 fails on a negative start time: [int] truncates toward zero, so
    with a resolution of [0.02] the start time [-0.013] is stored as [0],
    while the nearest multiple, which half-up rounding gives, is [-0.02].
    The quotient [-0.65] is far from a tie, so floating-point rounding
    plays no part in this. *)
Theorem parse_negative_start_truncates :
  exists t' d',
    parsed_times (_parse (OneObj (fresh_mesh 1)) (Some (-0.013)) (Some 0)
                         (init 0.02)) = Some (t', d') /\
    t' == 0 /\
    inject_Z (round_half_up (-0.013 / 0.02)) * 0.02 == -0.02.
Proof.
  do 2 eexists. split; [vm_compute; reflexivity|].
  split; vm_compute; reflexivity.
Qed.

(** Booking loops over an empty list of actors read no parameter. *)
Lemma for_each_events_append (rng : list Q) (f : Q -> event) (s : animation) :
  exists s',
    for_each rng (fun tt => events_append (f tt)) s = Return tt s' /\
    events s' = events s ++ map f rng /\ errors s' = errors s.
Proof.
  revert s; induction rng as [|tt rng IH]; intros s; simpl.
  - exists s. rewrite app_nil_r. auto.
  - unfold bind at 1. unfold events_append at 1.
    match goal with |- context [for_each rng _ ?s1] =>
      destruct (IH s1) as (s' & E & Ev & Er) end.
    exists s'. rewrite E. simpl in Ev, Er. rewrite Ev, Er, <- app_assoc. auto.
Qed.

(** An unknown style with at least one actor and one time step: the error
    is logged, then the first read of [pars] raises; no event was appended
    before. *)
Lemma unknown_style_raises (style : string) (objs : objs_arg)
    (t d : option Q) (s s1 : animation) (a : actor) (acts : list actor)
    (t' d' tt : Q) (rng : list Q) :
  bookingMode s = true ->
  lighting_pars style = None ->
  _parse objs t d s = Return (a :: acts, t', d', tt :: rng) s1 ->
  exists s',
    change_lighting style objs t d s = Raised Py.UnboundLocalError s' /\
    events s' = events s /\
    errors s' = errors s1 ++ [("Unknown lighting style " ++ style)%string].
Proof.
  intros B U P.
  pose proof (parse_events objs t d s) as Ev. rewrite P in Ev; simpl in Ev.
  unfold change_lighting, get. unfold bind at 1. rewrite B.
  unfold bind at 1. rewrite P. rewrite U.
  unfold bind at 1. unfold logger_error at 1.
  eexists. split; [reflexivity|]. simpl. auto.
Qed.

(** An unknown style with no actor: the error is logged and one event per
    time step is booked all the same. *)
Lemma unknown_style_books (style : string) (objs : objs_arg)
    (t d : option Q) (s s1 : animation) (t' d' : Q) (rng : list Q) :
  bookingMode s = true ->
  lighting_pars style = None ->
  _parse objs t d s = Return ([], t', d', rng) s1 ->
  exists s',
    change_lighting style objs t d s = Return tt s' /\
    events s' =
      events s ++ map (fun tt => (tt, Change_lighting, [], Lighting [])) rng.
Proof.
  intros B U P.
  pose proof (parse_events objs t d s) as Ev. rewrite P in Ev; simpl in Ev.
  unfold change_lighting, get. unfold bind at 1. rewrite B.
  unfold bind at 1. rewrite P. rewrite U.
  unfold bind at 1. unfold logger_error at 1.
  match goal with |- context [for_each rng _ ?s2] =>
    destruct (for_each_events_append rng
                (fun tt => (tt, Change_lighting, [], Lighting [])) s2)
      as (s' & E & Es & _) end.
  exists s'. split.
  - rewrite <- E. reflexivity.
  - rewrite Es. simpl. rewrite Ev. reflexivity.
Qed.

(** C2, on the code: [change_lighting("matte", mesh, t=0, duration=0)]
    during booking logs the error and then raises [UnboundLocalError]
    (nothing is booked, but the call does not return); with an empty list
    of actors and a duration of two steps the same call returns and books
    three events. *)
Theorem change_lighting_unknown_style_escapes :
  (exists s',
     change_lighting "matte" (OneObj (fresh_mesh 1)) (Some 0) (Some 0)
                     (init 0.02) = Raised Py.UnboundLocalError s' /\
     events s' = [] /\
     errors s' = ["Unknown lighting style matte"%string]) /\
  (exists s',
     change_lighting "matte" (ObjSeq []) (Some 0) (Some 0.04) (init 0.02)
       = Return tt s' /\
     List.length (events s') = 3%nat /\
     errors s' = ["Unknown lighting style matte"%string]).
Proof.
  split; eexists; (split; [vm_compute; reflexivity|]); split; reflexivity.
Qed.

End AnimationFacts.

(* ================================================================= *)
(** ** Python strings, [os.path] and the [s] key of FreeHandCutPlotter *)

Module PyStrFacts.
Import PyStr.
Local Open Scope string_scope.

Lemma take_app (s t : string) : take (String.length s) (s ++ t) = s.
Proof. induction s as [|c s IH]; simpl; [destruct t|rewrite IH]; reflexivity. Qed.

Lemma drop_app (s t : string) : drop (String.length s) (s ++ t) = t.
Proof. induction s as [|c s IH]; simpl; [destruct t|]; auto. Qed.

Lemma app_assoc (a b c : string) : (a ++ b) ++ c = a ++ (b ++ c).
Proof. induction a as [|x a IH]; simpl; [|rewrite IH]; reflexivity. Qed.

Lemma app_empty_r (a : string) : a ++ "" = a.
Proof. induction a as [|x a IH]; simpl; [|rewrite IH]; reflexivity. Qed.

(** A one-character string occurs in [s] exactly when [rfind] finds it. *)
Lemma rfind_contains (c : ascii) (s : string) :
  rfind c s = None <-> contains (String c "") s = false.
Proof.
  induction s as [|a s IH]; simpl; [tauto|].
  destruct (ascii_dec c a) as [E|N].
  - subst a. rewrite Ascii.eqb_refl.
    assert (String.prefix "" s = true) as -> by (destruct s; reflexivity).
    simpl. destruct (rfind c s); split; discriminate.
  - simpl. rewrite <- IH.
    assert ((a =? c)%char = false) as ->
      by (apply Ascii.eqb_neq; congruence).
    destruct (rfind c s); split; congruence.
Qed.

Lemma rfind_app_none (c : ascii) (s t : string) :
  rfind c s = None -> rfind c t = None -> rfind c (s ++ t) = None.
Proof.
  induction s as [|a s IH]; simpl; auto.
  intros H T. destruct (rfind c s); [discriminate|].
  rewrite (IH eq_refl T). assumption.
Qed.

(** The last occurrence of [c] in [s ++ c ++ e] when [e] has none. *)
Lemma rfind_app_last (c : ascii) (s e : string) :
  rfind c e = None -> rfind c (s ++ String c e) = Some (String.length s).
Proof.
  intros E. induction s as [|a s IH]; simpl.
  - rewrite E, Ascii.eqb_refl. reflexivity.
  - rewrite IH. reflexivity.
Qed.

Lemma contains_cons (sub : string) (a : ascii) (s : string) :
  contains sub (String a s) = false ->
  String.prefix sub (String a s) = false /\ contains sub s = false.
Proof. simpl. intros H. apply orb_false_iff in H. exact H. Qed.

(** Characters inside a matched occurrence are passed without a look. *)
Lemma replace_from_skip (old new a s : string) :
  replace_from old new (a ++ s) (String.length a) = replace_from old new s 0.
Proof. induction a as [|c a IH]; simpl; auto. Qed.

(** Without an occurrence of [old], [replace] changes nothing. *)
Lemma replace_absent (old new s : string) :
  contains old s = false -> replace old new s = s.
Proof.
  unfold replace. induction s as [|c s IH]; intros H; [reflexivity|].
  apply contains_cons in H. destruct H as [P C].
  cbn [replace_from]. rewrite P, (IH C). reflexivity.
Qed.

(** No occurrence of the tag can start inside [x] and end inside a tag
    appended to [x]: the tag has its only underscore in front. *)
Lemma tag_no_straddle (c : ascii) (x : string) :
  String.prefix "_edited" (String c x) = false ->
  String.prefix "_edited" (String c x ++ "_edited") = false.
Proof.
  cbn [String.prefix append].
  destruct (ascii_dec "_" c); [|reflexivity].
  repeat (destruct x as [|? x]; cbn [String.prefix append];
          [intros _; reflexivity|];
          match goal with
          | |- context [ascii_dec ?a ?b] => destruct (ascii_dec a b); [|reflexivity]
          end).
  destruct x; discriminate.
Qed.

(** A tag that ends a stem otherwise free of it is the one removed. *)
Lemma replace_tag_suffix (base : string) :
  contains "_edited" base = false ->
  replace "_edited" "" (base ++ "_edited") = base.
Proof.
  unfold replace. induction base as [|c b IH]; intros H; [reflexivity|].
  apply contains_cons in H. destruct H as [P C].
  pose proof (tag_no_straddle c b P) as S.
  change (String c b ++ "_edited") with (String c (b ++ "_edited")) in *.
  cbn [replace_from]. rewrite S, (IH C). reflexivity.
Qed.

End PyStrFacts.

Module FreeHandCutPlotterFacts.
Import PyStr PosixPath FreeHandCutPlotter.
Local Open Scope string_scope.

Lemma basename_plain (p : string) :
  contains "/" p = false -> basename p = p.
Proof.
  intros H. apply PyStrFacts.rfind_contains in H.
  unfold basename, sep. rewrite H. destruct p; reflexivity.
Qed.

(** The directories in front of a file name are dropped. *)
Lemma basename_dir (dir name : string) :
  contains "/" name = false -> basename (dir ++ "/" ++ name) = name.
Proof.
  intros H. apply PyStrFacts.rfind_contains in H.
  unfold basename, sep. simpl append.
  rewrite (PyStrFacts.rfind_app_last "/" dir name H).
  change (S (String.length dir)) with (String.length (String "/" dir)).
  replace (String.length (String "/" dir)) with (String.length (dir ++ "/")).
  - rewrite <- (PyStrFacts.drop_app (dir ++ "/") name) at 2.
    rewrite PyStrFacts.app_assoc. reflexivity.
  - clear. induction dir as [|c d IH]; simpl; auto.
Qed.

Lemma name_starts_before_true (p : string) (n i : nat) :
  (exists j c, i <= j < i + n /\ String.get j p = Some c /\ c <> extsep) ->
  name_starts_before p i n = true.
Proof.
  revert i; induction n as [|n IH]; intros i (j & c & R & G & N); [lia|].
  simpl. destruct (String.get i p) as [c0|] eqn:E; [|reflexivity].
  destruct (Ascii.eqb_spec c0 extsep) as [D|D]; [|reflexivity].
  apply IH. exists j, c. repeat split; auto; try lia.
  destruct (Nat.eq_dec i j); [|lia]. subst j. congruence.
Qed.

(** [splitext] cuts [stem ++ "." ++ e] at the dot it was built with. *)
Lemma splitext_stem_ext (stem e : string) :
  contains "/" stem = false -> contains "/" e = false ->
  contains "." e = false ->
  (exists i c, String.get i stem = Some c /\ c <> "."%char) ->
  splitext (stem ++ "." ++ e) = (stem, "." ++ e).
Proof.
  intros S1 S2 D (i & c & G & N).
  apply PyStrFacts.rfind_contains in S1, S2, D.
  unfold splitext, extsep, sep. simpl append.
  rewrite (PyStrFacts.rfind_app_last "." stem e D).
  rewrite (PyStrFacts.rfind_app_none "/" stem (String "." e) S1)
    by (simpl; rewrite S2; reflexivity).
  rewrite Nat.sub_0_r. simpl Nat.leb. cbn [andb].
  rewrite name_starts_before_true.
  - rewrite PyStrFacts.take_app, PyStrFacts.drop_app. reflexivity.
  - assert (L : i < String.length stem).
    { clear -G. revert i G. induction stem as [|a s IH]; intros i G;
        [discriminate|].
      destruct i; simpl in *; [lia|]. apply IH in G. lia. }
    exists i, c. repeat split; auto; try lia.
    rewrite <- append_correct1; auto.
Qed.

(** The [s] key on a mesh read from [stem ++ "." ++ e] (possibly behind
    directories, which are dropped) writes [stem' ++ "_edited." ++ e], where
    [stem'] is [stem] without any occurrence of the tag: a stem free of the
    tag gets it appended, a stem that ends with its only tag is written
    under its own name, and a mesh without file name goes to
    [mesh_edited.vtk]. *)
Theorem save_target_strips_every_tag (stem e : string) :
  contains "/" stem = false -> contains "/" e = false ->
  contains "." e = false ->
  (exists i c, String.get i stem = Some c /\ c <> "."%char) ->
  let ext := "." ++ e in
  save_target (stem ++ ext) = replace "_edited" "" stem ++ "_edited" ++ ext /\
  (forall dir, save_target (dir ++ "/" ++ stem ++ ext)
               = save_target (stem ++ ext)) /\
  (contains "_edited" stem = false ->
     save_target (stem ++ ext) = stem ++ "_edited" ++ ext) /\
  (forall base, stem = base ++ "_edited" ->
     contains "_edited" base = false ->
     save_target (stem ++ ext) = stem ++ ext) /\
  save_target "" = "mesh_edited.vtk" /\
  (forall p, mesh_filename p = stem ++ ext ->
     written (_on_keypress_s p)
     = (written p ++ [(replace "_edited" "" stem ++ "_edited" ++ ext)%string])%list).
Proof.
  intros S1 S2 D N; cbv zeta.
  assert (NE : forall x y, x <> "" -> negb (String.eqb (x ++ y) "") = true).
  { intros [|a x] y H; [congruence|reflexivity]. }
  assert (St : stem <> "").
  { destruct N as (i & c & G & _). destruct stem; [discriminate|congruence]. }
  assert (P : contains "/" (stem ++ "." ++ e) = false).
  { apply PyStrFacts.rfind_contains.
    apply PyStrFacts.rfind_contains in S1, S2.
    apply PyStrFacts.rfind_app_none; auto. simpl. rewrite S2. reflexivity. }
  assert (T : save_target (stem ++ "." ++ e)
              = replace "_edited" "" stem ++ "_edited" ++ "." ++ e).
  { unfold save_target. rewrite (NE stem _ St).
    rewrite (basename_plain _ P), (splitext_stem_ext stem e S1 S2 D N).
    reflexivity. }
  split; [exact T|]. split; [|split; [|split; [|split]]].
  - intros dir. rewrite T. unfold save_target.
    assert (negb (String.eqb (dir ++ "/" ++ stem ++ "." ++ e) "") = true) as ->.
    { destruct dir; reflexivity. }
    rewrite (basename_dir dir _ P), (splitext_stem_ext stem e S1 S2 D N).
    reflexivity.
  - intros A. rewrite T, (PyStrFacts.replace_absent _ _ _ A). reflexivity.
  - intros base E A. rewrite T. subst stem.
    rewrite (PyStrFacts.replace_tag_suffix base A).
    rewrite PyStrFacts.app_assoc. reflexivity.
  - reflexivity.
  - intros p E. unfold _on_keypress_s, write; simpl. rewrite E, T. reflexivity.
Qed.

Lemma save_target_strips_every_tag_witness :
  contains "/" "model" = false /\
  save_target "model.vtk" = "model_edited.vtk" /\
  save_target "model_edited.vtk" = "model_edited.vtk".
Proof.
  assert (N : forall s, exists i c,
                String.get i (String "m" s) = Some c /\ c <> "."%char).
  { intros s. exists O, "m"%char. split; [reflexivity|discriminate]. }
  assert (S1 : contains "/" "model" = false) by (vm_compute; reflexivity).
  assert (S2 : contains "/" "vtk" = false) by (vm_compute; reflexivity).
  assert (D : contains "." "vtk" = false) by (vm_compute; reflexivity).
  assert (S3 : contains "/" "model_edited" = false) by (vm_compute; reflexivity).
  assert (A : contains "_edited" "model" = false) by (vm_compute; reflexivity).
  split; [exact S1|].
  pose proof (save_target_strips_every_tag "model" "vtk" S1 S2 D (N _)) as H.
  pose proof (save_target_strips_every_tag "model_edited" "vtk" S3 S2 D (N _))
    as K.
  cbv zeta in H, K.
  destruct H as (_ & _ & H & _), K as (_ & _ & _ & K & _).
  split; [exact (H A) | exact (K "model" eq_refl A)].
Defined.

(** A tag inside the stem is removed as well, and removing one tag can
    bring the halves of another together. *)
Lemma save_target_removes_inner_tags :
  splitext "a_edited_b.vtk" = ("a_edited_b", ".vtk") /\
  save_target "a_edited_b.vtk" = "a_b_edited.vtk" /\
  spec_save_target "a_edited_b" ".vtk" = "a_edited_b_edited.vtk" /\
  save_target "_edi_editedted.vtk" = "_edited_edited.vtk".
Proof. repeat split; reflexivity. Qed.

End FreeHandCutPlotterFacts.

(* ================================================================= *)
(** ** Slicer3DPlotter: where the clamped range lies *)

Module SlicerRangeFacts.
Import Slicer3DPlotter.
Local Open Scope Q_scope.

Lemma min_glb (a b c : Q) : c <= a -> c <= b -> c <= Py.min a b.
Proof. intros A B. unfold Py.min. destruct (Py.Qltb b a); assumption. Qed.

Lemma max_lub (a b c : Q) : a <= c -> b <= c -> Py.max a b <= c.
Proof. intros A B. unfold Py.max. destruct (Py.Qltb a b); assumption. Qed.

(** When the log-weighted mean lies in the scalar range, as a weighted
    mean of bin edges does, clamping only narrows the range and keeps the
    mean inside it. *)
Theorem clamp_range_narrows (rawmin rawmax mean : Q) :
  rawmin <= mean -> mean <= rawmax ->
  let dmin := fst (clamp_range rawmin rawmax mean) in
  let dmax := snd (clamp_range rawmin rawmax mean) in
  rawmin <= dmin /\ dmin <= mean /\ mean <= dmax /\ dmax <= rawmax.
Proof.
  intros L U; cbv zeta. unfold clamp_range; simpl.
  assert (M : mean <= Py.min rawmax (mean + (mean - rawmin) * 0.9)).
  { apply min_glb; lra. }
  split; [apply PyFacts.max_ge_l|].
  split; [apply max_lub; lra|].
  split; [exact M | apply PyFacts.min_le_l].
Qed.

Lemma clamp_range_narrows_witness :
  0 <= 10 /\ 10 <= 100 /\
  fst (clamp_range 0 100 10) <= 10 /\ 10 <= snd (clamp_range 0 100 10).
Proof.
  assert (L : 0 <= 10) by discriminate.
  assert (U : 10 <= 100) by discriminate.
  pose proof (clamp_range_narrows 0 100 10 L U) as H. cbv zeta in H.
  destruct H as (_ & A & B & _).
  repeat split; assumption.
Defined.

End SlicerRangeFacts.

(* ================================================================= *)
(** ** Animation: what booking and replaying do *)

Module AnimationBookingFacts.
Import Animation AnimationFacts.
Local Open Scope Q_scope.

(** An effect asked for before any actor was named: [_parse] logs the
    error and raises; nothing else changes. *)
Lemma parse_without_actors (s : animation) (t d : option Q) :
  _lastActs s = None \/ _lastActs s = Some [] ->
  exists s',
    _parse NoObjs t d s = Raised Py.RuntimeError s' /\
    errors s' = (errors s ++ ["Need to specify actors!"%string])%list /\
    events s' = events s /\ actors s' = actors s /\
    _lastT s' = _lastT s /\ _lastDuration s' = _lastDuration s /\
    _lastActs s' = _lastActs s.
Proof.
  intros H. unfold _parse, get, bind, logger_error, raise.
  destruct H as [H|H]; rewrite H; simpl; eexists; repeat split; auto.
Qed.

Theorem effect_without_actors_raises (s : animation) (t d : option Q)
    (style : string) :
  bookingMode s = true ->
  _lastActs s = None \/ _lastActs s = Some [] ->
  exists s',
    fade_in NoObjs t d s = Raised Py.RuntimeError s' /\
    fade_out NoObjs t d s = Raised Py.RuntimeError s' /\
    change_lighting style NoObjs t d s = Raised Py.RuntimeError s' /\
    errors s' = (errors s ++ ["Need to specify actors!"%string])%list /\
    events s' = events s /\ actors s' = actors s /\
    _lastActs s' = _lastActs s.
Proof.
  intros B H.
  destruct (parse_without_actors s t d H) as (s' & P & E & Ev & A & _ & _ & L).
  exists s'. unfold fade_in, fade_out, change_lighting, get.
  unfold bind at 1 3 5. rewrite B. unfold bind at 1 2 3. rewrite P.
  repeat split; auto.
Qed.


Lemma floor_half (k : Z) : Qfloor (inject_Z k + (1 # 2)) = k.
Proof.
  unfold Qfloor, inject_Z, Qplus; simpl.
  symmetry. apply Z.div_unique with (r := 1%Z); lia.
Qed.

(** Quantizing a multiple of the resolution gives it back. *)
Lemma requantize (k : Z) (res x : Q) :
  0 < res -> (0 <= k)%Z -> x == inject_Z k * res ->
  Py.int (x / res + 0.5) = k.
Proof.
  intros R K E.
  assert (X : x / res == inject_Z k) by (rewrite E; field; lra).
  assert (N : 0 <= inject_Z k) by (change 0 with (inject_Z 0); rewrite <- Zle_Qle; lia).
  rewrite int_floor by lra.
  rewrite <- (floor_half k). apply Qfloor_comp. lra.
Qed.

(** What a successful [_parse] returns and leaves behind. *)
Lemma parse_explicit (s : animation) (objs : objs_arg) (objs2 : list actor)
    (t d : Q) :
  0 < time_resolution s -> 0 <= t -> 0 <= d ->
  chosen_actors objs s = Some objs2 ->
  let res := time_resolution s in
  let n := round_half_up (d / res) in
  let t' := inject_Z (round_half_up (t / res)) * res in
  let d' := inject_Z n * res in
  exists rng s',
    _parse objs (Some t) (Some d) s = Return (objs2, t', d', rng) s' /\
    linspace t' (t' + d') (n + 1) s = Return rng s /\
    time_resolution s' = res /\ bookingMode s' = bookingMode s /\
    events s' = events s /\ errors s' = errors s /\
    _lastT s' = Some t' /\ _lastDuration s' = Some d' /\
    _lastActs s' = Some objs2.
Proof.
  intros R T D O; cbv zeta.
  assert (Z0 : Qeq_bool (time_resolution s) 0 = false).
  { destruct (Qeq_bool (time_resolution s) 0) eqn:E; auto.
    apply Qeq_bool_iff in E. lra. }
  pose proof (quotient_nonneg t _ R T) as QT.
  pose proof (quotient_nonneg d _ R D) as QD.
  pose proof (round_half_up_nonneg _ QD) as ND.
  assert (K : forall A (k : list actor -> M A),
              bind match objs with
                   | NoObjs =>
                       match _lastActs s with
                       | Some (a :: l) => ret (a :: l)
                       | _ => logger_error "Need to specify actors!" ;;;
                              raise Py.RuntimeError
                       end
                   | OneObj a => ret [a]
                   | ObjSeq l => ret l
                   end k s = k objs2 s).
  { intros A k. destruct objs as [|a|l]; simpl in O.
    - destruct (_lastActs s) as [[|a l]|]; try discriminate.
      injection O as <-. reflexivity.
    - injection O as <-. reflexivity.
    - injection O as <-. reflexivity. }
  unfold _parse, get. unfold bind at 1. rewrite K. rewrite Z0.
  rewrite !int_half_up by assumption.
  unfold linspace, bind, remember, raise, ret.
  destruct (Z.ltb_spec (round_half_up (d / time_resolution s) + 1) 0); [lia|].
  destruct (round_half_up (d / time_resolution s) + 1 =? 1)%Z;
    do 2 eexists; simpl; repeat split; reflexivity.
Qed.

(** Sticky defaults, for a positive time resolution: once an effect has
    been booked for some actors with a start time and a duration that are
    not negative, an effect that names neither actors nor times is booked
    for the same actors, start time and duration, on the same time
    steps. *)
Theorem parse_sticky_defaults (s : animation) (objs : objs_arg)
    (a : actor) (l : list actor) (t d : Q) :
  0 < time_resolution s -> 0 <= t -> 0 <= d ->
  chosen_actors objs s = Some (a :: l) ->
  exists t' d' rng s1 s2,
    _parse objs (Some t) (Some d) s = Return (a :: l, t', d', rng) s1 /\
    _parse NoObjs None None s1 = Return (a :: l, t', d', rng) s2.
Proof.
  intros R T D O.
  destruct (parse_explicit s objs (a :: l) t d R T D O)
    as (rng & s1 & P & Lin & Res & _ & _ & _ & LT & LD & LA).
  pose proof (quotient_nonneg t _ R T) as QT.
  pose proof (quotient_nonneg d _ R D) as QD.
  pose proof (round_half_up_nonneg _ QT) as NT.
  pose proof (round_half_up_nonneg _ QD) as ND.
  set (res := time_resolution s) in *.
  set (kt := round_half_up (t / res)) in *.
  set (kd := round_half_up (d / res)) in *.
  assert (Z0 : Qeq_bool res 0 = false).
  { destruct (Qeq_bool res 0) eqn:E; auto. apply Qeq_bool_iff in E. lra. }
  assert (Re : forall k, (0 <= k)%Z ->
             Py.int (match truthy_float (Some (inject_Z k * res)) with
                     | Some v => v | None => 0 end / res + 0.5) = k).
  { intros k K. unfold truthy_float.
    destruct (Qeq_bool (inject_Z k * res) 0) eqn:E.
    - apply Qeq_bool_iff in E. apply requantize; auto. rewrite E. reflexivity.
    - apply requantize; auto. reflexivity. }
  exists (inject_Z kt * res), (inject_Z kd * res), rng, s1.
  unfold _parse at 2. unfold get. unfold bind at 1.
  rewrite LT, LD, LA, Res. unfold bind at 1. unfold ret at 1.
  rewrite Z0. rewrite (Re kt NT), (Re kd ND).
  unfold bind at 1.
  assert (Lin1 : linspace (inject_Z kt * res)
                   (inject_Z kt * res + inject_Z kd * res) (kd + 1) s1
                 = Return rng s1).
  { revert Lin. unfold linspace, raise, ret.
    destruct (kd + 1 <? 0)%Z; [discriminate|].
    destruct (kd + 1 =? 1)%Z; intros H; injection H as <-; reflexivity. }
  rewrite Lin1. unfold bind, remember, ret. eexists. split; [exact P|reflexivity].
Qed.


(** The samples of [linspace] over a whole number of steps lie on the
    time grid. *)
Lemma linspace_grid (t' res : Q) (n : Z) (rng : list Q) (s : animation) :
  0 < res -> (0 <= n)%Z ->
  linspace t' (t' + inject_Z n * res) (n + 1) s = Return rng s ->
  Z.of_nat (List.length rng) = (n + 1)%Z /\
  forall i, (i < List.length rng)%nat ->
    nth i rng 0 == t' + inject_Z (Z.of_nat i) * res.
Proof.
  intros R N. unfold linspace, raise, ret.
  destruct (Z.ltb_spec (n + 1) 0) as [?|_]; [lia|].
  destruct (Z.eqb_spec (n + 1) 1) as [E|E]; intros Hr; injection Hr as <-.
  - split; [simpl; lia|]. intros [|i] L; simpl in *; [|lia].
    change (inject_Z 0) with 0. lra.
  - rewrite length_map, length_seq. split; [lia|].
    intros i L.
    rewrite (nth_indep _ 0 (t' + inject_Z (Z.of_nat 0)
               * ((t' + inject_Z n * res - t') / inject_Z (n + 1 - 1))))
      by (rewrite length_map, length_seq; exact L).
    rewrite (map_nth (fun i => t' + inject_Z (Z.of_nat i)
               * ((t' + inject_Z n * res - t') / inject_Z (n + 1 - 1)))
               (seq 0 (Z.to_nat (n + 1))) O i).
    rewrite seq_nth by exact L. simpl plus.
    replace (n + 1 - 1)%Z with n by lia.
    assert (0 < inject_Z n).
    { change 0 with (inject_Z 0). rewrite <- Zlt_Qlt. lia. }
    apply Qplus_inj_l. 
    setoid_replace ((t' + inject_Z n * res - t') / inject_Z n) with res
      by (field; lra).
    reflexivity.
Qed.

(** What a successful [_parse] returns and leaves behind for a start
    time next to the [k]-th point of the time grid and a duration next to
    [n] steps. *)
Lemma parse_near (s : animation) (objs : objs_arg) (objs2 : list actor)
    (t d : Q) (k n : Z) :
  0 < time_resolution s -> (0 <= k)%Z -> (0 <= n)%Z ->
  inject_Z k - 0.499 <= t / time_resolution s <= inject_Z k + 0.499 ->
  inject_Z n - 0.499 <= d / time_resolution s <= inject_Z n + 0.499 ->
  chosen_actors objs s = Some objs2 ->
  let res := time_resolution s in
  let t' := inject_Z k * res in
  let d' := inject_Z n * res in
  exists rng s',
    _parse objs (Some t) (Some d) s = Return (objs2, t', d', rng) s' /\
    linspace t' (t' + d') (n + 1) s = Return rng s /\
    events s' = events s /\ errors s' = errors s /\
    _lastT s' = Some t' /\ _lastDuration s' = Some d' /\
    _lastActs s' = Some objs2.
Proof.
  intros R K N T D O; cbv zeta.
  assert (Z0 : Qeq_bool (time_resolution s) 0 = false).
  { destruct (Qeq_bool (time_resolution s) 0) eqn:E; auto.
    apply Qeq_bool_iff in E. lra. }
  assert (C : forall A (f : list actor -> M A),
              bind match objs with
                   | NoObjs =>
                       match _lastActs s with
                       | Some (a :: l) => ret (a :: l)
                       | _ => logger_error "Need to specify actors!" ;;;
                              raise Py.RuntimeError
                       end
                   | OneObj a => ret [a]
                   | ObjSeq l => ret l
                   end f s = f objs2 s).
  { intros A f. destruct objs as [|a|l]; simpl in O.
    - destruct (_lastActs s) as [[|a l]|]; try discriminate.
      injection O as <-. reflexivity.
    - injection O as <-. reflexivity.
    - injection O as <-. reflexivity. }
  unfold _parse, get. unfold bind at 1. rewrite C. rewrite Z0.
  rewrite (int_near _ k K T), (int_near _ n N D).
  unfold linspace, bind, remember, raise, ret.
  destruct (Z.ltb_spec (n + 1) 0); [lia|].
  destruct (n + 1 =? 1)%Z;
    do 2 eexists; simpl; repeat split; reflexivity.
Qed.

(** [fade_in] books one event per time step after the events already
    booked.  For a start time within [0.499] steps of the [k]-th point of
    the time grid and a duration within [0.499] steps of [n] steps, these
    are [n + 1] events; the [i]-th lies at the grid point [k + i] and
    carries the opacity [i / n].  (Nearer to the middle between two grid
    points the step taken hangs on the rounding of the floating-point
    quotient.) *)
Theorem fade_in_books_on_grid (s : animation) (objs : objs_arg)
    (objs2 : list actor) (t d : Q) (k n : Z) :
  bookingMode s = true ->
  0 < time_resolution s -> (0 <= k)%Z -> (0 <= n)%Z ->
  inject_Z k - 0.499 <= t / time_resolution s <= inject_Z k + 0.499 ->
  inject_Z n - 0.499 <= d / time_resolution s <= inject_Z n + 0.499 ->
  chosen_actors objs s = Some objs2 ->
  let res := time_resolution s in
  let t' := inject_Z k * res in
  let d' := inject_Z n * res in
  exists rng s2,
    fade_in objs (Some t) (Some d) s = Return tt s2 /\
    events s2 =
      (events s ++
       map (fun tt => (tt, Fade_in, objs2,
                       Alpha (lin_interpolate tt (t', t' + d') (0, 1)))) rng)%list /\
    Z.of_nat (List.length rng) = (n + 1)%Z /\
    forall i, (i < List.length rng)%nat ->
      nth i rng 0 == inject_Z (k + Z.of_nat i) * res /\
      ((0 < n)%Z ->
       lin_interpolate (nth i rng 0) (t', t' + d') (0, 1)
       == inject_Z (Z.of_nat i) / inject_Z n).
Proof.
  intros B R K N T D O; cbv zeta.
  destruct (parse_near s objs objs2 t d k n R K N T D O)
    as (rng & s1 & P & Lin & Ev & _).
  set (res := time_resolution s) in *.
  set (t' := inject_Z k * res) in *.
  destruct (linspace_grid t' res n rng s R N Lin) as [Len Grid].
  destruct (for_each_events_append rng
              (fun tt => (tt, Fade_in, objs2,
                 Alpha (lin_interpolate tt (t', t' + inject_Z n * res) (0, 1))))
              s1) as (s2 & F & Es & _).
  exists rng, s2. split; [|split; [|split]].
  - unfold fade_in, get. unfold bind at 1. rewrite B.
    unfold bind at 1. rewrite P. exact F.
  - rewrite Es, Ev. reflexivity.
  - exact Len.
  - intros i L. split.
    + rewrite (Grid i L). unfold t'. rewrite inject_Z_plus. ring.
    + intros Pn. unfold lin_interpolate. rewrite (Grid i L).
      assert (0 < inject_Z n).
      { change 0 with (inject_Z 0). rewrite <- Zlt_Qlt. lia. }
      setoid_replace (t' + inject_Z n * res - t') with (inject_Z n * res)
        by ring.
      field. split; lra.
Qed.


(** Replaying an event of [fade_out] lowers the opacity of a performer to
    the booked value, or leaves it as it is now. *)
Lemma replay_fade_out (tm x : Q) (ps live : list actor) (p : animation) :
  bookingMode p = false ->
  exists p',
    replay (tm, Fade_out, ps, Alpha x) live p
    = Return
        (store (map (fun a => if Qle_bool (alpha a) x then a
                              else set_alpha x a)
                    (map (current live) ps)) live) p'.
Proof.
  intros B. unfold replay, fade_out, bind, get, set_performers, ret; simpl.
  rewrite B. simpl. eexists. reflexivity.
Qed.

(** Objects listed once each are told apart by their identity. *)
Lemma same_uid_same_object (live : list actor) (b c : actor) :
  NoDup (map uid live) -> In b live -> In c live -> uid b = uid c -> b = c.
Proof.
  induction live as [|x l IH]; intros N B C E; [contradiction|].
  inversion N as [|? ? Nx Nl]; subst.
  destruct B as [<-|B], C as [<-|C]; auto.
  - exfalso. apply Nx. rewrite E. apply in_map. exact C.
  - exfalso. apply Nx. rewrite <- E. apply in_map. exact B.
Qed.

(** Writing back objects none of which is more opaque than the object it
    stands for leaves no object more opaque. *)
Lemma store_never_raises (changed live0 live : list actor) :
  Forall2 (fun b b' => uid b' = uid b /\ alpha b' <= alpha b) live0 live ->
  (forall c b, In c changed -> In b live0 -> uid c = uid b ->
     alpha c <= alpha b) ->
  Forall2 (fun b b' => uid b' = uid b /\ alpha b' <= alpha b)
          live0 (store changed live).
Proof.
  revert live. induction changed as [|c l IH]; intros live F H; [exact F|].
  unfold store. cbn [fold_left]. apply IH.
  - clear IH. assert (Hc : forall b, In b live0 -> uid c = uid b ->
                             alpha c <= alpha b).
    { intros b I E. apply (H c b); [left; reflexivity|exact I|exact E]. }
    clear H. induction F as [|b0 b l0 l1 [U A] F IHF]; cbn [map];
      constructor.
    + unfold same_actor. destruct (Nat.eqb_spec (uid c) (uid b)) as [E|E].
      * split; [congruence|]. apply Hc; [left; reflexivity|congruence].
      * split; assumption.
    + apply IHF. intros b' I E. apply Hc; [right; exact I|exact E].
  - intros c' b I. apply H. right. exact I.
Qed.

(** The events that [change_alpha_between] books are replayed by
    [fade_out]: at playback no object ever gets more opaque than it is
    then, whatever the two opacities asked for and whatever the events
    played before have made of the objects. *)
Theorem change_alpha_between_never_raises (s : animation) (objs : objs_arg)
    (objs2 : list actor) (alpha1 alpha2 t d : Q) :
  bookingMode s = true ->
  0 < time_resolution s -> 0 <= t -> 0 <= d ->
  chosen_actors objs s = Some objs2 ->
  exists booked s1,
    change_alpha_between alpha1 alpha2 objs (Some t) (Some d) s
      = Return tt s1 /\
    events s1 = (events s ++ booked)%list /\
    forall e p live,
      In e booked -> bookingMode p = false -> NoDup (map uid live) ->
      exists p' live',
        replay e live p = Return live' p' /\
        Forall2 (fun b b' => uid b' = uid b /\ alpha b' <= alpha b)
                live live'.
Proof.
  intros B R T D O.
  destruct (parse_explicit s objs objs2 t d R T D O)
    as (rng & s1 & P & _ & _ & _ & Ev & _).
  match type of P with _ = Return (_, ?t', ?d', _) _ =>
    destruct (for_each_events_append rng
                (fun tt => (tt, Fade_out, objs2,
                   Alpha (lin_interpolate tt (t', t' + d') (alpha1, alpha2))))
                s1) as (s2 & F & Es & _) end.
  eexists _, s2. split; [|split].
  - unfold change_alpha_between, get. unfold bind at 1. rewrite B.
    unfold bind at 1. rewrite P. exact F.
  - rewrite Es, Ev. reflexivity.
  - intros e p live I Bp N. apply in_map_iff in I. destruct I as (tm & <- & _).
    match goal with |- context [Alpha ?x] =>
      destruct (replay_fade_out tm x objs2 live p Bp) as (p' & Rp);
      set (x0 := x) in * end.
    exists p'. eexists. split; [exact Rp|].
    apply store_never_raises.
    + clear. induction live as [|b l IH]; constructor; auto.
      split; [reflexivity|apply Qle_refl].
    + intros c b Ic Ib E.
      apply in_map_iff in Ic. destruct Ic as (a' & <- & Ia).
      apply in_map_iff in Ia. destruct Ia as (a & <- & _).
      assert (Cur : forall b', In b' live -> uid (current live a) = uid b' ->
                      current live a = b').
      { intros b' Ib' E'. unfold current in *.
        destruct (find (same_actor a) live) as [b1|] eqn:Fd.
        - apply find_some in Fd. destruct Fd as [I1 S1].
          apply (same_uid_same_object live b1 b' N I1 Ib' E').
        - exfalso.
          pose proof (find_none _ _ Fd b' Ib') as Nn.
          unfold same_actor in Nn. apply Nat.eqb_neq in Nn. auto. }
      destruct (Qle_bool (alpha (current live a)) x0) eqn:Q.
      * rewrite (Cur b Ib E). apply Qle_refl.
      * assert (U : uid (current live a) = uid b) by exact E.
        rewrite <- (Cur b Ib U). cbn [set_alpha alpha].
        apply Qlt_le_weak, Qnot_le_lt. intros H.
        apply Qle_bool_iff in H. congruence.
Qed.


Lemma effect_without_actors_raises_witness :
  bookingMode (init 0.02) = true /\
  exists s',
    fade_in NoObjs None None (init 0.02) = Raised Py.RuntimeError s' /\
    events s' = [].
Proof.
  split; [reflexivity|].
  destruct (effect_without_actors_raises (init 0.02) None None ""
              eq_refl (or_introl eq_refl)) as (s' & F & _ & _ & _ & Ev & _).
  exists s'. split; [exact F | exact Ev].
Defined.

Lemma parse_sticky_defaults_witness :
  0 < time_resolution (init 0.02) /\
  exists t' d' rng s1 s2,
    _parse (OneObj (fresh_mesh 1)) (Some 0.013) (Some 0.047) (init 0.02)
      = Return ([fresh_mesh 1], t', d', rng) s1 /\
    _parse NoObjs None None s1 = Return ([fresh_mesh 1], t', d', rng) s2.
Proof.
  assert (R : 0 < time_resolution (init 0.02)) by reflexivity.
  assert (T : 0 <= 0.013) by discriminate.
  assert (D : 0 <= 0.047) by discriminate.
  split; [exact R|].
  exact (parse_sticky_defaults (init 0.02) (OneObj (fresh_mesh 1))
           (fresh_mesh 1) [] 0.013 0.047 R T D eq_refl).
Defined.

Lemma fade_in_books_on_grid_witness :
  0 < time_resolution (init 0.02) /\
  inject_Z 1 - 0.499 <= 0.013 / 0.02 <= inject_Z 1 + 0.499 /\
  inject_Z 2 - 0.499 <= 0.047 / 0.02 <= inject_Z 2 + 0.499 /\
  exists (rng : list Q) s2,
    fade_in (OneObj (fresh_mesh 1)) (Some 0.013) (Some 0.047) (init 0.02)
      = Return tt s2 /\
    Z.of_nat (List.length rng) = 3%Z /\
    List.length (events s2) = List.length rng.
Proof.
  assert (R : 0 < time_resolution (init 0.02)) by reflexivity.
  assert (T : inject_Z 1 - 0.499 <= 0.013 / 0.02 <= inject_Z 1 + 0.499)
    by (split; apply Qle_bool_iff; reflexivity).
  assert (D : inject_Z 2 - 0.499 <= 0.047 / 0.02 <= inject_Z 2 + 0.499)
    by (split; apply Qle_bool_iff; reflexivity).
  split; [exact R|]. split; [exact T|]. split; [exact D|].
  destruct (fade_in_books_on_grid (init 0.02) (OneObj (fresh_mesh 1))
              [fresh_mesh 1] 0.013 0.047 1 2 eq_refl R
              ltac:(discriminate) ltac:(discriminate) T D eq_refl)
    as (rng & s2 & F & Ev & L & _).
  exists rng, s2. split; [exact F|]. split; [exact L|].
  rewrite Ev. simpl. rewrite length_map. reflexivity.
Defined.

Lemma change_alpha_between_never_raises_witness :
  0 < time_resolution (init 0.02) /\
  exists booked s1,
    change_alpha_between 0.2 0.8 (OneObj (fresh_mesh 1)) (Some 0) (Some 0.04)
      (init 0.02) = Return tt s1 /\
    events s1 = booked.
Proof.
  assert (R : 0 < time_resolution (init 0.02)) by reflexivity.
  assert (T : 0 <= 0) by discriminate.
  assert (D : 0 <= 0.04) by discriminate.
  split; [exact R|].
  destruct (change_alpha_between_never_raises (init 0.02)
              (OneObj (fresh_mesh 1)) [fresh_mesh 1] 0.2 0.8 0 0.04
              eq_refl R T D eq_refl) as (booked & s1 & C & E & _).
  exists booked, s1. split; [exact C | exact E].
Defined.

Lemma unknown_style_raises_witness :
  lighting_pars "matte" = None /\
  exists s',
    change_lighting "matte" (OneObj (fresh_mesh 1)) (Some 0) (Some 0.04)
      (init 0.02) = Raised Py.UnboundLocalError s' /\
    events s' = [].
Proof.
  split; [reflexivity|].
  edestruct (unknown_style_raises "matte" (OneObj (fresh_mesh 1))
               (Some 0) (Some 0.04) (init 0.02)) as (s' & E & Ev & _);
    [reflexivity | reflexivity | lazy; reflexivity |].
  exists s'. split; [exact E | exact Ev].
Defined.

Lemma unknown_style_books_witness :
  lighting_pars "matte" = None /\
  exists s',
    change_lighting "matte" (ObjSeq []) (Some 0) (Some 0.04) (init 0.02)
      = Return tt s' /\
    List.length (events s') = 3%nat.
Proof.
  split; [reflexivity|].
  edestruct (unknown_style_books "matte" (ObjSeq [])
               (Some 0) (Some 0.04) (init 0.02)) as (s' & E & Ev);
    [reflexivity | reflexivity | lazy; reflexivity |].
  exists s'. split; [exact E|]. rewrite Ev. reflexivity.
Defined.

End AnimationBookingFacts.

(* ================================================================= *)
(** ** AnimationPlayer: timers, ticks and the step buttons *)

Module AnimationPlayerRunFacts.
Import AnimationPlayer AnimationPlayerFacts.
Local Open Scope Z_scope.

Lemma remove_single (id : nat) : List.remove Nat.eq_dec id [id] = [].
Proof. simpl. destruct (Nat.eq_dec id id); [reflexivity|congruence]. Qed.

Lemma pause_tidy (s : player) : tidy s -> tidy (pause s).
Proof.
  intros (T & _ & _). unfold tidy, pause.
  destruct (timer_id s) as [id|]; simpl; rewrite T, ?remove_single; auto.
Qed.

Lemma resume_tidy (s : player) : tidy s -> tidy (resume s).
Proof.
  intros (T & _ & _). unfold tidy, resume.
  destruct (timer_id s) as [id|]; simpl; rewrite T, ?remove_single; auto.
Qed.

Lemma set_frame_tidy (v : Z) (s : player) : tidy s -> tidy (set_frame v s).
Proof.
  intros T. pose proof (pause_tidy s T) as P.
  unfold set_frame, resolve_frame.
  destruct (loop s), (v <? min_value s); simpl;
    try destruct (v >=? max_value s); try destruct (v >=? max_value s - 1);
    simpl;
    match goal with
    | |- context [negb ?b] => destruct b; simpl; auto
    end.
Qed.

Lemma handle_tidy (e : event) (s : player) : tidy s -> tidy (handle e s).
Proof.
  intros T.
  destruct e as [[]|[]|[]| w | | v];
    unfold handle, toggle, oneforward, onebackward, _slider_callback,
           _handle_timer; cbv zeta; auto using set_frame_tidy, pause_tidy.
  destruct (negb (is_playing s)); auto using resume_tidy, pause_tidy.
Qed.

(** Whatever the user does, a player never owns more than one timer, plays
    exactly when it owns one, and shows the pause symbol exactly when it
    plays. *)
Theorem player_stays_tidy (irange : Z * Z) (dt0 : Q) (lp : bool)
    (es : list event) :
  let s := run es (init irange dt0 lp) in
  timers s = match timer_id s with Some id => [id] | None => [] end /\
  is_playing s = match timer_id s with Some _ => true | None => false end /\
  button_status s = if is_playing s then PAUSE_SYMBOL else PLAY_SYMBOL.
Proof.
  cbv zeta. change (tidy (run es (init irange dt0 lp))).
  assert (T0 : tidy (init irange dt0 lp)).
  { destruct irange; repeat split. }
  revert T0. generalize (init irange dt0 lp) as s.
  induction es as [|e es IH]; intros s T; simpl; auto.
  apply IH. apply handle_tidy. exact T.
Qed.


(** One tick of the timer in looping mode, from a frame of the range. *)
Lemma tick_loop (s : player) :
  loop s = true -> min_value s < max_value s ->
  min_value s <= value s <= max_value s - 1 ->
  value (_handle_timer s) =
    (if value s + 1 <? max_value s then value s + 1 else min_value s).
Proof.
  intros L R V. unfold _handle_timer. rewrite set_frame_stores.
  unfold resolve_frame. rewrite L.
  destruct (Z.ltb_spec (value s + 1) (min_value s)); [lia|].
  destruct (Z.geb_spec (value s + 1) (max_value s));
    destruct (Z.ltb_spec (value s + 1) (max_value s)); simpl; lia.
Qed.

Lemma step_mod (mn n v k : Z) :
  0 < n -> mn <= v <= mn + n - 1 ->
  mn + ((if v + 1 <? mn + n then v + 1 else mn) - mn + k) mod n
  = mn + (v - mn + (k + 1)) mod n.
Proof.
  intros N V. f_equal.
  destruct (Z.ltb_spec (v + 1) (mn + n)).
  - f_equal. lia.
  - replace (v - mn + (k + 1)) with (k + 1 * n) by lia.
    rewrite Z.mod_add by lia. f_equal. lia.
Qed.

(** In looping mode the timer walks round the range: [k] ticks after the
    frame [v] the frame is [min + (v - min + k) mod (max - min)], and when
    the range has more than one frame every tick calls the update function
    with its frame. *)
Theorem ticks_loop_round (s : player) (k : nat) :
  loop s = true -> min_value s < max_value s ->
  min_value s <= value s <= max_value s - 1 ->
  let n := max_value s - min_value s in
  let frame i := min_value s + (value s - min_value s + Z.of_nat i) mod n in
  let s' := run (repeat Timer k) s in
  value s' = frame k /\
  (2 <= n -> func_calls s' = func_calls s ++ map frame (seq 1 k)).
Proof.
  cbv zeta. revert s. induction k as [|k IH]; intros s L R V.
  - simpl. rewrite app_nil_r, Z.add_0_r, Z.mod_small by lia. split; [lia|auto].
  - pose proof (tick_loop s L R V) as T.
    destruct (set_frame_keeps (value s + 1) s) as (Kmin & Kmax & Kloop).
    pose proof (set_frame_calls (value s + 1) s) as C.
    fold (_handle_timer s) in Kmin, Kmax, Kloop, C.
    set (s1 := _handle_timer s) in *.
    assert (V1 : min_value s1 <= value s1 <= max_value s1 - 1).
    { rewrite T, Kmin, Kmax.
      destruct (Z.ltb_spec (value s + 1) (max_value s)); lia. }
    destruct (IH s1 ltac:(congruence) ltac:(lia) V1) as [IV IC].
    change (run (repeat Timer (S k)) s) with (run (repeat Timer k) s1).
    rewrite Kmin, Kmax in IV, IC.
    assert (E : forall i,
               min_value s + (value s1 - min_value s + Z.of_nat i)
                             mod (max_value s - min_value s)
               = min_value s + (value s - min_value s + Z.of_nat (S i))
                               mod (max_value s - min_value s)).
    { intros i. rewrite T.
      replace (max_value s) with (min_value s + (max_value s - min_value s))
        at 1 by lia.
      rewrite step_mod by lia. f_equal. f_equal. lia. }
    split.
    + rewrite IV. apply E.
    + intros N. rewrite (IC N), C.
      assert (D : value s1 <> value s).
      { rewrite T. destruct (Z.ltb_spec (value s + 1) (max_value s)); lia. }
      apply Z.eqb_neq in D. rewrite D.
      rewrite <- app_assoc. f_equal. simpl. f_equal.
      * transitivity (min_value s + (value s1 - min_value s + Z.of_nat 0)
                                      mod (max_value s - min_value s));
          [|exact (E O)].
        simpl Z.of_nat. rewrite Z.add_0_r, Z.mod_small; lia.
      * rewrite <- (seq_shift k 1), map_map. apply map_ext. intros i. apply E.
Qed.


(** One tick of the timer in non-looping mode. *)
Lemma tick_once (s : player) :
  loop s = false -> min_value s < max_value s ->
  min_value s - 1 <= value s <= max_value s - 1 ->
  value (_handle_timer s) = Z.min (value s + 1) (max_value s - 1) /\
  func_calls (_handle_timer s) =
    func_calls s ++ (if value s <? max_value s - 1 then [value s + 1] else []) /\
  (max_value s - 1 <= value s + 1 -> paused (_handle_timer s)).
Proof.
  intros L R V.
  assert (E : value (_handle_timer s) = Z.min (value s + 1) (max_value s - 1)).
  { unfold _handle_timer. rewrite set_frame_stores.
    unfold resolve_frame. rewrite L.
    destruct (Z.ltb_spec (value s + 1) (min_value s)); [lia|].
    destruct (Z.geb_spec (value s + 1) (max_value s - 1)); simpl; lia. }
  split; [exact E|]. split.
  - pose proof (set_frame_calls (value s + 1) s) as C.
    fold (_handle_timer s) in C. rewrite C, E.
    destruct (Z.ltb_spec (value s) (max_value s - 1));
      destruct (Z.eqb_spec (Z.min (value s + 1) (max_value s - 1)) (value s));
      try lia.
    + f_equal. f_equal. lia.
    + rewrite app_nil_r. reflexivity.
  - intros H. apply set_frame_pauses; auto.
Qed.

(** Without looping the timer plays the frames once through: [k] ticks
    after the frame [v] the frame is [min(v + k, max - 1)], the update
    function has been called once with each frame passed, in order, and the
    player is paused as soon as the last frame is reached. *)
Theorem ticks_play_once_through (s : player) (k : nat) :
  loop s = false -> min_value s < max_value s ->
  min_value s - 1 <= value s <= max_value s - 1 ->
  let s' := run (repeat Timer k) s in
  value s' = Z.min (value s + Z.of_nat k) (max_value s - 1) /\
  func_calls s' =
    func_calls s ++
    map (fun i => value s + Z.of_nat i)
        (seq 1 (Z.to_nat (Z.min (Z.of_nat k) (max_value s - 1 - value s)))) /\
  ((1 <= k)%nat -> max_value s - 1 <= value s + Z.of_nat k -> paused s').
Proof.
  cbv zeta. revert s. induction k as [|k IH]; intros s L R V.
  - simpl run. simpl Z.of_nat. rewrite Z.add_0_r, Z.min_l by lia.
    replace (Z.to_nat (Z.min 0 (max_value s - 1 - value s))) with O by lia.
    simpl. rewrite app_nil_r.
    split; [reflexivity|]. split; [reflexivity|]. intros H; lia.
  - destruct (tick_once s L R V) as (T & C & P).
    destruct (set_frame_keeps (value s + 1) s) as (Kmin & Kmax & Kloop).
    fold (_handle_timer s) in Kmin, Kmax, Kloop.
    set (s1 := _handle_timer s) in *.
    destruct (IH s1 ltac:(congruence) ltac:(lia) ltac:(lia)) as (IV & IC & IP).
    change (run (repeat Timer (S k)) s) with (run (repeat Timer k) s1).
    rewrite Kmax in IV, IC, IP.
    split; [rewrite IV, T; lia|]. split.
    + rewrite IC, C, <- app_assoc. f_equal.
      destruct (Z.ltb_spec (value s) (max_value s - 1)).
      * rewrite T, Z.min_l by lia.
        replace (Z.to_nat (Z.min (Z.of_nat (S k)) (max_value s - 1 - value s)))
          with (S (Z.to_nat (Z.min (Z.of_nat k)
                     (max_value s - 1 - (value s + 1))))) by lia.
        simpl. f_equal.
        rewrite <- (seq_shift _ 1), map_map. apply map_ext. intros i. lia.
      * replace (Z.to_nat (Z.min (Z.of_nat (S k)) (max_value s - 1 - value s)))
          with O by lia.
        replace (Z.to_nat (Z.min (Z.of_nat k) (max_value s - 1 - value s1)))
          with O by lia.
        reflexivity.
    + intros _ H. destruct k as [|k].
      * simpl. apply P. lia.
      * apply IP; lia.
Qed.

Lemma set_frame_loop_value (v : Z) (s : player) :
  loop s = true ->
  value (set_frame v s) =
    (if v <? min_value s then max_value s - 1
     else if v >=? max_value s then min_value s else v).
Proof.
  intros L. rewrite set_frame_stores. unfold resolve_frame. rewrite L.
  destruct (v <? min_value s); [reflexivity|].
  destruct (v >=? max_value s); reflexivity.
Qed.

(** In looping mode the two step buttons undo each other on every frame of
    the range, the first and the last included. *)
Theorem step_buttons_round_trip (s : player) :
  loop s = true -> min_value s < max_value s ->
  min_value s <= value s <= max_value s - 1 ->
  value (onebackward true (oneforward true s)) = value s /\
  value (oneforward true (onebackward true s)) = value s.
Proof.
  intros L R V.
  destruct (pause_frame s) as (Pv & Pmin & Pmax & Pl & _).
  assert (G : forall v,
             value (pause (set_frame v (pause s))) = value (set_frame v (pause s)) /\
             min_value (pause (set_frame v (pause s))) = min_value s /\
             max_value (pause (set_frame v (pause s))) = max_value s /\
             loop (pause (set_frame v (pause s))) = true).
  { intros v.
    destruct (pause_frame (set_frame v (pause s))) as (A & B & C & D & _).
    destruct (set_frame_keeps v (pause s)) as (E & F & H).
    repeat split; congruence. }
  unfold onebackward, oneforward; cbv zeta. split.
  - destruct (G (value (pause s) + 1)) as (A & B & C & D).
    rewrite set_frame_loop_value by exact D. rewrite A, B, C.
    rewrite set_frame_loop_value by congruence. rewrite Pv, Pmin, Pmax.
    destruct (Z.ltb_spec (value s + 1) (min_value s)); [lia|].
    destruct (Z.geb_spec (value s + 1) (max_value s)).
    + destruct (Z.ltb_spec (min_value s - 1) (min_value s)); lia.
    + destruct (Z.ltb_spec (value s + 1 - 1) (min_value s)); [lia|].
      destruct (Z.geb_spec (value s + 1 - 1) (max_value s)); lia.
  - destruct (G (value (pause s) - 1)) as (A & B & C & D).
    rewrite set_frame_loop_value by exact D. rewrite A, B, C.
    rewrite set_frame_loop_value by congruence. rewrite Pv, Pmin, Pmax.
    destruct (Z.ltb_spec (value s - 1) (min_value s)).
    + destruct (Z.ltb_spec (max_value s - 1 + 1) (min_value s)); [lia|].
      destruct (Z.geb_spec (max_value s - 1 + 1) (max_value s)); lia.
    + destruct (Z.geb_spec (value s - 1) (max_value s)); [lia|].
      destruct (Z.ltb_spec (value s - 1 + 1) (min_value s)); [lia|].
      destruct (Z.geb_spec (value s - 1 + 1) (max_value s)); lia.
Qed.


Lemma ticks_loop_round_witness :
  let s := _handle_timer (init (0, 5) 1%Q true) in
  loop s = true /\ min_value s < max_value s /\
  value (run (repeat Timer 7) s) = 2.
Proof.
  cbv zeta.
  assert (L : loop (_handle_timer (init (0, 5) 1%Q true)) = true)
    by reflexivity.
  assert (R : min_value (_handle_timer (init (0, 5) 1%Q true))
              < max_value (_handle_timer (init (0, 5) 1%Q true)))
    by reflexivity.
  split; [exact L|]. split; [exact R|].
  pose proof (ticks_loop_round (_handle_timer (init (0, 5) 1%Q true)) 7 L R
                ltac:(split; discriminate)) as H.
  cbv zeta in H. destruct H as [H _]. rewrite H. reflexivity.
Defined.

Lemma ticks_play_once_through_witness :
  let s := init (0, 5) 1%Q false in
  loop s = false /\ min_value s < max_value s /\
  value (run (repeat Timer 7) s) = 4 /\
  paused (run (repeat Timer 7) s).
Proof.
  cbv zeta.
  assert (L : loop (init (0, 5) 1%Q false) = false) by reflexivity.
  assert (R : min_value (init (0, 5) 1%Q false)
              < max_value (init (0, 5) 1%Q false)) by reflexivity.
  split; [exact L|]. split; [exact R|].
  pose proof (ticks_play_once_through (init (0, 5) 1%Q false) 7 L R
                ltac:(split; discriminate)) as H.
  cbv zeta in H. destruct H as (V & _ & P).
  split; [rewrite V; reflexivity|].
  apply P; [lia | simpl; lia].
Defined.

Lemma step_buttons_round_trip_witness :
  let s := _handle_timer (init (0, 5) 1%Q true) in
  loop s = true /\
  value (onebackward true (oneforward true s)) = value s.
Proof.
  cbv zeta.
  assert (L : loop (_handle_timer (init (0, 5) 1%Q true)) = true)
    by reflexivity.
  split; [exact L|].
  exact (proj1 (step_buttons_round_trip
                  (_handle_timer (init (0, 5) 1%Q true)) L
                  ltac:(reflexivity) ltac:(split; discriminate))).
Defined.

End AnimationPlayerRunFacts.

(* ================================================================= *)
(** ** The font registry *)

Module FontsFacts.
Import Fonts.
Local Open Scope string_scope.

Lemma ltb_false_le (x y : string) : String.ltb x y = false -> le y x.
Proof.
  unfold le, String.ltb, String.leb. rewrite (String.compare_antisym x y).
  destruct (String.compare y x); simpl; congruence.
Qed.

Lemma ltb_true_le (x y : string) : String.ltb x y = true -> le x y.
Proof.
  unfold le, String.ltb, String.leb.
  destruct (String.compare x y); simpl; congruence.
Qed.

Lemma insert_perm (x : string) (l : list string) :
  Permutation (insert x l) (x :: l).
Proof.
  induction l as [|y l IH]; simpl; auto.
  destruct (String.ltb x y); auto.
  rewrite IH. apply perm_swap.
Qed.

Lemma insert_sorted (x : string) (l : list string) :
  Sorted le l -> Sorted le (insert x l).
Proof.
  induction l as [|y l IH]; intros S; simpl; [repeat constructor|].
  destruct (String.ltb x y) eqn:E.
  - constructor; auto. constructor. apply ltb_true_le; auto.
  - inversion S as [|? ? S' H]; subst.
    constructor; [apply IH; assumption|].
    destruct l as [|z l]; simpl.
    + constructor. apply ltb_false_le; auto.
    + destruct (String.ltb x z); constructor.
      * apply ltb_false_le; auto.
      * inversion H; assumption.
Qed.

Lemma sorted_perm (l : list string) : Permutation (sorted l) l.
Proof.
  unfold sorted.
  assert (G : forall acc, Permutation (fold_left (fun a x => insert x a) l acc)
                            (acc ++ l)).
  { induction l as [|x l IH]; intros acc; simpl.
    - rewrite app_nil_r. auto.
    - rewrite IH, insert_perm. apply Permutation_middle. }
  apply (G []).
Qed.

Lemma sorted_sorted (l : list string) : Sorted le (sorted l).
Proof.
  unfold sorted.
  assert (G : forall acc, Sorted le acc ->
                Sorted le (fold_left (fun a x => insert x a) l acc)).
  { induction l as [|x l IH]; intros acc S; simpl; auto.
    apply IH, insert_sorted, S. }
  apply G. constructor.
Qed.

Lemma before_first_no_sep (c : ascii) (s : string) :
  PyStr.contains (String c "") (PyStr.before_first c s) = false.
Proof.
  induction s as [|a s IH]; simpl; [reflexivity|].
  destruct (Ascii.eqb_spec a c) as [E|N]; simpl; [reflexivity|].
  rewrite IH. destruct (ascii_dec c a); [congruence|reflexivity].
Qed.

(** The font registry is in ascending order, holds one name for each entry
    of the directory whose name does not contain [.npz] (two files of one
    name give two entries), and no name in it contains a dot. *)
Theorem fonts_sorted_registry (listing : list string) :
  Sorted (fun a b => String.leb a b = true) (fonts listing) /\
  Permutation (fonts listing)
    (map (PyStr.before_first ".")
         (filter (fun f => negb (PyStr.contains ".npz" f)) listing)) /\
  Forall (fun name => PyStr.contains "." name = false) (fonts listing).
Proof.
  split; [apply sorted_sorted|]. split; [apply sorted_perm|].
  apply Forall_forall. intros name I.
  apply (Permutation_in _ (sorted_perm _)) in I.
  apply in_map_iff in I. destruct I as (f & <- & _).
  apply before_first_no_sep.
Qed.

End FontsFacts.

(* ================================================================= *)
(** ** Assembly *)

Module AssemblyFacts.
Import Assembly.
Local Open Scope Q_scope.

Lemma moved_parts_ok (B : base3d) (apos : vec) (xs : list obj) :
  Qeq_bool (np_sum apos) 0 = true \/ ~ In PyNone xs ->
  exists l,
    moved_parts B apos xs = Ok l /\ List.length l = List.length xs /\
    (Qeq_bool (np_sum apos) 0 = true -> l = xs).
Proof.
  intros H. induction xs as [|x xs IH]; simpl.
  - exists []. auto.
  - destruct IH as (l & E & Len & Same).
    { destruct H as [H|H]; [left; exact H|right].
      intros I. apply H. right. exact I. }
    rewrite E. destruct (Qeq_bool (np_sum apos) 0) eqn:Z; simpl.
    + exists (x :: l). simpl. rewrite Len, (Same eq_refl). auto.
    + destruct H as [H|H]; [discriminate|].
      destruct x; simpl;
        try (eexists; split; [reflexivity|]; simpl; rewrite Len;
             split; [reflexivity|discriminate]).
      exfalso. apply H. left. reflexivity.
Qed.

(** [recursive_unpack] opens exactly one level of nesting: a part that is
    not an Assembly is passed on, an Assembly among the parts is replaced
    by its own parts, whatever those are.  Parts of a nested Assembly whose
    coordinates sum to zero are passed on as they are, not shifted. *)
Theorem recursive_unpack_one_level (B : base3d) (self : obj) :
  (forall c, In c (unpack self) -> is_assembly c = true ->
     Qeq_bool (np_sum (position c)) 0 = true \/ ~ In PyNone (unpack c)) ->
  exists l,
    recursive_unpack B self = Ok l /\
    List.length l = list_sum (map yield_count (unpack self)) /\
    (forall c g, In c (unpack self) -> is_assembly c = true ->
       np_sum (position c) == 0 -> In g (unpack c) -> In g l).
Proof.
  unfold recursive_unpack. generalize (unpack self) as lst.
  induction lst as [|elem lst IH]; intros H; simpl.
  - exists []. split; [reflexivity|]. split; [reflexivity|]. intros c g [].
  - destruct IH as (zs & E & Len & Mem).
    { intros c I. apply H. right. exact I. }
    rewrite E. unfold yield_count at 1.
    destruct (is_assembly elem) eqn:A.
    + destruct (moved_parts_ok B (position elem) (unpack elem)
                  (H elem (or_introl eq_refl) A)) as (ys & M & Ly & Same).
      rewrite M. simpl. exists (ys ++ zs). split; [reflexivity|]. split.
      * rewrite length_app, Ly, Len. reflexivity.
      * intros c g [<-|I] Ac Z Ig; apply in_or_app.
        -- left. rewrite Same; [exact Ig|]. apply Qeq_bool_iff. exact Z.
        -- right. apply (Mem c g I Ac Z Ig).
    + simpl. exists (elem :: zs). split; [reflexivity|]. split.
      * simpl. rewrite Len. reflexivity.
      * intros c g [<-|I] Ac Z Ig; [congruence|].
        right. apply (Mem c g I Ac Z Ig).
Qed.

Lemma moved_parts_none (B : base3d) (apos : vec) (xs : list obj) :
  Qeq_bool (np_sum apos) 0 = false -> In PyNone xs ->
  moved_parts B apos xs = Raise AttributeError.
Proof.
  intros Z I. induction xs as [|x xs IH]; [destruct I|].
  simpl. rewrite Z. simpl. destruct I as [->|I]; [reflexivity|].
  rewrite (IH I). destruct x; reflexivity.
Qed.

Lemma moved_parts_raises (B : base3d) (apos : vec) (xs : list obj)
    (e : error) :
  moved_parts B apos xs = Raise e -> e = AttributeError.
Proof.
  revert e. induction xs as [|x xs IH]; intros e; simpl; [discriminate|].
  destruct (moved_parts B apos xs) as [ys|e'] eqn:E.
  - destruct (negb (Qeq_bool (np_sum apos) 0)); [destruct x|]; simpl;
      try discriminate. intros H; injection H as <-; reflexivity.
  - rewrite (IH e' eq_refl).
    destruct (negb (Qeq_bool (np_sum apos) 0)); [destruct x|]; simpl;
      intros H; injection H as <-; reflexivity.
Qed.

(** A nested Assembly that holds [None] among its actors (a clock without
    its second hand, say) and whose coordinates do not sum to zero makes
    [recursive_unpack] raise [AttributeError]. *)
Theorem recursive_unpack_none_raises (B : base3d) (self c : obj) :
  In c (unpack self) -> is_assembly c = true ->
  Qeq_bool (np_sum (position c)) 0 = false -> In PyNone (unpack c) ->
  recursive_unpack B self = Raise AttributeError.
Proof.
  intros I A Z N. revert I. unfold recursive_unpack.
  generalize (unpack self) as lst.
  induction lst as [|elem lst IH]; intros I; [destruct I|]. simpl.
  destruct I as [->|I].
  - rewrite A, (moved_parts_none B _ _ Z N). reflexivity.
  - rewrite (IH I). destruct (is_assembly elem); [|reflexivity].
    destruct (moved_parts B (position elem) (unpack elem)) as [ys|e] eqn:E;
      simpl; [reflexivity|].
    f_equal. apply (moved_parts_raises B _ _ e E).
Qed.

Lemma group_of_ones (l : list bar) : Group (map One l) = BarGroup l.
Proof.
  unfold Group. f_equal. induction l as [|b l IH]; simpl; [|rewrite IH];
    reflexivity.
Qed.

(** Building an Assembly at once and adding its last constituent with [+]
    give the same Assembly (actors, parts and scalar bar), as long as no
    constituent carries a group of scalar bars. *)
Theorem add_agrees_with_init (self : attrs) (meshs : list obj) (x : obj) :
  scalarbar self = None -> meshs <> [] ->
  Forall plain_bar meshs -> plain_bar x ->
  __add__ (__init__ self meshs) x = __init__ self (meshs ++ [x]).
Proof.
  intros S N P Px.
  unfold __init__, __add__. cbv zeta.
  cbn [scalarbar uid name pos anchors].
  rewrite filter_app, flat_map_app.
  change (filter is_prop3d [x])
    with (if is_prop3d x then [x] else []).
  change (flat_map (fun a => match bar_of a with Some b => [b] | None => [] end)
                   [x])
    with (match bar_of x with Some b => [b] | None => [] end ++ []).
  rewrite app_nil_r.
  assert (PB : Forall (fun b => match b with BarGroup _ => False
                                | ScalarBar _ => True end)
                 (flat_map (fun a => match bar_of a with
                                     | Some b => [b] | None => [] end) meshs)).
  { clear -P. induction P as [|o l Po Pl IH]; simpl; [constructor|].
    apply Forall_app. split; [|exact IH].
    unfold plain_bar in Po. destruct (bar_of o) as [[?|?]|];
      repeat constructor. destruct Po. }
  revert PB.
  generalize (flat_map (fun a => match bar_of a with
                                 | Some b => [b] | None => [] end) meshs)
    as bars.
  intros bars PB.
  destruct meshs as [|m rest]; [congruence|].
  change ((m :: rest) ++ [x]) with (m :: rest ++ [x]).
  cbv iota.
  change (m :: rest ++ [x]) with ((m :: rest) ++ [x]).
  f_equal; [|destruct (is_prop3d x); [reflexivity|rewrite app_nil_r; reflexivity]].
  f_equal. unfold plain_bar in Px.
  destruct (bar_of x) as [[u|g]|]; [| destruct Px |].
  - destruct bars as [|b1 [|b2 r]].
    + simpl. rewrite S. reflexivity.
    + inversion PB as [|? ? Hb _]; subst. destruct b1; [reflexivity|destruct Hb].
    + change ((b1 :: b2 :: r) ++ [ScalarBar u])
        with (b1 :: b2 :: (r ++ [ScalarBar u])).
      cbv iota. rewrite !group_of_ones. reflexivity.
  - rewrite app_nil_r. destruct bars as [|b1 [|b2 r]]; reflexivity.
Qed.

Lemma recursive_unpack_one_level_witness :
  let B := {| clone := fun o => o; shift := fun _ o => o |} in
  let leaf := Actor3D (mkAttrs 3 "leaf" (0, 0, 0) None None) in
  let inner := Asm (mkAttrs 2 "inner" (0, 0, 0) None None) [leaf] [leaf] in
  let mid := Asm (mkAttrs 1 "mid" (1, -1, 0) None None) [inner] [inner] in
  let top := Asm (mkAttrs 0 "top" (0, 0, 0) None None) [mid] [mid] in
  exists l, recursive_unpack B top = Ok l /\ In inner l.
Proof.
  cbv zeta.
  set (B := {| clone := fun o => o; shift := fun _ o => o |}).
  set (leaf := Actor3D (mkAttrs 3 "leaf" (0, 0, 0) None None)).
  set (inner := Asm (mkAttrs 2 "inner" (0, 0, 0) None None) [leaf] [leaf]).
  set (mid := Asm (mkAttrs 1 "mid" (1, -1, 0) None None) [inner] [inner]).
  set (top := Asm (mkAttrs 0 "top" (0, 0, 0) None None) [mid] [mid]).
  destruct (recursive_unpack_one_level B top) as (l & E & _ & M).
  { intros c [<-|[]] _. left. reflexivity. }
  exists l. split; [exact E|].
  apply (M mid inner); [left; reflexivity | reflexivity | reflexivity
                        | left; reflexivity].
Defined.

Lemma recursive_unpack_none_raises_witness :
  let B := {| clone := fun o => o; shift := fun _ o => o |} in
  let hand := Actor3D (mkAttrs 2 "hand" (0, 0, 0) None None) in
  let clock := Asm (mkAttrs 1 "Clock" (1, 0, 0) None None)
                   [hand; PyNone] [hand] in
  let top := Asm (mkAttrs 0 "top" (0, 0, 0) None None) [clock] [clock] in
  is_assembly clock = true /\
  recursive_unpack B top = Raise AttributeError.
Proof.
  cbv zeta. split; [reflexivity|].
  eapply recursive_unpack_none_raises;
    [left; reflexivity | reflexivity | reflexivity | right; left; reflexivity].
Defined.

Lemma add_agrees_with_init_witness :
  let self := mkAttrs 0 "" (0, 0, 0) None None in
  let a := Actor3D (mkAttrs 1 "a" (0, 0, 0) None (Some (ScalarBar 10))) in
  let b := Actor3D (mkAttrs 2 "b" (0, 0, 0) None (Some (ScalarBar 20))) in
  scalarbar self = None /\
  __add__ (__init__ self [a]) b = __init__ self [a; b].
Proof.
  cbv zeta. split; [reflexivity|].
  apply (add_agrees_with_init (mkAttrs 0 "" (0, 0, 0) None None)
           [Actor3D (mkAttrs 1 "a" (0, 0, 0) None (Some (ScalarBar 10)))]);
    [reflexivity | discriminate | repeat constructor | exact I].
Defined.

End AssemblyFacts.

(* ================================================================= *)
(** ** procrustes_alignment *)

Module ProcrustesFacts.
Import Procrustes.

Lemma add_inputs_all (first : source) (l : list source) :
  Forall (fun s => npoints s = npoints first) l ->
  add_inputs first l = (map (fun s => AddInputData (points s)) l, true).
Proof.
  induction 1 as [|s l E _ IH]; simpl; [reflexivity|].
  rewrite E, Nat.eqb_refl, IH. reflexivity.
Qed.

Lemma add_inputs_stops (first bad : source) (pre post : list source) :
  Forall (fun s => npoints s = npoints first) pre ->
  npoints bad <> npoints first ->
  add_inputs first (pre ++ bad :: post)
  = (map (fun s => AddInputData (points s)) pre, false).
Proof.
  intros P B. induction P as [|s l E _ IH]; simpl.
  - apply not_eq_sym, Nat.eqb_neq in B. rewrite B. reflexivity.
  - rewrite E, Nat.eqb_refl, IH. reflexivity.
Qed.

Lemma meshes_keep (F : filter) (rigid : bool) (blocks : list (list point))
    (l : list source) (k : nat) :
  let acts :=
    map (fun '(i, s) =>
           {| mesh_points := GetBlock F rigid blocks i;
              mesh_property := property s;
              mesh_name := name s |})
        (combine (seq k (List.length l)) l) in
  map mesh_name acts = map name l /\
  map mesh_property acts = map property l.
Proof.
  cbv zeta. revert k. induction l as [|s l IH]; intros k; simpl; [auto|].
  destruct (IH (S k)) as [A B]. rewrite A, B. auto.
Qed.

(** [procrustes_alignment] goes through exactly when all the sources have
    as many points as the first.  Then every source has been handed to the
    group filter, the alignment has been run once and the Assembly holds
    one mesh per source, in order, with the name and the property of its
    source.  Otherwise the error is logged and [RuntimeError] raised at
    the first source that differs: the sources before it have been handed
    over, the alignment has not been run. *)
Theorem procrustes_checks_point_counts (F : filter) (sources : list source)
    (rigid : bool) :
  let r := procrustes_alignment F sources rigid in
  let n0 := match sources with first :: _ => npoints first | [] => O end in
  (Forall (fun s => npoints s = n0) sources ->
     exists asm,
       result r = inr asm /\
       map mesh_name (actors asm) = map name sources /\
       map mesh_property (actors asm) = map property sources /\
       calls r = map (fun s => AddInputData (points s)) sources
                 ++ [Update rigid] /\
       errors r = []) /\
  (forall pre bad post,
     sources = pre ++ bad :: post ->
     Forall (fun s => npoints s = n0) pre -> npoints bad <> n0 ->
     result r = inl Py.RuntimeError /\
     calls r = map (fun s => AddInputData (points s)) pre /\
     ~ In (Update rigid) (calls r) /\
     errors r = ["sources have different nr of points"%string]).
Proof.
  cbv zeta. split.
  - intros A. unfold procrustes_alignment.
    assert (E : match sources with
                | [] => ([], true)
                | first :: _ => add_inputs first sources
                end = (map (fun s => AddInputData (points s)) sources, true)).
    { destruct sources as [|first l]; [reflexivity|].
      apply add_inputs_all. exact A. }
    rewrite E. eexists. split; [reflexivity|]. simpl.
    destruct (meshes_keep F rigid (map points sources) sources O) as [N P].
    repeat split; assumption.
  - intros pre bad post -> P B. unfold procrustes_alignment.
    assert (E : match pre ++ bad :: post with
                | [] => ([], true)
                | first :: _ => add_inputs first (pre ++ bad :: post)
                end = (map (fun s => AddInputData (points s)) pre, false)).
    { destruct pre as [|first l].
      - simpl in *. congruence.
      - simpl app in *. cbv iota. apply (add_inputs_stops first bad (first :: l));
          assumption. }
    rewrite E. simpl. repeat split.
    intros I. apply in_map_iff in I. destruct I as (s & D & _). discriminate.
Qed.

End ProcrustesFacts.

(* ================================================================= *)
(** ** Browser *)

Module BrowserFacts.
Import Browser.

Lemma switch_other (on : bool) (a : item) (vis : nat -> bool) (u : nat) :
  id a <> u -> switch on a vis u = vis u.
Proof.
  intros N. unfold switch. destruct (Nat.eqb_spec u (id a)); congruence.
Qed.

Lemma switch_same (on : bool) (a : item) (vis : nat -> bool) :
  switch on a vis (id a) = on.
Proof. unfold switch. rewrite Nat.eqb_refl. reflexivity. Qed.

(** The loop over one series that is long enough: what it leaves of the
    objects' states and of the locals. *)
Lemma toggle_series_spec (k : Z) (series : list entry) (count j : nat)
    (vis : nat -> bool) (loc : locals) :
  (j + count = List.length series)%nat ->
  exists vis' loc',
    toggle_series k series j count vis loc = (vis', loc', true) /\
    (forall u,
       (forall j' a, (j <= j')%nat -> nth_error series j' = Some (Some a) ->
                     id a <> u) ->
       vis' u = vis u) /\
    (forall j' a,
       (j <= j')%nat -> nth_error series j' = Some (Some a) ->
       (forall j'' a', (j' < j'')%nat ->
          nth_error series j'' = Some (Some a') -> id a' <> id a) ->
       vis' (id a) = (Z.of_nat j' =? k)%Z) /\
    ((k < Z.of_nat j)%Z -> akon loc' = akon loc) /\
    (forall a, (Z.of_nat j <= k)%Z ->
       nth_error series (Z.to_nat k) = Some (Some a) ->
       akon loc' = Some a) /\
    (forall e, (0 < count)%nat ->
       nth_error series (pred (List.length series)) = Some e ->
       ak loc' = Some e).
Proof.
  revert j vis loc. induction count as [|count IH]; intros j vis loc L.
  - exists vis, loc. split; [reflexivity|]. split; [auto|]. split; [|split; [auto|split]].
    + intros j' a J N _. exfalso.
      assert (j' < List.length series)%nat
        by (apply nth_error_Some; rewrite N; discriminate).
      lia.
    + intros a J N. exfalso.
      assert (Z.to_nat k < List.length series)%nat
        by (apply nth_error_Some; rewrite N; discriminate).
      lia.
    + intros e C. lia.
  - cbn [toggle_series].
    destruct (nth_error series j) as [e|] eqn:N.
    2:{ apply nth_error_None in N. lia. }
    assert (Step : forall vis1 loc1,
               (forall u, (forall a, e = Some a -> id a <> u) ->
                          vis1 u = vis u) ->
               (forall a, e = Some a -> vis1 (id a) = (Z.of_nat j =? k)%Z) ->
               ((k < Z.of_nat j)%Z -> akon loc1 = akon loc) ->
               (forall a, Z.of_nat j = k -> e = Some a ->
                          akon loc1 = Some a) ->
               ak loc1 = Some e ->
               exists vis' loc',
                 toggle_series k series (S j) count vis1 loc1
                 = (vis', loc', true) /\
                 (forall u,
                    (forall j' a, (j <= j')%nat ->
                       nth_error series j' = Some (Some a) -> id a <> u) ->
                    vis' u = vis u) /\
                 (forall j' a,
                    (j <= j')%nat -> nth_error series j' = Some (Some a) ->
                    (forall j'' a', (j' < j'')%nat ->
                       nth_error series j'' = Some (Some a') ->
                       id a' <> id a) ->
                    vis' (id a) = (Z.of_nat j' =? k)%Z) /\
                 ((k < Z.of_nat j)%Z -> akon loc' = akon loc) /\
                 (forall a, (Z.of_nat j <= k)%Z ->
                    nth_error series (Z.to_nat k) = Some (Some a) ->
                    akon loc' = Some a) /\
                 (forall e0, (0 < S count)%nat ->
                    nth_error series (pred (List.length series)) = Some e0 ->
                    ak loc' = Some e0)).
    { intros vis1 loc1 V1 V2 A1 A2 K1.
      destruct (IH (S j) vis1 loc1 ltac:(lia))
        as (vis' & loc' & E & F1 & F2 & G1 & G2 & G3).
      exists vis', loc'. split; [exact E|].
      split; [|split; [|split; [|split]]].
      - intros u H. rewrite F1.
        + apply V1. intros a Ea. apply (H j a); [lia|]. rewrite N, Ea.
          reflexivity.
        + intros j' a J. apply H. lia.
      - intros j' a J Nj Last.
        destruct (Nat.eq_dec j' j) as [->|Ne].
        + rewrite F1.
          * apply V2. rewrite N in Nj. injection Nj as ->. reflexivity.
          * intros j'' a' J'. apply Last. lia.
        + apply F2; [lia|exact Nj|exact Last].
      - intros Lt. rewrite G1 by lia. apply A1. exact Lt.
      - intros a Le Nk.
        destruct (Z.eq_dec (Z.of_nat j) k) as [Eq|Ne].
        + rewrite G1 by lia. apply A2; [exact Eq|].
          rewrite <- Eq, Nat2Z.id, N in Nk. injection Nk as ->. reflexivity.
        + apply G2; [lia|exact Nk].
      - intros e0 _ Ne. destruct count as [|c].
        + assert (loc' = loc1) as -> by (simpl in E; congruence).
          rewrite K1. replace (pred (List.length series)) with j in Ne by lia.
          congruence.
        + apply G3; [lia|exact Ne]. }
    destruct e as [a|].
    + apply Step; cbn [akon ak].
      * intros u H. apply switch_other. apply H. reflexivity.
      * intros a0 Ea. injection Ea as <-. apply switch_same.
      * intros Lt. destruct (Z.eqb_spec (Z.of_nat j) k); [lia|reflexivity].
      * intros a0 Eq Ea. injection Ea as <-.
        apply Z.eqb_eq in Eq. rewrite Eq. reflexivity.
      * reflexivity.
    + apply Step; cbn [akon ak]; try reflexivity; try discriminate.
Qed.

(** The loop over series that are all long enough. *)
Lemma toggle_all_spec (k : Z) (m : nat) (rows : list (list entry))
    (vis : nat -> bool) (loc : locals) :
  Forall (fun series => List.length series = m) rows ->
  exists vis' loc',
    toggle_all k m rows vis loc = (vis', loc', true) /\
    (forall u,
       (forall i j series a, nth_error rows i = Some series ->
          nth_error series j = Some (Some a) -> id a <> u) ->
       vis' u = vis u) /\
    (forall i j series a,
       nth_error rows i = Some series ->
       nth_error series j = Some (Some a) ->
       (forall i' j' series' a', later i j i' j' ->
          nth_error rows i' = Some series' ->
          nth_error series' j' = Some (Some a') -> id a' <> id a) ->
       vis' (id a) = (Z.of_nat j =? k)%Z).
Proof.
  intros R. revert vis loc.
  induction R as [|series rows L _ IH]; intros vis loc.
  - exists vis, loc. split; [reflexivity|]. split; [auto|].
    intros [|i] j series a N; discriminate.
  - cbn [toggle_all].
    destruct (toggle_series_spec k series m O vis loc ltac:(lia))
      as (vis1 & loc1 & E & F1 & F2 & _).
    rewrite E.
    destruct (IH vis1 loc1) as (vis' & loc' & E' & G1 & G2).
    exists vis', loc'. split; [exact E'|]. split.
    + intros u H. rewrite G1.
      * apply F1. intros j a _ N. apply (H O j series a); [reflexivity|exact N].
      * intros i j s a Ni. apply (H (S i) j s a). exact Ni.
    + intros [|i] j s a Ni Nj Last.
      * cbn in Ni. injection Ni as <-. rewrite G1.
        -- apply F2; [lia|exact Nj|].
           intros j'' a' J N'. apply (Last O j'' series a');
             [right; split; [reflexivity|exact J]|reflexivity|exact N'].
        -- intros i' j' s' a' Ni'. apply (Last (S i') j' s' a').
           ++ left. lia.
           ++ exact Ni'.
      * cbn in Ni. apply (G2 i j s a Ni Nj).
        intros i' j' s' a' La Ni'. apply (Last (S i') j' s' a').
        -- destruct La as [La|[La Lb]]; [left; lia|right; split; [lia|exact Lb]].
        -- exact Ni'.
Qed.

Lemma guard_passes (value : Q) (b : browser) :
  _oldk b <> Some (Py.int value) ->
  match _oldk b with
  | Some old => (Py.int value =? old)%Z
  | None => false
  end = false.
Proof.
  intros N. destruct (_oldk b) as [old|]; [|reflexivity].
  apply Z.eqb_neq. congruence.
Qed.

(** When all the series are as long as the first, a move of the slider to
    a new index [k] returns normally and renders one frame.  The series
    are as they were.  Every object listed ends switched on or off as its
    last listing on the way of the loops has it: on when that listing is
    at index [k] of its series, off otherwise; so, when no object is
    listed twice, the object at index [k] of every series is on and every
    other object listed is off.  The objects not listed are left as they
    were. *)
Theorem slider_shows_one_per_series (value : Q) (b : browser)
    (first : list entry) (rest : list (list entry)) :
  objects b = first :: rest ->
  Forall (fun series => List.length series = List.length first) rest ->
  _oldk b <> Some (Py.int value) ->
  exists b',
    slider_function value b = inr b' /\
    _oldk b' = Some (Py.int value) /\
    renders b' = S (renders b) /\
    objects b' = objects b /\
    (forall i j series a,
       nth_error (objects b) i = Some series ->
       nth_error series j = Some (Some a) ->
       (forall i' j' series' a', later i j i' j' ->
          nth_error (objects b) i' = Some series' ->
          nth_error series' j' = Some (Some a') -> id a' <> id a) ->
       visible b' (id a) = (Z.of_nat j =? Py.int value)%Z) /\
    (forall u,
       (forall i j series a, nth_error (objects b) i = Some series ->
          nth_error series j = Some (Some a) -> id a <> u) ->
       visible b' u = visible b u).
Proof.
  intros Ob R N. unfold slider_function.
  rewrite (guard_passes value b N), Ob.
  destruct (toggle_all_spec (Py.int value) (List.length first)
              (first :: rest) (visible b) {| akon := None; ak := None |})
    as (vis & loc & E & F1 & F2); [constructor; auto|].
  rewrite E. eexists. split; [reflexivity|].
  cbn [_oldk renders objects visible].
  split; [reflexivity|]. split; [reflexivity|]. split; [reflexivity|].
  split; [exact F2|exact F1].
Qed.

(** The guard: once the slider has been served for a value, serving it
    again for any value with the same integer part changes nothing, not
    even the count of rendered frames. *)
Theorem slider_same_index_is_idle (value value' : Q) (b b' : browser) :
  slider_function value b = inr b' ->
  Py.int value' = Py.int value ->
  slider_function value' b' = inr b'.
Proof.
  intros H E.
  assert (K : _oldk b' = Some (Py.int value)).
  { revert H. unfold slider_function.
    destruct (_oldk b) as [old|] eqn:Old.
    - destruct (Z.eqb_spec (Py.int value) old) as [->|_].
      + intros H; injection H as <-. exact Old.
      + destruct (objects b); [discriminate|].
        destruct (toggle_all _ _ _ _ _) as [[vis loc] [|]]; [|discriminate].
        intros H; injection H as <-. reflexivity.
    - destruct (objects b); [discriminate|].
      destruct (toggle_all _ _ _ _ _) as [[vis loc] [|]]; [|discriminate].
      intros H; injection H as <-. reflexivity. }
  unfold slider_function. rewrite K, E, Z.eqb_refl. reflexivity.
Qed.

Lemma toggle_series_short (k : Z) (series : list entry) (count j : nat)
    (vis : nat -> bool) (loc : locals) :
  (j <= List.length series)%nat -> (List.length series < j + count)%nat ->
  exists vis' loc',
    toggle_series k series j count vis loc = (vis', loc', false).
Proof.
  revert j vis loc. induction count as [|count IH]; intros j vis loc J L;
    [lia|].
  cbn [toggle_series].
  destruct (nth_error series j) as [e|] eqn:N; [|eauto].
  assert (j < List.length series)%nat
    by (apply nth_error_Some; rewrite N; discriminate).
  destruct e as [a|]; apply IH; lia.
Qed.

Lemma toggle_all_short (k : Z) (m : nat) (rows : list (list entry))
    (series : list entry) (vis : nat -> bool) (loc : locals) :
  In series rows -> (List.length series < m)%nat ->
  exists vis' loc', toggle_all k m rows vis loc = (vis', loc', false).
Proof.
  intros I L. revert vis loc.
  induction rows as [|row rows IH]; intros vis loc; [destruct I|].
  cbn [toggle_all].
  destruct (toggle_series k row 0 m vis loc) as [[vis1 loc1] ok] eqn:E.
  destruct ok; [|eauto].
  destruct I as [->|I].
  - destruct (toggle_series_short k series m O vis loc ltac:(lia) ltac:(lia))
      as (v' & l' & E').
    congruence.
  - apply IH. exact I.
Qed.

(** A series shorter than the first makes the slider raise [IndexError]
    when it is moved to a new index; the index is remembered all the same,
    so that moving the slider to it again does nothing. *)
Theorem slider_short_series_raises (value : Q) (b : browser)
    (first series : list entry) (rest : list (list entry)) :
  objects b = first :: rest -> In series rest ->
  (List.length series < List.length first)%nat ->
  _oldk b <> Some (Py.int value) ->
  exists b',
    slider_function value b = inl (Py.IndexError, b') /\
    _oldk b' = Some (Py.int value) /\
    renders b' = renders b /\ title b' = title b.
Proof.
  intros Ob I L N. unfold slider_function.
  rewrite (guard_passes value b N), Ob.
  destruct (toggle_all_short (Py.int value) (List.length first)
              (first :: rest) series (visible b)
              {| akon := None; ak := None |} (or_intror I) L)
    as (vis' & loc' & E).
  rewrite E. eexists. split; [reflexivity|]. auto.
Qed.

(** With no title given and several series, the text of the slider is the
    name of the object looked at last, the last object of the last series,
    followed by the index: the name of the object shown is only tested for
    being empty. *)
Theorem slider_title_names_last_object (value : Q) (b : browser)
    (rows : list (list entry)) (lastrow l1 : list entry) (a z : item) :
  objects b = (rows ++ [lastrow])%list -> rows <> [] ->
  Forall (fun series => List.length series = List.length lastrow) rows ->
  lastrow = (l1 ++ [Some z])%list ->
  (0 <= Py.int value)%Z ->
  nth_error lastrow (Z.to_nat (Py.int value)) = Some (Some a) ->
  name a <> EmptyString -> slider_title b = EmptyString ->
  _oldk b <> Some (Py.int value) ->
  exists b',
    slider_function value b = inr b' /\
    title b' = (name z ++ " " ++ str (Py.int value))%string.
Proof.
  intros Ob Ne R La K Na Nm St N. unfold slider_function.
  rewrite (guard_passes value b N).
  destruct rows as [|first rest]; [congruence|].
  assert (M : List.length first = List.length lastrow)
    by (inversion R; assumption).
  assert (Lz : nth_error lastrow (pred (List.length lastrow))
               = Some (Some z)).
  { rewrite La, length_app. cbn [List.length].
    replace (pred (List.length l1 + 1)) with (List.length l1) by lia.
    rewrite nth_error_app2, Nat.sub_diag by lia. reflexivity. }
  assert (Pos : (0 < List.length lastrow)%nat).
  { rewrite La, length_app. cbn [List.length]. lia. }
  assert (T : forall rs vis loc,
            Forall (fun series => List.length series = List.length lastrow) rs ->
            exists vis' loc',
              toggle_all (Py.int value) (List.length lastrow)
                         (rs ++ [lastrow]) vis loc = (vis', loc', true) /\
              akon loc' = Some a /\ ak loc' = Some (Some z)).
  { intros rs vis loc Rs. revert vis loc.
    induction Rs as [|r rs Lr _ IH]; intros vis loc.
    - cbn [app toggle_all].
      destruct (toggle_series_spec (Py.int value) lastrow
                  (List.length lastrow) O vis loc ltac:(lia))
        as (vis' & loc' & E & _ & _ & _ & Ak & Last).
      rewrite E. exists vis', loc'. split; [reflexivity|]. split.
      + apply Ak; [lia|exact Na].
      + apply Last; [exact Pos|exact Lz].
    - cbn [app toggle_all].
      destruct (toggle_series_spec (Py.int value) r
                  (List.length lastrow) O vis loc ltac:(lia))
        as (vis1 & loc1 & E & _).
      rewrite E. apply IH. }
  rewrite Ob. cbn [app]. rewrite M.
  destruct (T (first :: rest) (visible b) {| akon := None; ak := None |} R)
    as (vis' & loc' & E & Ao & Ak).
  cbn [app] in E. rewrite E.
  eexists. split; [reflexivity|]. cbn [title].
  unfold title_text. rewrite St. cbn [nonempty String.eqb negb].
  rewrite Ao, Ak.
  assert (L2 : Nat.eqb (List.length (first :: rest ++ [lastrow])) 1 = false).
  { simpl. rewrite length_app. simpl. destruct (List.length rest); reflexivity. }
  rewrite L2. cbn [andb].
  assert (Nn : nonempty (name a) = true).
  { unfold nonempty. destruct (String.eqb_spec (name a) EmptyString);
      [congruence|reflexivity]. }
  rewrite Nn. reflexivity.
Qed.

Lemma slider_shows_one_per_series_witness :
  let m1 := Some (mkItem 1 "" "m1") in
  let m2 := Some (mkItem 2 "" "m2") in
  let m3 := Some (mkItem 3 "" "m3") in
  let b := mkBrowser [[m1; m2; m1]; [m3; None; m2]] (fun _ => true)
                     None "" false "" 0 0 in
  exists b',
    slider_function 0 b = inr b' /\
    visible b' 1 = false /\ visible b' 2 = false /\ visible b' 3 = true /\
    visible b' 4 = true.
Proof.
  cbv zeta.
  destruct (slider_shows_one_per_series 0
              (mkBrowser [[Some (mkItem 1 "" "m1"); Some (mkItem 2 "" "m2");
                           Some (mkItem 1 "" "m1")];
                          [Some (mkItem 3 "" "m3"); None;
                           Some (mkItem 2 "" "m2")]]
                         (fun _ => true) None "" false "" 0 0)
              [Some (mkItem 1 "" "m1"); Some (mkItem 2 "" "m2");
               Some (mkItem 1 "" "m1")]
              [[Some (mkItem 3 "" "m3"); None; Some (mkItem 2 "" "m2")]])
    as (b' & E & _ & _ & _ & Last & Others).
  - reflexivity.
  - repeat constructor.
  - discriminate.
  - assert (Places : forall (P : nat -> nat -> item -> Prop),
              P 0 0 (mkItem 1 "" "m1") -> P 0 1 (mkItem 2 "" "m2") ->
              P 0 2 (mkItem 1 "" "m1") -> P 1 0 (mkItem 3 "" "m3") ->
              P 1 2 (mkItem 2 "" "m2") ->
              forall i j series a,
                nth_error [[Some (mkItem 1 "" "m1"); Some (mkItem 2 "" "m2");
                            Some (mkItem 1 "" "m1")];
                           [Some (mkItem 3 "" "m3"); None;
                            Some (mkItem 2 "" "m2")]] i = Some series ->
                nth_error series j = Some (Some a) -> P i j a).
    { intros P P00 P01 P02 P10 P12 i j series a Ni Nj.
      destruct i as [|[|[|i]]]; cbn in Ni; try discriminate;
        injection Ni as <-;
        destruct j as [|[|[|[|j]]]]; cbn in Nj; try discriminate;
        injection Nj as <-; assumption. }
    exists b'. split; [exact E|]. split; [|split; [|split]].
    + refine (Last 0 2 _ (mkItem 1 "" "m1") eq_refl eq_refl _).
      cbn [objects id].
      intros i' j' s' a' La Ni Nj.
      refine (Places (fun i j a0 => later 0 2 i j -> id a0 <> 1)
                _ _ _ _ _ i' j' s' a' Ni Nj La);
        unfold later; cbn [id]; intros; lia.
    + refine (Last 1 2 _ (mkItem 2 "" "m2") eq_refl eq_refl _).
      cbn [objects id].
      intros i' j' s' a' La Ni Nj.
      refine (Places (fun i j a0 => later 1 2 i j -> id a0 <> 2)
                _ _ _ _ _ i' j' s' a' Ni Nj La);
        unfold later; cbn [id]; intros; lia.
    + refine (Last 1 0 _ (mkItem 3 "" "m3") eq_refl eq_refl _).
      cbn [objects id].
      intros i' j' s' a' La Ni Nj.
      refine (Places (fun i j a0 => later 1 0 i j -> id a0 <> 3)
                _ _ _ _ _ i' j' s' a' Ni Nj La);
        unfold later; cbn [id]; intros; lia.
    + apply (Others 4). cbn [objects].
      apply (Places (fun _ _ a' => id a' <> 4)); cbn [id]; lia.
Defined.

Lemma slider_same_index_is_idle_witness :
  let a := Some (mkItem 1 "" "a") in
  let b := mkBrowser [[a; a]] (fun _ => true) (Some 1%Z) "" false "" 0 0 in
  slider_function (3 # 2) b = inr b /\
  slider_function (7 # 4) b = inr b.
Proof.
  cbv zeta. split; [reflexivity|].
  apply (slider_same_index_is_idle (3 # 2) (7 # 4)
           (mkBrowser [[Some (mkItem 1 "" "a"); Some (mkItem 1 "" "a")]]
                      (fun _ => true) (Some 1%Z) "" false "" 0 0));
    reflexivity.
Defined.

Lemma slider_short_series_raises_witness :
  let a := Some (mkItem 1 "" "a") in
  let b := mkBrowser [[a; a; a]; [a; a]] (fun _ => true) None "" false "t"
                     0 0 in
  exists b',
    slider_function 1 b = inl (Py.IndexError, b') /\ title b' = "t"%string.
Proof.
  cbv zeta.
  destruct (slider_short_series_raises 1
              (mkBrowser [[Some (mkItem 1 "" "a"); Some (mkItem 1 "" "a");
                           Some (mkItem 1 "" "a")];
                          [Some (mkItem 1 "" "a"); Some (mkItem 1 "" "a")]]
                         (fun _ => true) None "" false "t" 0 0)
              [Some (mkItem 1 "" "a"); Some (mkItem 1 "" "a");
               Some (mkItem 1 "" "a")]
              [Some (mkItem 1 "" "a"); Some (mkItem 1 "" "a")]
              [[Some (mkItem 1 "" "a"); Some (mkItem 1 "" "a")]])
    as (b' & E & _ & _ & T).
  - reflexivity.
  - left. reflexivity.
  - simpl. lia.
  - discriminate.
  - exists b'. split; [exact E|exact T].
Defined.

Lemma slider_title_names_last_object_witness :
  let b := mkBrowser [[Some (mkItem 1 "" "a0"); Some (mkItem 2 "" "a1")];
                      [Some (mkItem 3 "" "b0"); Some (mkItem 4 "" "b1")]]
                     (fun _ => false) None "" false "" 0 0 in
  exists b', slider_function 0 b = inr b' /\ title b' = "b1 0"%string.
Proof.
  cbv zeta.
  apply (slider_title_names_last_object 0
           (mkBrowser [[Some (mkItem 1 "" "a0"); Some (mkItem 2 "" "a1")];
                       [Some (mkItem 3 "" "b0"); Some (mkItem 4 "" "b1")]]
                      (fun _ => false) None "" false "" 0 0)
           [[Some (mkItem 1 "" "a0"); Some (mkItem 2 "" "a1")]]
           [Some (mkItem 3 "" "b0"); Some (mkItem 4 "" "b1")]
           [Some (mkItem 3 "" "b0")]
           (mkItem 3 "" "b0") (mkItem 4 "" "b1")).
  - reflexivity.
  - discriminate.
  - repeat constructor.
  - reflexivity.
  - vm_compute. discriminate.
  - reflexivity.
  - discriminate.
  - reflexivity.
  - discriminate.
Defined.

End BrowserFacts.

(* ================================================================= *)
(** ** SplinePlotter *)

Module SplinePlotterFacts.
Import SplinePlotter.

Lemma shows_clicked_owned (s : plotter) : shows_clicked s -> owned s.
Proof.
  intros [E|(vp & V & _ & _ & [[E _]|(ln & L & _ & _ & _ & E & _)])] x I;
    rewrite E in I; simpl in I.
  - contradiction.
  - destruct I as [<-|[]]. left; exact V.
  - destruct I as [<-|[<-|[]]]; [left; exact V|right; exact L].
Qed.

Lemma remove_owned (s : plotter) :
  owned s -> remove [line s; vpoints s] (scene s) = [].
Proof.
  intros O. unfold remove.
  assert (A : forall x, In x (scene s) ->
                negb (leaves [line s; vpoints s] x) = false).
  { intros x I. apply negb_false_iff. unfold leaves. simpl.
    destruct (O x I) as [-> | ->]; rewrite Nat.eqb_refl;
      [destruct (line s)|]; simpl; rewrite ?orb_true_r; reflexivity. }
  induction (scene s) as [|x l IH]; [reflexivity|].
  cbn [filter]. rewrite (A x (or_introl eq_refl)). apply IH.
  intros y I. apply A. right. exact I.
Qed.

Lemma owned_with_cpoints (l : list point) (s : plotter) :
  owned s -> owned (with_cpoints l s).
Proof. intros O. exact O. Qed.

Lemma update_shows_clicked (E : engine) (s : plotter) :
  owned s -> shows_clicked (_update E s).
Proof.
  intros O. unfold _update. rewrite (remove_owned s O). cbv zeta.
  assert (C : curve_from s = if splined s then 3%nat else 2%nat)
    by reflexivity.
  assert (Alone : forall s',
            vpoints s' = Some (mkShape (next_id s) PointsObj (cpoints s) false) ->
            cpoints s' = cpoints s -> scene s' = [mkShape (next_id s) PointsObj (cpoints s) false] ->
            lwidth s' = lwidth s -> curve_from s' = curve_from s ->
            lwidth s = 0%Z \/ (List.length (cpoints s) < curve_from s)%nat ->
            shows_clicked s').
  { intros s' V Cp Sc Lw Cf D. right. eexists. split; [exact V|].
    split; [reflexivity|]. split; [symmetry; exact Cp|]. left.
    split; [exact Sc|]. rewrite Lw, Cp, Cf. exact D. }
  assert (Both : forall s' k,
            vpoints s' = Some (mkShape (next_id s) PointsObj (cpoints s) false) ->
            line s' = Some (mkShape (S (next_id s)) k (cpoints s) (closed s)) ->
            cpoints s' = cpoints s ->
            scene s' = [mkShape (next_id s) PointsObj (cpoints s) false;
                        mkShape (S (next_id s)) k (cpoints s) (closed s)] ->
            lwidth s' = lwidth s -> curve_from s' = curve_from s ->
            closed s' = closed s ->
            k = (if splined s' then SplineObj else LineObj) ->
            lwidth s <> 0%Z -> (curve_from s <= List.length (cpoints s))%nat ->
            shows_clicked s').
  { intros s' k V Ln Cp Sc Lw Cf Cl K W G. right. eexists. split; [exact V|].
    split; [reflexivity|]. split; [symmetry; exact Cp|]. right.
    eexists. split; [exact Ln|]. split; [symmetry; exact Cp|].
    split; [symmetry; exact Cl|]. split; [exact K|]. split; [exact Sc|].
    rewrite Lw, Cp, Cf. split; assumption. }
  destruct (Z.eqb_spec (lwidth s) 0) as [W|W]; cbn [negb andb].
  - apply Alone; try reflexivity. left. exact W.
  - destruct (splined s) eqn:Sp.
    + destruct (Nat.ltb_spec 2 (List.length (cpoints s))) as [G|G].
      * destruct (spline_raises E (cpoints s) (closed s)).
        -- left. reflexivity.
        -- apply (Both _ SplineObj); try reflexivity; try assumption.
           ++ unfold curve_from. cbn. rewrite Sp. reflexivity.
           ++ rewrite C. lia.
      * apply Alone; try reflexivity.
        -- unfold curve_from. cbn. rewrite Sp. reflexivity.
        -- right. rewrite C. lia.
    + destruct (Nat.ltb_spec 1 (List.length (cpoints s))) as [G|G].
      * apply (Both _ LineObj); try reflexivity; try assumption.
        -- unfold curve_from. cbn. rewrite Sp. reflexivity.
        -- rewrite C. lia.
      * apply Alone; try reflexivity.
        -- unfold curve_from. cbn. rewrite Sp. reflexivity.
        -- right. rewrite C. lia.
Qed.

Lemma printc_shows_clicked (m : message) (s : plotter) :
  shows_clicked s -> shows_clicked (printc m s).
Proof. unfold printc. destruct (verbose s); intros H; exact H. Qed.

Lemma handle_shows_clicked (E : engine) (i : input) (s : plotter) :
  shows_clicked s -> shows_clicked (handle E i s).
Proof.
  intros H. pose proof (shows_clicked_owned s H) as O.
  destruct i as [evt|evt|evt|l]; cbn [handle].
  - unfold _on_left_click. destruct (actor evt) as [nm|]; [|exact H].
    destruct (String.eqb nm "points").
    + destruct (vpoints s) as [vp|] eqn:V; [|exact H].
      destruct (pop_at _ _) as [l|]; [|exact H].
      apply update_shows_clicked. exact O.
    + apply printc_shows_clicked, update_shows_clicked. exact O.
  - unfold _on_right_click. destruct (actor evt); [|exact H].
    destruct (0 <? _)%nat; [|exact H].
    apply printc_shows_clicked, update_shows_clicked. exact O.
  - unfold _key_press. destruct (String.eqb _ _); [|exact H].
    apply printc_shows_clicked. left. cbn. apply remove_owned. exact O.
  - apply update_shows_clicked. exact O.
Qed.

Lemma update_keeps_settings (E : engine) (s : plotter) :
  lwidth (_update E s) = lwidth s /\ splined (_update E s) = splined s /\
  closed (_update E s) = closed s.
Proof.
  unfold _update. cbv zeta.
  destruct (negb (lwidth s =? 0)%Z && _); [|repeat split].
  destruct (splined s) eqn:Sp; [|repeat split; cbn; auto].
  destruct (spline_raises E (cpoints s) (closed s)); repeat split; cbn; auto.
Qed.

Lemma handle_keeps_settings (E : engine) (i : input) (s : plotter) :
  lwidth (handle E i s) = lwidth s /\ splined (handle E i s) = splined s /\
  closed (handle E i s) = closed s.
Proof.
  assert (U : forall l, lwidth (_update E (with_cpoints l s)) = lwidth s /\
                        splined (_update E (with_cpoints l s)) = splined s /\
                        closed (_update E (with_cpoints l s)) = closed s).
  { intros l. apply (update_keeps_settings E (with_cpoints l s)). }
  assert (P : forall m s', lwidth (printc m s') = lwidth s' /\
                           splined (printc m s') = splined s' /\
                           closed (printc m s') = closed s').
  { intros m s'. unfold printc. destruct (verbose s'); repeat split. }
  destruct i as [evt|evt|evt|l]; cbn [handle].
  - unfold _on_left_click. destruct (actor evt) as [nm|]; [|repeat split].
    destruct (String.eqb nm "points").
    + destruct (vpoints s) as [vp|]; [|repeat split].
      destruct (pop_at _ _) as [l|]; [apply U|repeat split].
    + destruct (P (Added (picked3d evt))
                  (_update E (with_cpoints (cpoints s ++ [picked3d evt]) s)))
        as (A & B & C).
      rewrite A, B, C. apply U.
  - unfold _on_right_click. destruct (actor evt); [|repeat split].
    destruct (0 <? _)%nat; [|repeat split].
    destruct (P Deleted (_update E (with_cpoints (removelast (cpoints s)) s)))
      as (A & B & C).
    rewrite A, B, C. apply U.
  - unfold _key_press. destruct (String.eqb _ _); [|repeat split].
    match goal with |- context [printc Cleared ?s'] =>
      destruct (P Cleared s') as (A & B & C) end.
    rewrite A, B, C. repeat split.
  - apply U.
Qed.

(** What the plotter shows is never out of date.  Start from a plotter
    whose scene is in order, a new one say, with [lwidth] set as the user
    likes.  After any clicks, key presses and calls of [points(newpts)],
    [lwidth], [splined] and [closed] are as they were, and the scene holds
    nothing of the plotter's own, or the points exactly as they are now,
    alone or with one curve through all of them; the curve is there only
    if [lwidth] is not zero, and only from three points on when splined,
    from two otherwise. *)
Theorem scene_shows_the_clicked_points (E : engine) (inputs : list input)
    (s : plotter) :
  shows_clicked s ->
  shows_clicked (run E inputs s) /\
  lwidth (run E inputs s) = lwidth s /\
  splined (run E inputs s) = splined s /\
  closed (run E inputs s) = closed s.
Proof.
  unfold run. revert s.
  induction inputs as [|i l IH]; intros s H; [repeat split; exact H|].
  simpl.
  destruct (IH (handle E i s) (handle_shows_clicked E i s H))
    as (A & B & C & D).
  destruct (handle_keeps_settings E i s) as (B' & C' & D').
  split; [exact A|]. split; [congruence|]. split; congruence.
Qed.

Lemma scene_shows_the_clicked_points_witness :
  let E := mkEngine (fun _ _ => false) (fun _ _ => O) in
  let s := set_lwidth 0 (init [(0, 0, 0)%Q; (1, 0, 0)%Q; (2, 0, 0)%Q]
                              false true) in
  let inputs := [LeftClick (mkEvent (Some "mesh"%string) (3, 0, 0)%Q "");
                 RightClick (mkEvent (Some "mesh"%string) (0, 0, 0)%Q "")] in
  shows_clicked s /\
  shows_clicked (run E inputs s) /\ lwidth (run E inputs s) = 0%Z.
Proof.
  cbv zeta. split; [left; reflexivity|].
  destruct (scene_shows_the_clicked_points
              (mkEngine (fun _ _ => false) (fun _ _ => O))
              [LeftClick (mkEvent (Some "mesh"%string) (3, 0, 0)%Q "");
               RightClick (mkEvent (Some "mesh"%string) (0, 0, 0)%Q "")]
              (set_lwidth 0 (init [(0, 0, 0)%Q; (1, 0, 0)%Q; (2, 0, 0)%Q]
                                  false true)))
    as (A & B & _).
  - left. reflexivity.
  - split; [exact A|exact B].
Defined.

(** A click that [Spline] refuses (a point too close to its neighbours,
    the source says) is taken back, but the scene is left without the
    points and without the curve, and the point is still announced as
    added. *)
Theorem refused_click_clears_the_scene (E : engine) (evt : event)
    (nm : string) (s : plotter) :
  shows_clicked s ->
  actor evt = Some nm -> nm <> "points"%string ->
  splined s = true -> lwidth s <> 0%Z ->
  (2 <= List.length (cpoints s))%nat ->
  spline_raises E (cpoints s ++ [picked3d evt]) (closed s) = true ->
  exists s',
    _on_left_click E evt s = inr s' /\
    cpoints s' = cpoints s /\ scene s' = [] /\ line s' = line s /\
    (verbose s = true -> printed s' = printed s ++ [Added (picked3d evt)]).
Proof.
  intros H A N Sp W L R. unfold _on_left_click. rewrite A.
  destruct (String.eqb_spec nm "points") as [Eq|_]; [contradiction|].
  eexists. split; [reflexivity|].
  pose proof (remove_owned s (shows_clicked_owned s H)) as Rm.
  unfold _update. cbn [with_cpoints line vpoints scene cpoints splined
                         closed lwidth next_id]. rewrite Rm, Sp. cbv zeta.
  destruct (Z.eqb_spec (lwidth s) 0) as [W0|_]; [contradiction|].
  cbn [negb andb].
  assert (G : (2 <? List.length (cpoints s ++ [picked3d evt]))%nat = true).
  { apply Nat.ltb_lt. rewrite length_app. simpl. lia. }
  rewrite G, R. unfold printc. cbn [verbose with_cpoints].
  destruct (verbose s); cbn; rewrite removelast_last; repeat split; auto;
    discriminate.
Qed.

(** A right click takes the last point away; when [Spline] then refuses
    the points that are left, a second point goes with it and the scene
    is left empty. *)
Theorem right_click_can_drop_two (E : engine) (evt : event) (nm : string)
    (s : plotter) :
  shows_clicked s ->
  actor evt = Some nm -> splined s = true -> lwidth s <> 0%Z ->
  (4 <= List.length (cpoints s))%nat ->
  spline_raises E (removelast (cpoints s)) (closed s) = true ->
  cpoints (_on_right_click E evt s) = removelast (removelast (cpoints s)) /\
  scene (_on_right_click E evt s) = [].
Proof.
  intros H A Sp W L R. unfold _on_right_click. rewrite A.
  assert (P : (0 <? List.length (cpoints s))%nat = true)
    by (apply Nat.ltb_lt; lia).
  rewrite P.
  pose proof (remove_owned s (shows_clicked_owned s H)) as Rm.
  assert (Len : List.length (removelast (cpoints s))
                = pred (List.length (cpoints s))).
  { destruct (cpoints s) as [|x l] using rev_ind; [reflexivity|].
    rewrite removelast_last, length_app. simpl. lia. }
  unfold _update. cbn [with_cpoints line vpoints scene cpoints splined
                         closed lwidth next_id]. rewrite Rm, Sp. cbv zeta.
  destruct (Z.eqb_spec (lwidth s) 0) as [W0|_]; [contradiction|].
  cbn [negb andb].
  assert (G : (2 <? List.length (removelast (cpoints s)))%nat = true)
    by (apply Nat.ltb_lt; lia).
  rewrite G, R. unfold printc. cbn [verbose with_cpoints].
  destruct (verbose s); cbn; split; reflexivity.
Qed.

Lemma refused_click_clears_the_scene_witness :
  let E := mkEngine (fun l _ => Nat.eqb (List.length l) 3) (fun _ _ => O) in
  let s := init [(0, 0, 0)%Q; (1, 0, 0)%Q] false true in
  let evt := mkEvent (Some "mesh"%string) (1, 0, 0)%Q "" in
  exists s',
    _on_left_click E evt s = inr s' /\
    cpoints s' = [(0, 0, 0)%Q; (1, 0, 0)%Q] /\ scene s' = [].
Proof.
  cbv zeta.
  destruct (refused_click_clears_the_scene
              (mkEngine (fun l _ => Nat.eqb (List.length l) 3) (fun _ _ => O))
              (mkEvent (Some "mesh"%string) (1, 0, 0)%Q "") "mesh"
              (init [(0, 0, 0)%Q; (1, 0, 0)%Q] false true))
    as (s' & E & C & S & _).
  - left. reflexivity.
  - reflexivity.
  - discriminate.
  - reflexivity.
  - discriminate.
  - simpl. lia.
  - reflexivity.
  - exists s'. split; [exact E|]. split; [exact C|exact S].
Defined.

Lemma right_click_can_drop_two_witness :
  let E := mkEngine (fun l _ => Nat.eqb (List.length l) 3) (fun _ _ => O) in
  let s := init [(0, 0, 0)%Q; (1, 0, 0)%Q; (2, 0, 0)%Q; (3, 0, 0)%Q] false true in
  let evt := mkEvent (Some "mesh"%string) (0, 0, 0)%Q "" in
  cpoints (_on_right_click E evt s) = [(0, 0, 0)%Q; (1, 0, 0)%Q] /\
  scene (_on_right_click E evt s) = [].
Proof.
  cbv zeta.
  apply (right_click_can_drop_two
           (mkEngine (fun l _ => Nat.eqb (List.length l) 3) (fun _ _ => O))
           (mkEvent (Some "mesh"%string) (0, 0, 0)%Q "") "mesh"
           (init [(0, 0, 0)%Q; (1, 0, 0)%Q; (2, 0, 0)%Q; (3, 0, 0)%Q] false true)).
  - left. reflexivity.
  - reflexivity.
  - reflexivity.
  - discriminate.
  - simpl. lia.
  - reflexivity.
Defined.

End SplinePlotterFacts.

(* ================================================================= *)
(** ** IsosurfaceBrowser *)

Module IsosurfaceBrowserFacts.
Import IsosurfaceBrowser.
Local Open Scope Q_scope.

Lemma argmin_from_least (l pre : list Q) (best : Q) (besti : nat) :
  nth_error pre besti = Some best ->
  (forall b, In b pre -> best <= b) ->
  exists a,
    nth_error (pre ++ l) (argmin_from best besti (List.length pre) l)
    = Some a /\
    forall b, In b (pre ++ l) -> a <= b.
Proof.
  revert pre best besti. induction l as [|x l IH]; intros pre best besti N L.
  - exists best. rewrite app_nil_r. split; [exact N|exact L].
  - cbn [argmin_from].
    replace (S (List.length pre)) with (List.length (pre ++ [x]))
      by (rewrite length_app; simpl; lia).
    replace (pre ++ x :: l)%list with ((pre ++ [x]) ++ l)%list
      by (rewrite <- app_assoc; reflexivity).
    destruct (PyFacts.Qltb_spec x best) as [Lt|Ge].
    + apply IH.
      * rewrite nth_error_app2, Nat.sub_diag by lia. reflexivity.
      * intros b I. apply in_app_or in I. destruct I as [I|[<-|[]]].
        -- specialize (L b I). lra.
        -- lra.
    + apply IH.
      * rewrite nth_error_app1; [exact N|].
        apply nth_error_Some. rewrite N. discriminate.
      * intros b I. apply in_app_or in I. destruct I as [I|[<-|[]]].
        -- apply L, I.
        -- lra.
Qed.

Lemma argmin_least (l : list Q) (idx : nat) :
  argmin l = Some idx ->
  exists a, nth_error l idx = Some a /\ forall b, In b l -> a <= b.
Proof.
  destruct l as [|x l]; [discriminate|]. intros H. injection H as <-.
  apply (argmin_from_least l [x] x 0).
  - reflexivity.
  - intros b [<-|[]]. lra.
Qed.

Lemma snap_closest (allowed : list Q) (v a : Q) :
  snap allowed v = Some a ->
  In a allowed /\ forall b, In b allowed -> Qabs (a - v) <= Qabs (b - v).
Proof.
  unfold snap. destruct (argmin _) as [idx|] eqn:A; [|discriminate].
  intros N. destruct (argmin_least _ _ A) as (d & Nd & L).
  rewrite nth_error_map, N in Nd. injection Nd as <-.
  split; [eapply nth_error_In; exact N|].
  intros b I. apply L. apply in_map_iff. exists b. split; [reflexivity|exact I].
Qed.

Lemma snap_some (allowed : list Q) (v : Q) :
  allowed <> [] -> exists a, snap allowed v = Some a.
Proof.
  intros Ne. unfold snap.
  destruct (argmin (map (fun a => Qabs (a - v)) allowed)) as [idx|] eqn:A.
  - destruct (argmin_least _ _ A) as (d & Nd & _).
    rewrite nth_error_map in Nd.
    destruct (nth_error allowed idx) as [a|]; [|discriminate].
    exists a. reflexivity.
  - destruct allowed; [congruence|discriminate].
Qed.

Lemma lookup_update_same (k : string) (m : mesh) (d : list (string * mesh)) :
  lookup k (update k m d) = Some m.
Proof.
  induction d as [|[k0 m0] d IH]; simpl.
  - rewrite String.eqb_refl. reflexivity.
  - destruct (String.eqb k0 k) eqn:E; simpl; rewrite E; [reflexivity|exact IH].
Qed.

Lemma lookup_update_keeps (k k' : string) (m m0 : mesh)
    (d : list (string * mesh)) :
  lookup k d = Some m0 -> exists m', lookup k (update k' m d) = Some m'.
Proof.
  induction d as [|[k0 m1] d IH]; simpl; [discriminate|].
  intros H. destruct (String.eqb k0 k') eqn:E'; simpl.
  - destruct (String.eqb k0 k); eauto.
  - destruct (String.eqb k0 k); eauto.
Qed.

Lemma lookup_in (k : string) (m : mesh) (d : list (string * mesh)) :
  lookup k d = Some m -> In m (map snd d).
Proof.
  induction d as [|[k0 m0] d IH]; simpl; [discriminate|].
  destruct (String.eqb k0 k); intros H.
  - injection H as <-. left. reflexivity.
  - right. apply IH, H.
Qed.

Lemma precomputed_knows_all (E : engine) (lego0 : bool) (allowed : list Q) :
  forall a, In a allowed ->
    exists m, lookup (precision E a) (precomputed E lego0 allowed) = Some m.
Proof.
  unfold precomputed.
  assert (G : forall l d a,
            (In a l \/ exists m, lookup (precision E a) d = Some m) ->
            exists m,
              lookup (precision E a)
                (fold_left (fun d value => update (precision E value)
                                             (make_mesh E lego0 value) d) l d)
              = Some m).
  { induction l as [|x l IH]; intros d a H; simpl.
    - destruct H as [[]|H]. exact H.
    - apply IH. destruct H as [[<-|I]|(m & H)].
      + right. eexists. apply lookup_update_same.
      + left. exact I.
      + right. eapply lookup_update_keeps. exact H. }
  intros a I. apply G. left. exact I.
Qed.

(** Moving the slider never fails on a browser with allowed values, and
    the surface on show afterwards is the one cached under the name of
    the allowed value closest to the slider: the browser is left as it
    was when that value is within a thousandth of the range of the one
    on show, and is switched to that value otherwise. *)
Theorem slider_shows_closest_value (E : engine) (v : Q) (s : browser) :
  allowed_vals s <> [] ->
  exists a s',
    In a (allowed_vals s) /\
    (forall b, In b (allowed_vals s) -> Qabs (a - v) <= Qabs (b - v)) /\
    slider_isovalue E (Slider v) s = inr s' /\
    ((s' = s /\ Qabs (a - _prev_value s) / delta s < 1 # 1000) \/
     (_prev_value s' = a /\
      exists m,
        actors0 s' = Some m /\
        lookup (precision E a) (bacts s') = Some m /\
        renderer s' = (renderer s ++ [RemoveActor (actors0 s); AddActor m])%list)).
Proof.
  intros Ne. destruct (snap_some (allowed_vals s) v Ne) as (a & Sn).
  destruct (snap_closest _ _ _ Sn) as (I & L).
  exists a. unfold slider_isovalue. rewrite Sn.
  destruct (PyFacts.Qltb_spec (Qabs (a - _prev_value s) / delta s) (1 # 1000))
    as [G|G].
  - exists s. repeat split; auto.
  - destruct (lookup (precision E a) (bacts s)) as [m|] eqn:Lk.
    + eexists. repeat split; auto. right. split; [reflexivity|].
      exists m. cbn. repeat split; auto.
    + eexists. repeat split; auto. right. split; [reflexivity|].
      eexists. cbn. repeat split; auto. apply lookup_update_same.
Qed.

Lemma slider_all_cached (E : engine) (w : widget) (s : browser) :
  all_cached E s ->
  match slider_isovalue E w s with
  | inl (_, s') => s' = s
  | inr s' =>
      all_cached E s' /\ bacts s' = bacts s /\ computed s' = computed s /\
      allowed_vals s' = allowed_vals s
  end.
Proof.
  intros [K R]. unfold slider_isovalue.
  destruct (match w with PyFloat v | Slider v => Some v | PyInt _ => None end)
    as [value|]; [|reflexivity].
  destruct (snap (allowed_vals s) value) as [a|] eqn:Sn; [|reflexivity].
  destruct (Py.Qltb _ _).
  - repeat split; auto.
  - destruct (snap_closest _ _ _ Sn) as (I & _).
    destruct (K a I) as (m & Lk). rewrite Lk. cbn.
    repeat split; auto.
    intros m' H. apply in_app_or in H.
    destruct H as [H|[H|[H|[]]]]; [apply R, H|discriminate|].
    injection H as <-. eapply lookup_in. exact Lk.
Qed.

(** With [precompute=True] the slider never computes a surface: whatever
    the slider does after [__init__], the surfaces computed are those of
    the allowed values, once each, the cache is the one [__init__] has
    left, and every surface handed to the renderer comes from it. *)
Theorem precomputed_slider_computes_nothing (E : engine) (range : Q * Q)
    (isovalue : option widget) (lego0 : bool) (res : Z) (delayed : bool)
    (s0 : browser) (vs : list Q) :
  __init__ E range isovalue lego0 res true delayed = inr (Some s0) ->
  computed (run E vs s0) = allowed_vals s0 /\
  bacts (run E vs s0) = bacts s0 /\
  forall m, In (AddActor m) (renderer (run E vs s0)) ->
            In m (map snd (bacts s0)).
Proof.
  unfold __init__. destruct (Qeq_bool _ 0); [discriminate|].
  destruct (linspace _ _ _) as [allowed|]; [|discriminate].
  cbv zeta.
  match goal with |- context [slider_isovalue E ?w ?s] =>
    pose proof (slider_all_cached E w s) as S0;
    destruct (slider_isovalue E w s) as [[e s1]|s1] end; [discriminate|].
  destruct S0 as ((K & R) & B & C & A).
  { split; cbn.
    - apply precomputed_knows_all.
    - intros m []. }
  cbn in B, C, A.
  assert (Inv : forall s, all_cached E s -> computed s = allowed_vals s ->
            computed (run E vs s) = allowed_vals s /\
            bacts (run E vs s) = bacts s /\
            all_cached E (run E vs s)).
  { unfold run. induction vs as [|v l IH]; intros s H Cs; [auto|].
    simpl. unfold moved at 2 4 6.
    pose proof (slider_all_cached E (Slider v) s H) as St.
    destruct (slider_isovalue E (Slider v) s) as [[e s']|s'].
    - subst s'. apply IH; assumption.
    - destruct St as (H' & B' & C' & A').
      destruct (IH s' H') as (X & Y & Z); [congruence|].
      rewrite X, Y. repeat split; auto. apply Z. apply Z. }
  intros H.
  assert (P : all_cached E s0 /\ computed s0 = allowed_vals s0).
  { destruct lego0.
    - destruct (actors0 s1) as [m|] eqn:Am; [|discriminate].
      injection H as <-. cbn. split; [|congruence]. split.
      + exact K.
      + intros m' I. apply in_app_or in I.
        destruct I as [I|[I|[I|[]]]]; [apply R, I|discriminate|discriminate].
    - injection H as <-. cbn. split; [|congruence]. split.
      + exact K.
      + intros m' I. apply in_app_or in I.
        destruct I as [I|[I|[]]]; [apply R, I|discriminate]. }
  destruct P as (P & Q0). destruct (Inv s0 P Q0) as (X & Y & Z).
  split; [exact X|]. split; [exact Y|]. rewrite <- Y. apply Z.
Qed.

(** The cache goes by the printed name of a value.  Two allowed values
    with one name share a surface: after the first has been shown, moving
    to the second shows the surface of the first again and computes
    nothing. *)
Theorem values_with_one_name_share_a_surface (E : engine) (v1 v2 a b : Q)
    (s : browser) :
  snap (allowed_vals s) v1 = Some a ->
  snap (allowed_vals s) v2 = Some b ->
  precision E a = precision E b ->
  lookup (precision E a) (bacts s) = None ->
  1 # 1000 <= Qabs (a - _prev_value s) / delta s ->
  1 # 1000 <= Qabs (b - a) / delta s ->
  let s2 := moved E v2 (moved E v1 s) in
  _prev_value s2 = b /\
  actors0 s2 = Some (make_mesh E (lego s) a) /\
  computed s2 = (computed s ++ [a])%list.
Proof.
  intros S1 S2 P Lk G1 G2. cbv zeta.
  assert (M1 : moved E v1 s
               = {| _prev_value := a; scrange := scrange s; delta := delta s;
                    lego := lego s; allowed_vals := allowed_vals s;
                    bacts := update (precision E a) (make_mesh E (lego s) a)
                                    (bacts s);
                    actors0 := Some (make_mesh E (lego s) a);
                    computed := computed s ++ [a];
                    renderer := renderer s
                                ++ [RemoveActor (actors0 s);
                                    AddActor (make_mesh E (lego s) a)] |}).
  { unfold moved, slider_isovalue. rewrite S1.
    destruct (PyFacts.Qltb_spec (Qabs (a - _prev_value s) / delta s) (1 # 1000))
      as [G|_]; [lra|].
    rewrite Lk. reflexivity. }
  rewrite M1. unfold moved, slider_isovalue.
  cbn [allowed_vals _prev_value delta bacts lego actors0 computed renderer].
  rewrite S2.
  destruct (PyFacts.Qltb_spec (Qabs (b - a) / delta s) (1 # 1000))
    as [G|_]; [lra|].
  rewrite <- P, lookup_update_same.
  cbn [allowed_vals _prev_value delta bacts lego actors0 computed renderer].
  repeat split; reflexivity.
Qed.

(** What [__init__] refuses, on a volume whose scalars are not all the
    same: an integer given as [isovalue] raises [AttributeError], and a
    resolution that leaves no allowed value (zero, or one with [lego]
    set, which halves it) raises [ValueError]. *)
Theorem init_refusals (E : engine) (range : Q * Q) (lego0 : bool) (res : Z)
    (precompute delayed : bool) :
  ~ snd range - fst range == 0 ->
  (forall k, (0 <= res)%Z ->
     __init__ E range (Some (PyInt k)) lego0 res precompute delayed
     = inl AttributeError) /\
  (forall isovalue,
     (res = 0%Z \/ (lego0 = true /\ (-1 <= res <= 1)%Z)) ->
     (forall k, isovalue <> Some (PyInt k)) ->
     __init__ E range isovalue lego0 res precompute delayed
     = inl ValueError).
Proof.
  intros D. unfold __init__.
  assert (Z0 : Qeq_bool (snd range - fst range) 0 = false).
  { destruct (Qeq_bool _ 0) eqn:Eq; [|reflexivity].
    apply Qeq_bool_iff in Eq. contradiction. }
  rewrite Z0. split.
  - intros k R.
    assert (N : exists l,
               linspace (fst range) (snd range)
                 (if lego0 then Py.int (inject_Z res / 2) else res) = Some l).
    { unfold linspace.
      assert (P : (0 <= (if lego0 then Py.int (inject_Z res / 2) else res))%Z).
      { destruct lego0; [|exact R]. unfold Py.int.
        apply Z.quot_pos; [|lia]. simpl. lia. }
      destruct (Z.ltb_spec (if lego0 then Py.int (inject_Z res / 2) else res) 0);
        [lia|].
      destruct (_ =? 1)%Z; eauto. }
    destruct N as (l & ->). reflexivity.
  - intros isovalue R NI.
    assert (N : (if lego0 then Py.int (inject_Z res / 2) else res) = 0%Z).
    { destruct R as [->|(-> & R)].
      - destruct lego0; reflexivity.
      - assert (C : res = (-1)%Z \/ res = 0%Z \/ res = 1%Z) by lia.
        destruct C as [->|[->| ->]]; reflexivity. }
    rewrite N. change (linspace (fst range) (snd range) 0) with (Some (@nil Q)).
    cbv beta iota zeta.
    destruct isovalue as [[v|k|v]|];
      [ | exfalso; apply (NI k); reflexivity | | ];
      unfold slider_isovalue; cbn [allowed_vals snap map argmin];
      reflexivity.
Qed.

Lemma slider_shows_closest_value_witness :
  let E := mkEngine (fun q => NilZero.string_of_int (Z.to_int (Qfloor q)))
                    (fun _ => 1%nat) in
  let s := mkBrowser (inject_Z (10 ^ 30)) (0, 2) 2 false [0; 1; 2] []
                     None [] [] in
  exists a s',
    In a [0; 1; 2] /\ slider_isovalue E (Slider (4 # 3)) s = inr s'.
Proof.
  cbv zeta.
  destruct (slider_shows_closest_value
              (mkEngine (fun q => NilZero.string_of_int (Z.to_int (Qfloor q)))
                        (fun _ => 1%nat))
              (4 # 3)
              (mkBrowser (inject_Z (10 ^ 30)) (0, 2) 2 false [0; 1; 2] []
                         None [] []))
    as (a & s' & I & _ & R & _).
  - discriminate.
  - exists a, s'. split; [exact I|exact R].
Defined.

Lemma precomputed_slider_computes_nothing_witness :
  let E := mkEngine (fun q => NilZero.string_of_int (Z.to_int (Qfloor q)))
                    (fun _ => 1%nat) in
  exists s0,
    __init__ E (0, 4) None false 5 true false = inr (Some s0) /\
    computed (run E [1; 3; 7 # 2] s0) = allowed_vals s0.
Proof.
  cbv zeta. eexists. split.
  - vm_compute. reflexivity.
  - eapply (precomputed_slider_computes_nothing
              (mkEngine (fun q => NilZero.string_of_int (Z.to_int (Qfloor q)))
                        (fun _ => 1%nat))
              (0, 4) None false 5 false _ [1; 3; 7 # 2]).
    vm_compute. reflexivity.
Defined.

Lemma values_with_one_name_share_a_surface_witness :
  let E := mkEngine (fun q => NilZero.string_of_int (Z.to_int (Qfloor q)))
                    (fun _ => 1%nat) in
  let s := mkBrowser (inject_Z (10 ^ 30)) (0, 2) 2 false
                     [0; 1 # 2; 1; 3 # 2; 2] [] None [] [] in
  let s2 := moved E (3 # 5) (moved E (1 # 10) s) in
  _prev_value s2 = 1 # 2 /\ actors0 s2 = Some (Isosurface 0).
Proof.
  cbv zeta.
  destruct (values_with_one_name_share_a_surface
              (mkEngine (fun q => NilZero.string_of_int (Z.to_int (Qfloor q)))
                        (fun _ => 1%nat))
              (1 # 10) (3 # 5) 0 (1 # 2)
              (mkBrowser (inject_Z (10 ^ 30)) (0, 2) 2 false
                         [0; 1 # 2; 1; 3 # 2; 2] [] None [] []))
    as (P & A & _).
  - vm_compute. reflexivity.
  - vm_compute. reflexivity.
  - vm_compute. reflexivity.
  - reflexivity.
  - apply Qle_bool_iff. vm_compute. reflexivity.
  - apply Qle_bool_iff. vm_compute. reflexivity.
  - split; [exact P|exact A].
Defined.

Lemma init_refusals_witness :
  let E := mkEngine (fun q => NilZero.string_of_int (Z.to_int (Qfloor q)))
                    (fun _ => 1%nat) in
  __init__ E (0, 1) (Some (PyInt 1)) false 50 false false
  = inl AttributeError /\
  __init__ E (0, 1) None true 1 false false = inl ValueError.
Proof.
  cbv zeta.
  destruct (init_refusals
              (mkEngine (fun q => NilZero.string_of_int (Z.to_int (Qfloor q)))
                        (fun _ => 1%nat))
              (0, 1) false 50 false false) as (A & _).
  - intros H. vm_compute in H. discriminate.
  - destruct (init_refusals
              (mkEngine (fun q => NilZero.string_of_int (Z.to_int (Qfloor q)))
                        (fun _ => 1%nat))
              (0, 1) true 1 false false) as (_ & V).
    + intros H. vm_compute in H. discriminate.
    + split.
      * apply A. lia.
      * apply V; [right; split; [reflexivity|lia]|discriminate].
Defined.

End IsosurfaceBrowserFacts.

(* ================================================================= *)
(** ** Clock *)

Module ClockFacts.
Import Reals Lra.
Import Clock.
Local Open Scope R_scope.

Lemma nth_error_replaced {A : Type} (l : list A) (i j : nat) (x : A) :
  (i < List.length l)%nat ->
  nth_error (firstn i l ++ x :: skipn (S i) l) j
  = if Nat.eqb j i then Some x else nth_error l j.
Proof.
  intros Lt.
  assert (Lf : List.length (firstn i l) = i)
    by (rewrite length_firstn; lia).
  destruct (Nat.eqb_spec j i) as [->|Ne].
  - rewrite nth_error_app2 by lia. rewrite Lf, Nat.sub_diag. reflexivity.
  - destruct (Nat.lt_ge_cases j i) as [Lj|Gj].
    + rewrite nth_error_app1 by lia. rewrite nth_error_firstn.
      destruct (Nat.ltb_spec j i); [reflexivity|lia].
    + rewrite nth_error_app2 by lia. rewrite Lf.
      destruct (j - i)%nat as [|d] eqn:D; [lia|]. cbn [nth_error].
      rewrite nth_error_skipn. f_equal. lia.
Qed.

Lemma set_tip_sets (i : nat) (p : point) (parts : list (option part))
    (a : part) :
  nth_error parts i = Some (Some a) -> (2 <= List.length (pts a))%nat ->
  exists parts' a',
    set_tip i p parts = inr parts' /\
    nth_error parts' i = Some (Some a') /\
    nth_error (pts a') 1 = Some p /\
    List.length (pts a') = List.length (pts a) /\
    List.length parts' = List.length parts /\
    forall j, j <> i -> nth_error parts' j = nth_error parts j.
Proof.
  intros N L. unfold set_tip. rewrite N.
  destruct (pts a) as [|p0 [|q rest]] eqn:P; simpl in L; try lia.
  assert (Lt : (i < List.length parts)%nat)
    by (apply nth_error_Some; rewrite N; discriminate).
  eexists. eexists. split; [reflexivity|]. split; [|split; [|split; [|split]]].
  - rewrite nth_error_replaced by exact Lt. rewrite Nat.eqb_refl. reflexivity.
  - reflexivity.
  - reflexivity.
  - rewrite length_app, length_firstn. cbn [List.length].
    rewrite length_skipn. lia.
  - intros j Ne. rewrite nth_error_replaced by exact Lt.
    destruct (Nat.eqb_spec j i); [contradiction|reflexivity].
Qed.

Lemma quarter_turn_cos (x : R) : - cos (x + PI / 2) = sin x.
Proof. rewrite (sin_cos x), Rplus_comm. reflexivity. Qed.

Lemma quarter_turn_sin (x : R) : sin (x + PI / 2) = cos x.
Proof. rewrite (cos_sin x), Rplus_comm. reflexivity. Qed.

(** The hour hand: [alpha] is the clock-face angle of [h:m]. *)
Lemma hour_hand_on_face (h m : Z) (len z : R) :
  (- cos (alpha h m) * len, sin (alpha h m) * len, z)
  = on_face len (IZR (h * 60 + m) / 720) z.
Proof.
  unfold alpha, on_face. rewrite quarter_turn_sin.
  replace (- cos (2 * PI * (IZR (h * 60 + m) / 12 / 60) + PI / 2) * len)
    with (len * - cos (2 * PI * (IZR (h * 60 + m) / 12 / 60) + PI / 2))
    by ring.
  rewrite quarter_turn_cos.
  replace (2 * PI * (IZR (h * 60 + m) / 12 / 60))
    with (2 * PI * (IZR (h * 60 + m) / 720)) by field.
  f_equal. f_equal. ring.
Qed.

(** The minute hand: [beta] turns with the minutes alone, the whole hours
    only add full turns. *)
Lemma minute_hand_on_face (h m : Z) (len z : R) :
  (0 <= h)%Z ->
  (- cos (beta h m) * len, sin (beta h m) * len, z)
  = on_face len (IZR m / 60) z.
Proof.
  intros H. unfold beta, on_face. rewrite quarter_turn_sin.
  replace (- cos (12 * 2 * PI * (IZR (h * 60 + m) / 12 / 60) + PI / 2) * len)
    with (len * - cos (12 * 2 * PI * (IZR (h * 60 + m) / 12 / 60) + PI / 2))
    by ring.
  rewrite quarter_turn_cos.
  assert (T : 12 * 2 * PI * (IZR (h * 60 + m) / 12 / 60)
              = 2 * PI * (IZR m / 60) + 2 * INR (Z.to_nat h) * PI).
  { rewrite INR_IZR_INZ, Z2Nat.id by exact H.
    rewrite plus_IZR, mult_IZR. field. }
  rewrite T, sin_period, cos_period. f_equal. f_equal. ring.
Qed.

Lemma second_hand_on_face (s : Z) (len z : R) :
  (- cos (gamma s) * len, sin (gamma s) * len, z)
  = on_face len (IZR s / 60) z.
Proof.
  unfold gamma, on_face. rewrite quarter_turn_sin.
  replace (- cos (IZR s * 2 * PI / 60 + PI / 2) * len)
    with (len * - cos (IZR s * 2 * PI / 60 + PI / 2)) by ring.
  rewrite quarter_turn_cos.
  replace (IZR s * 2 * PI / 60) with (2 * PI * (IZR s / 60)) by field.
  f_equal. f_equal. ring.
Qed.

(** [update(h, m, s)] on a clock with its three hands puts every hand
    where the hand of a clock points: the hour hand, of length 0.5, at
    (60 h + m)/720 of a turn clockwise from twelve, the minute hand, of
    length 0.75, at m/60 of a turn, the second hand, of length 0.95, at
    s/60 of a turn, for h, m and s cut to integers and reduced modulo 24,
    60 and 60.  Minutes beyond 59 are not carried over to the hours. *)
Theorem update_points_the_hands (now : R) (lt : tm) (h m s : Q) (c : clock)
    (ore minu secs : part) :
  nth_error (actors c) 2 = Some (Some ore) ->
  nth_error (actors c) 3 = Some (Some minu) ->
  nth_error (actors c) 4 = Some (Some secs) ->
  (2 <= List.length (pts ore))%nat ->
  (2 <= List.length (pts minu))%nat ->
  (2 <= List.length (pts secs))%nat ->
  let H := (Py.int h mod 24)%Z in
  let M := (Py.int m mod 60)%Z in
  let S := (Py.int s mod 60)%Z in
  exists c',
    update now lt (Some h) (Some m) (Some s) c = inr c' /\
    tip c' 2 = Some (on_face (1 / 2) (IZR (H * 60 + M) / 720) (1 / 1000)) /\
    tip c' 3 = Some (on_face (3 / 4) (IZR M / 60) (2 / 1000)) /\
    tip c' 4 = Some (on_face (95 / 100) (IZR S / 60) (3 / 1000)) /\
    elapsed c' = now - _start c /\
    List.length (actors c') = List.length (actors c).
Proof.
  intros N2 N3 N4 L2 L3 L4 H M S. unfold update. cbv zeta.
  fold H M S.
  destruct (set_tip_sets 2 (- cos (alpha H M) * (1 / 2),
                            sin (alpha H M) * (1 / 2), 1 / 1000)
              (actors c) ore N2 L2)
    as (p2 & a2 & E2 & G2 & T2 & _ & Len2 & K2).
  rewrite E2.
  assert (N3' : nth_error p2 3 = Some (Some minu))
    by (rewrite K2 by discriminate; exact N3).
  destruct (set_tip_sets 3 (- cos (beta H M) * (3 / 4),
                            sin (beta H M) * (3 / 4), 2 / 1000)
              p2 minu N3' L3)
    as (p3 & a3 & E3 & G3 & T3 & _ & Len3 & K3).
  rewrite E3.
  assert (N4' : nth_error p3 4 = Some (Some secs)).
  { rewrite K3 by discriminate. rewrite K2 by discriminate. exact N4. }
  destruct (set_tip_sets 4 (- cos (gamma S) * (95 / 100),
                            sin (gamma S) * (95 / 100), 3 / 1000)
              p3 secs N4' L4)
    as (p4 & a4 & E4 & G4 & T4 & _ & Len4 & K4).
  rewrite E4.
  eexists. split; [reflexivity|]. unfold tip. cbn [actors with_parts elapsed].
  assert (HP : (0 <= H)%Z) by (apply Z.mod_pos_bound; lia).
  split; [|split; [|split; [|split]]].
  - rewrite K4 by discriminate. rewrite K3 by discriminate. rewrite G2, T2.
    f_equal. apply hour_hand_on_face.
  - rewrite K4 by discriminate. rewrite G3, T3.
    f_equal. apply minute_hand_on_face. exact HP.
  - rewrite G4, T4. f_equal. apply second_hand_on_face.
  - reflexivity.
  - congruence.
Qed.

(** A clock built from hours and minutes alone has no second hand, and
    cannot be set to the current time any more: [update()] then raises
    [AttributeError], after it has moved the hour and the minute hand. *)
Theorem clock_without_seconds_cannot_follow_time (E : engine) (now0 : R)
    (lt0 : tm) (h m : Q) (font title c : string) :
  (forall x y k z, (2 <= List.length (points_of E (Hand x y k z)))%nat) ->
  exists c0,
    __init__ E now0 lt0 (Some h) (Some m) None font title c = inr c0 /\
    nth_error (actors c0) 4 = Some None /\
    forall now lt s,
      exists c1,
        update now lt None None s c0 = inl (AttributeError, c1) /\
        tip c1 2 = Some (on_face (1 / 2)
                           (IZR ((tm_hour lt mod 24) * 60 + tm_min lt mod 60)
                            / 720) (1 / 1000)) /\
        tip c1 3 = Some (on_face (3 / 4) (IZR (tm_min lt mod 60) / 60)
                           (2 / 1000)).
Proof.
  intros Two. unfold __init__. cbn [andb]. cbv zeta.
  eexists. split; [reflexivity|]. split; [reflexivity|].
  intros now lt s. unfold update. cbv zeta. cbn [actors].
  assert (I : forall z, Py.int (inject_Z z) = z).
  { intros z. unfold Py.int. simpl. apply Z.quot_1_r. }
  rewrite !I.
  set (H := (tm_hour lt mod 24)%Z). set (M := (tm_min lt mod 60)%Z).
  match goal with |- context [set_tip 2 ?p ?parts] =>
    destruct (set_tip_sets 2 p parts
                (new_part E (Hand (cos (alpha (Py.int h mod 24) (Py.int m mod 60)))
                                  (sin (alpha (Py.int h mod 24) (Py.int m mod 60)))
                                  (1 / 2) None)) eq_refl (Two _ _ _ _))
      as (p2 & a2 & E2 & G2 & T2 & _ & Len2 & K2) end.
  rewrite E2.
  match goal with |- context [set_tip 3 ?p p2] =>
    destruct (set_tip_sets 3 p p2
                (new_part E (Hand (cos (beta (Py.int h mod 24) (Py.int m mod 60)))
                                  (sin (beta (Py.int h mod 24) (Py.int m mod 60)))
                                  (3 / 4) (Some (2 / 1000))))
                (eq_trans (K2 3%nat ltac:(discriminate)) eq_refl)
                (Two _ _ _ _))
      as (p3 & a3 & E3 & G3 & T3 & _ & Len3 & K3) end.
  rewrite E3.
  assert (N4 : nth_error p3 4 = Some None).
  { rewrite K3 by discriminate. rewrite K2 by discriminate. reflexivity. }
  unfold set_tip at 1. rewrite N4.
  eexists. split; [reflexivity|]. unfold tip. cbn [actors with_parts].
  assert (HP : (0 <= H)%Z) by (apply Z.mod_pos_bound; lia).
  split.
  - rewrite K3 by discriminate. rewrite G2, T2.
    f_equal. apply hour_hand_on_face.
  - rewrite G3, T3. f_equal. apply minute_hand_on_face. exact HP.
Qed.

Lemma update_points_the_hands_witness :
  let hand := Some (mkPart (Hand 0 1 1 None) [(0, 0, 0); (0, 1, 0)]) in
  let c := mkClock 0 0 [None; None; hand; hand; hand; None] "Clock" in
  exists c',
    update 5 (mkTm 0 0 0 0 1 1 2000) (Some 3%Q) (Some 75%Q) (Some 30%Q) c
    = inr c' /\
    tip c' 3 = Some (on_face (3 / 4) (15 / 60) (2 / 1000)).
Proof.
  cbv zeta.
  destruct (update_points_the_hands 5 (mkTm 0 0 0 0 1 1 2000) 3%Q 75%Q 30%Q
              (mkClock 0 0
                 [None; None;
                  Some (mkPart (Hand 0 1 1 None) [(0, 0, 0); (0, 1, 0)]);
                  Some (mkPart (Hand 0 1 1 None) [(0, 0, 0); (0, 1, 0)]);
                  Some (mkPart (Hand 0 1 1 None) [(0, 0, 0); (0, 1, 0)]);
                  None] "Clock")
              (mkPart (Hand 0 1 1 None) [(0, 0, 0); (0, 1, 0)])
              (mkPart (Hand 0 1 1 None) [(0, 0, 0); (0, 1, 0)])
              (mkPart (Hand 0 1 1 None) [(0, 0, 0); (0, 1, 0)]))
    as (c' & U & _ & T & _).
  - reflexivity.
  - reflexivity.
  - reflexivity.
  - simpl. lia.
  - simpl. lia.
  - simpl. lia.
  - exists c'. split; [exact U|exact T].
Defined.

Lemma clock_without_seconds_cannot_follow_time_witness :
  let E := mkEngine (fun _ => [(0, 0, 0); (0, 1, 0)]) in
  exists c0 c1,
    __init__ E 0 (mkTm 0 0 0 0 1 1 2000) (Some 10%Q) (Some 30%Q) None
             "Quikhand" "" "k" = inr c0 /\
    update 1 (mkTm 10 31 0 0 1 1 2000) None None None c0
    = inl (AttributeError, c1).
Proof.
  cbv zeta.
  destruct (clock_without_seconds_cannot_follow_time
              (mkEngine (fun _ => [(0, 0, 0); (0, 1, 0)]))
              0 (mkTm 0 0 0 0 1 1 2000) 10%Q 30%Q "Quikhand" "" "k")
    as (c0 & I & _ & U).
  - intros x y k z. simpl. lia.
  - destruct (U 1 (mkTm 10 31 0 0 1 1 2000) None) as (c1 & U1 & _).
    exists c0, c1. split; [exact I|exact U1].
Defined.

End ClockFacts.
